(** * Kashmiri AI voice assistant: the live-session controller of [App.tsx]

    A shallow embedding of the session controller of [src/App.tsx] (the
    [App] component: [stopSession], [startSession] with the callbacks of the
    live session, the start/stop and mode buttons), of the platform pieces
    it is written against (React state and refs, Web Audio contexts and
    sources, the media stream, the live session), of the codec helpers it
    imports, and of the handlers beside the session ([handleFileUpload],
    [generateSummary], [getStatusText]); then the properties of its
    specification and further properties of the code.

    How the program is modelled:

    - React state.  The component is a function component under React's
      batched updates: a setter queues an update, the component reads the
      new state at its next render only ([Render] below), and a handler
      closes over the state of the render that created it.  An updater
      function passed to a setter is run when the queue is applied; React
      may run it at once when nothing is queued for the component, which the
      environment decides ([eager]).
    - Refs are plain mutable cells, written at once.
    - Platform objects (audio contexts, playback sources, stream, capture
      nodes, sessions) live in a [World]; a ref holds the identity of its
      object.
    - A handler runs to completion: the [await]s of [stopSession],
      [startSession] and [onmessage] are not points at which another handler
      comes in between.  The outcome of what is awaited ([getUserMedia], the
      promise of [connect], [decodeAudioData]) is given by the environment
      or by the codec.
    - Times are rational numbers; [Math.max] and [+] on them are exact.
    - The rest of the component (the status line, the transcription of a
      file, the summary, the copy button, the captured frames sent to the
      session) touches neither a ref nor a platform object of the session;
      it is modelled after the session controller, as a [Page] around the
      [App].  There the [await] of a request is a point where other events
      come in between: the settling of a request is an event of its own. *)

From Stdlib Require Import ZArith QArith Qround Qminmax Qabs Lia Lqa.
From Stdlib Require Import Strings.String Strings.Ascii Strings.Byte List Bool.
From stdpp Require Import base decidable option list.
Import ListNotations.

Local Open Scope string_scope.
Local Open Scope list_scope.

(* ===================================================================== *)
(** * JavaScript strings *)
(* ===================================================================== *)

(** A string is a sequence of code units; the model keeps the code units
    below 256.  [String.prototype.trim] removes the white space and line
    terminators of the language: TAB, LF, VT, FF, CR, SP and NBSP in this
    range. *)
Module JS.

Definition isWhiteSpace (c : ascii) : bool :=
  match N_of_ascii c with
  | 9%N | 10%N | 11%N | 12%N | 13%N | 32%N | 160%N => true
  | _ => false
  end.

Fixpoint trimStart (s : string) : string :=
  match s with
  | EmptyString => EmptyString
  | String c s' => if isWhiteSpace c then trimStart s' else s
  end.

Fixpoint trimEnd (s : string) : string :=
  match s with
  | EmptyString => EmptyString
  | String c s' =>
      match trimEnd s' with
      | EmptyString => if isWhiteSpace c then EmptyString else String c EmptyString
      | t => String c t
      end
  end.

Definition trim (s : string) : string := trimEnd (trimStart s).

(** Truthiness of a string in a condition: every string but the empty one. *)
Definition truthy (s : string) : bool :=
  match s with
  | EmptyString => false
  | String _ _ => true
  end.

End JS.

(* ===================================================================== *)
(** * Audio codec helpers ([./utils/audioUtils]) *)
(* ===================================================================== *)

Module Codec.

Local Open Scope Z_scope.

Definition byte_to_Z (b : byte) : Z := Z.of_N (Byte.to_N b).

Definition byte_of_Z (z : Z) : byte :=
  match Byte.of_N (Z.to_N z) with
  | Some b => b
  | None => x00
  end.

(** ** Base64 *)

Definition b64_alphabet : string :=
  "ABCDEFGHIJKLMNOPQRSTUVWXYZabcdefghijklmnopqrstuvwxyz0123456789+/".

Definition b64_pad : ascii := "="%char.

Definition b64_char (n : Z) : ascii :=
  match String.get (Z.to_nat n) b64_alphabet with
  | Some c => c
  | None => b64_pad
  end.

Definition b64_index (c : ascii) : option Z :=
  let n := Z.of_N (N_of_ascii c) in
  if (65 <=? n) && (n <=? 90) then Some (n - 65)
  else if (97 <=? n) && (n <=? 122) then Some (n - 97 + 26)
  else if (48 <=? n) && (n <=? 57) then Some (n - 48 + 52)
  else if n =? 43 then Some 62
  else if n =? 47 then Some 63
  else None.

(** Modelled from the spec: [encode] of [./utils/audioUtils], which is
    imported by [App.tsx] and is not part of the sources at hand.  The
    specification names it only as the base64 encoding of the raw bytes;
    this is the standard alphabet with [=] padding. *)
Fixpoint b64_encode (bs : list byte) : string :=
  match bs with
  | [] => EmptyString
  | [a] =>
      let x := byte_to_Z a in
      String (b64_char (x / 4))
        (String (b64_char ((x mod 4) * 16))
           (String b64_pad (String b64_pad EmptyString)))
  | [a; b] =>
      let x := byte_to_Z a in
      let y := byte_to_Z b in
      String (b64_char (x / 4))
        (String (b64_char ((x mod 4) * 16 + y / 16))
           (String (b64_char ((y mod 16) * 4))
              (String b64_pad EmptyString)))
  | a :: b :: c :: rest =>
      let x := byte_to_Z a in
      let y := byte_to_Z b in
      let z := byte_to_Z c in
      String (b64_char (x / 4))
        (String (b64_char ((x mod 4) * 16 + y / 16))
           (String (b64_char ((y mod 16) * 4 + z / 64))
              (String (b64_char (z mod 64)) (b64_encode rest))))
  end.

(** The last group of four characters, which may carry padding. *)
Definition b64_decode_group (c1 c2 c3 c4 : ascii) : option (list byte) :=
  match b64_index c1, b64_index c2 with
  | Some s1, Some s2 =>
      let b1 := byte_of_Z (s1 * 4 + s2 / 16) in
      if Ascii.eqb c4 b64_pad then
        if Ascii.eqb c3 b64_pad then Some [b1]
        else
          match b64_index c3 with
          | Some s3 => Some [b1; byte_of_Z ((s2 mod 16) * 16 + s3 / 4)]
          | None => None
          end
      else
        match b64_index c3, b64_index c4 with
        | Some s3, Some s4 =>
            Some [b1; byte_of_Z ((s2 mod 16) * 16 + s3 / 4);
                  byte_of_Z ((s3 mod 4) * 64 + s4)]
        | _, _ => None
        end
  | _, _ => None
  end.

(** Modelled from the spec: [decode] of [./utils/audioUtils] ("base64-decodes
    to raw bytes"), not part of the sources at hand.  A string that is not
    base64 has no decoding. *)
Fixpoint b64_decode (s : string) : option (list byte) :=
  match s with
  | EmptyString => Some []
  | String c1 (String c2 (String c3 (String c4 rest))) =>
      match b64_decode_group c1 c2 c3 c4 with
      | Some g =>
          match rest with
          | EmptyString => Some g
          | _ =>
              if Ascii.eqb c4 b64_pad then None
              else
                match b64_decode rest with
                | Some bs => Some (g ++ bs)
                | None => None
                end
          end
      | None => None
      end
  | _ => None
  end.

(** ** 16-bit PCM *)

Local Open Scope Q_scope.

(** The value of a sample kept inside [-1, 1]. *)
Definition clamp (x : Q) : Q := Qmax (-1) (Qmin 1 x).

(** The integer part of a rational, rounding toward zero. *)
Definition Qtrunc (q : Q) : Z := Z.quot (Qnum q) (Zpos (Qden q)).

(** One step of the 16-bit grid. *)
Definition quantum : Q := 1 # 32768.

(** Modelled from the spec: the sample conversion of [createBlob]
    ("clamps/scales each sample to a 16-bit signed integer"): the sample is
    clamped to [-1, 1], scaled by 2^15, cut to its integer part and kept
    within the 16-bit range. *)
Definition to_int16 (x : Q) : Z :=
  Z.min 32767 (Z.max (-32768) (Qtrunc (clamp x * 32768))).

(** Little-endian packing of a 16-bit two's complement value. *)
Definition int16_bytes (z : Z) : list byte :=
  let u := (z mod 65536)%Z in
  [byte_of_Z (u mod 256)%Z; byte_of_Z (u / 256)%Z].

Definition int16_of_bytes (lo hi : byte) : Z :=
  let u := (byte_to_Z lo + 256 * byte_to_Z hi)%Z in
  if (32768 <=? u)%Z then (u - 65536)%Z else u.

(** The "PCM Blob" of the specification: raw bytes and a type tag. *)
Record PcmBlob := mkBlob { blobData : list byte; blobMimeType : string }.

(** Modelled from the spec: [createBlob] of [./utils/audioUtils]
    ([encodeOutbound] in the specification), not part of the sources at
    hand: "clamps/scales each sample to a 16-bit signed integer,
    little-endian packed, wrapped with a fixed MIME tag
    (audio/pcm;rate=16000)". *)
Definition encodeOutbound (samples : list Q) : PcmBlob :=
  {| blobData := flat_map (fun x => int16_bytes (to_int16 x)) samples;
     blobMimeType := "audio/pcm;rate=16000" |}.

(** A decoded buffer: sample rate, channel count and the samples of each
    channel. *)
Record AudioBuffer := mkBuffer {
  bufSampleRate : positive;
  bufChannels : nat;
  bufData : list (list Q)
}.

Definition bufLength (b : AudioBuffer) : nat :=
  match bufData b with
  | [] => 0%nat
  | ch :: _ => length ch
  end.

(** [AudioBuffer.duration]: frames over sample rate, in seconds. *)
Definition duration (b : AudioBuffer) : Q :=
  Z.of_nat (bufLength b) # bufSampleRate b.

Fixpoint pcm16_samples (bs : list byte) : list Q :=
  match bs with
  | lo :: hi :: rest => (int16_of_bytes lo hi # 32768) :: pcm16_samples rest
  | _ => []
  end.

(** The samples of channel [k] out of [n] interleaved channels; [i] is the
    index of the head of the list. *)
Fixpoint channel (n k i : nat) (l : list Q) : list Q :=
  match l with
  | [] => []
  | x :: l' =>
      if Nat.eqb (i mod n) k then x :: channel n k (S i) l'
      else channel n k (S i) l'
  end.

(** Modelled from the spec: [decodeAudioData(decode(base64), ctx, rate,
    channels)] of [./utils/audioUtils] ([decodeInbound] in the
    specification), not part of the sources at hand: "base64-decodes to raw
    bytes, reinterprets as 16-bit PCM, normalizes to floating-point range,
    constructs a buffer of the given sample rate/channel count.  Fails if
    byte length is not a multiple of the sample frame size." *)
Definition decodeInbound (base64 : string) (sampleRate : positive)
    (channels : nat) : option AudioBuffer :=
  match b64_decode base64 with
  | None => None
  | Some bs =>
      if Nat.eqb channels 0 then None
      else if negb (Nat.eqb (length bs mod (2 * channels)) 0) then None
      else
        let samples := pcm16_samples bs in
        Some {| bufSampleRate := sampleRate;
                bufChannels := channels;
                bufData := map (fun k => channel channels k 0 samples)
                               (seq 0 channels) |}
  end.

End Codec.

(* ===================================================================== *)
(** * Data model of [App.tsx] *)
(* ===================================================================== *)

Inductive AppMode := conversation | transcription.
Inductive Status := idle | connecting | listening | speaking | error | processing.
Inductive Speaker := user | ai.

Record TranscriptEntry := mkEntry { speaker : Speaker; text : string }.

#[global] Instance AppMode_eq_dec : EqDecision AppMode.
Proof. solve_decision. Defined.
#[global] Instance Status_eq_dec : EqDecision Status.
Proof. solve_decision. Defined.
#[global] Instance Speaker_eq_dec : EqDecision Speaker.
Proof. solve_decision. Defined.
#[global] Instance text_eq_dec : EqDecision string := String.string_dec.

(** The part of a [LiveServerMessage] that the handler reads.
    [message.serverContent?.modelTurn?.parts[0]?.inlineData.data] guards
    [modelTurn] and [parts[0]] but not [inlineData]: a first part without
    inline data makes the property access throw. *)
Inductive ModelTurnPart :=
  | NoPart
  | PartWithoutInlineData
  | InlineData (data : string).

Record LiveServerMessage := mkMessage {
  inputTranscription : option string;   (* serverContent.inputTranscription.text *)
  outputTranscription : option string;  (* serverContent.outputTranscription.text *)
  modelTurnPart : ModelTurnPart;        (* serverContent.modelTurn.parts[0] *)
  turnComplete : bool                   (* serverContent.turnComplete *)
}.

(** ** React state ([useState], lines 25-38) *)

Record UiState := mkUi {
  mode : AppMode;
  status : Status;
  isRecording : bool;
  transcriptHistory : list TranscriptEntry;
  currentUserTranscript : string;
  currentAiTranscript : string;
  summary : option string
}.

(** ** Refs ([useRef], lines 40-50)

    Objects of the platform are held by reference: a ref stores the
    identity of the object, [None] for [null]. *)

Record Refs := mkRefs {
  sessionPromiseRef : option nat;
  inputAudioContextRef : option nat;
  outputAudioContextRef : option nat;
  mediaStreamRef : option nat;
  scriptProcessorRef : option nat;
  mediaStreamSourceRef : option nat;
  currentInputTranscriptionRef : string;
  currentOutputTranscriptionRef : string;
  nextStartTimeRef : Q;
  audioSourcesRef : list nat            (* a [Set], in insertion order *)
}.

(** ** The platform objects the component creates *)

Inductive AudioContextState := running | closed.

#[global] Instance AudioContextState_eq_dec : EqDecision AudioContextState.
Proof. solve_decision. Defined.

(** An [AudioBufferSourceNode] that has been started. *)
Record PlaybackSource := mkSource {
  srcContext : nat;      (* the context it plays on *)
  srcStart : Q;          (* the argument of [start] *)
  srcDuration : Q        (* [buffer.duration] *)
}.

Inductive PromiseState := fulfilled | rejected.

(** A live session as returned (in a promise) by [ai.live.connect]; its
    callbacks close over the [mode] of the render that started it. *)
Record LiveSession := mkSession {
  sessMode : AppMode;
  sessPromise : PromiseState;
  sessClosed : bool
}.

Record World := mkWorld {
  contexts : list AudioContextState;   (* every [AudioContext] created *)
  sources : list PlaybackSource;       (* every source started, in order *)
  stopped : list nat;                  (* sources on which [stop()] was called *)
  ended : list nat;                    (* sources whose [ended] event was delivered *)
  streams : list bool;                 (* media streams: are the tracks live? *)
  nodes : list bool;                   (* capture graph nodes: connected? *)
  sessions : list LiveSession;         (* every [connect] issued *)
  micRequests : nat;                   (* calls of [getUserMedia] *)
  console : list string                (* [console.error] lines *)
}.

(** ** State updates of the component

    A state setter does not change the state the component has rendered:
    it queues an update, and React re-renders the component later, after
    the handler has returned.  A plain value replaces the state.  An updater
    function is put in the queue and called during the next render, on the
    state the queue has led to so far; it reads what it closes over at that
    moment, not at the moment the setter was called.  The two updaters of
    the component (lines 182 and 185) close over a ref:

      [prev => [...prev, {speaker: 'user', text: currentInputTranscriptionRef.current.trim()}]]
      [prev => [...prev, {speaker: 'ai',   text: currentOutputTranscriptionRef.current.trim()}]]
*)
Inductive HistoryUpdater := AppendUserEntry | AppendAiEntry.

Inductive Update :=
  | SetMode (m : AppMode)
  | SetStatus (st : Status)
  | SetIsRecording (b : bool)
  | SetCurrentUserTranscript (t : string)
  | SetCurrentAiTranscript (t : string)
  | SetSummary (o : option string)
  | SetTranscriptHistory (f : HistoryUpdater)           (* updater, not yet run *)
  | TranscriptHistoryIs (h : list TranscriptEntry).     (* updater already run *)

(** The whole state: what was rendered last, the updates queued since, the
    refs and the platform objects. *)
Record App := mkApp {
  ui : UiState;
  pending : list Update;
  refs : Refs;
  world : World
}.

(** What a handler finds around it when it runs. *)
Record Env := mkEnv {
  API_KEY : option string;   (* [process.env.API_KEY] *)
  micGranted : bool;         (* does [getUserMedia] resolve? *)
  connectResolves : bool;    (* does the promise of [connect] resolve? *)
  currentTime : Q;           (* [audioContext.currentTime] of the output context *)
  eager : bool               (* may React run the first update of an idle
                                component at once (its eager-state path)? *)
}.

(** A handler returns or throws; the state it has reached stays either way. *)
Inductive Completion :=
  | Returned (s : App)
  | Threw (s : App).

Definition state_of (c : Completion) : App :=
  match c with
  | Returned s => s
  | Threw s => s
  end.

Definition and_then (c : Completion) (k : App -> Completion) : Completion :=
  match c with
  | Returned s => k s
  | Threw s => Threw s
  end.

Notation "'run' s <- c 'in' k" := (and_then c (fun s => k))
  (at level 10, s name, c at level 100, k at level 200).

Definition initialUi : UiState :=
  {| mode := conversation; status := idle; isRecording := false;
     transcriptHistory := []; currentUserTranscript := EmptyString;
     currentAiTranscript := EmptyString; summary := None |}.

Definition initialRefs : Refs :=
  {| sessionPromiseRef := None; inputAudioContextRef := None;
     outputAudioContextRef := None; mediaStreamRef := None;
     scriptProcessorRef := None; mediaStreamSourceRef := None;
     currentInputTranscriptionRef := EmptyString; currentOutputTranscriptionRef := EmptyString;
     nextStartTimeRef := 0%Q; audioSourcesRef := [] |}.

Definition emptyWorld : World :=
  {| contexts := []; sources := []; stopped := []; ended := [];
     streams := []; nodes := [];
     sessions := []; micRequests := 0; console := [] |}.

Definition initial : App :=
  {| ui := initialUi; pending := []; refs := initialRefs; world := emptyWorld |}.

(* ===================================================================== *)
(** * Assignments to refs and platform objects *)
(* ===================================================================== *)

Definition with_refs (f : Refs -> Refs) (s : App) : App :=
  {| ui := ui s; pending := pending s; refs := f (refs s); world := world s |}.

Definition with_world (f : World -> World) (s : App) : App :=
  {| ui := ui s; pending := pending s; refs := refs s; world := f (world s) |}.

Definition assign_sessionPromiseRef (v : option nat) : App -> App :=
  with_refs (fun r =>
    mkRefs v (inputAudioContextRef r) (outputAudioContextRef r)
      (mediaStreamRef r) (scriptProcessorRef r) (mediaStreamSourceRef r)
      (currentInputTranscriptionRef r) (currentOutputTranscriptionRef r)
      (nextStartTimeRef r) (audioSourcesRef r)).

Definition assign_inputAudioContextRef (v : option nat) : App -> App :=
  with_refs (fun r =>
    mkRefs (sessionPromiseRef r) v (outputAudioContextRef r)
      (mediaStreamRef r) (scriptProcessorRef r) (mediaStreamSourceRef r)
      (currentInputTranscriptionRef r) (currentOutputTranscriptionRef r)
      (nextStartTimeRef r) (audioSourcesRef r)).

Definition assign_outputAudioContextRef (v : option nat) : App -> App :=
  with_refs (fun r =>
    mkRefs (sessionPromiseRef r) (inputAudioContextRef r) v
      (mediaStreamRef r) (scriptProcessorRef r) (mediaStreamSourceRef r)
      (currentInputTranscriptionRef r) (currentOutputTranscriptionRef r)
      (nextStartTimeRef r) (audioSourcesRef r)).

Definition assign_mediaStreamRef (v : option nat) : App -> App :=
  with_refs (fun r =>
    mkRefs (sessionPromiseRef r) (inputAudioContextRef r)
      (outputAudioContextRef r) v (scriptProcessorRef r)
      (mediaStreamSourceRef r)
      (currentInputTranscriptionRef r) (currentOutputTranscriptionRef r)
      (nextStartTimeRef r) (audioSourcesRef r)).

Definition assign_scriptProcessorRef (v : option nat) : App -> App :=
  with_refs (fun r =>
    mkRefs (sessionPromiseRef r) (inputAudioContextRef r)
      (outputAudioContextRef r) (mediaStreamRef r) v
      (mediaStreamSourceRef r)
      (currentInputTranscriptionRef r) (currentOutputTranscriptionRef r)
      (nextStartTimeRef r) (audioSourcesRef r)).

Definition assign_mediaStreamSourceRef (v : option nat) : App -> App :=
  with_refs (fun r =>
    mkRefs (sessionPromiseRef r) (inputAudioContextRef r)
      (outputAudioContextRef r) (mediaStreamRef r) (scriptProcessorRef r) v
      (currentInputTranscriptionRef r) (currentOutputTranscriptionRef r)
      (nextStartTimeRef r) (audioSourcesRef r)).

Definition assign_currentInputTranscriptionRef (v : string) : App -> App :=
  with_refs (fun r =>
    mkRefs (sessionPromiseRef r) (inputAudioContextRef r)
      (outputAudioContextRef r) (mediaStreamRef r) (scriptProcessorRef r)
      (mediaStreamSourceRef r) v (currentOutputTranscriptionRef r)
      (nextStartTimeRef r) (audioSourcesRef r)).

Definition assign_currentOutputTranscriptionRef (v : string) : App -> App :=
  with_refs (fun r =>
    mkRefs (sessionPromiseRef r) (inputAudioContextRef r)
      (outputAudioContextRef r) (mediaStreamRef r) (scriptProcessorRef r)
      (mediaStreamSourceRef r) (currentInputTranscriptionRef r) v
      (nextStartTimeRef r) (audioSourcesRef r)).

Definition assign_nextStartTimeRef (v : Q) : App -> App :=
  with_refs (fun r =>
    mkRefs (sessionPromiseRef r) (inputAudioContextRef r)
      (outputAudioContextRef r) (mediaStreamRef r) (scriptProcessorRef r)
      (mediaStreamSourceRef r) (currentInputTranscriptionRef r)
      (currentOutputTranscriptionRef r) v (audioSourcesRef r)).

Definition assign_audioSourcesRef (v : list nat) : App -> App :=
  with_refs (fun r =>
    mkRefs (sessionPromiseRef r) (inputAudioContextRef r)
      (outputAudioContextRef r) (mediaStreamRef r) (scriptProcessorRef r)
      (mediaStreamSourceRef r) (currentInputTranscriptionRef r)
      (currentOutputTranscriptionRef r) (nextStartTimeRef r) v).

Definition world_contexts (v : list AudioContextState) : App -> App :=
  with_world (fun w =>
    mkWorld v (sources w) (stopped w) (ended w) (streams w) (nodes w) (sessions w)
      (micRequests w) (console w)).

Definition world_sources (v : list PlaybackSource) : App -> App :=
  with_world (fun w =>
    mkWorld (contexts w) v (stopped w) (ended w) (streams w) (nodes w) (sessions w)
      (micRequests w) (console w)).

Definition world_stopped (v : list nat) : App -> App :=
  with_world (fun w =>
    mkWorld (contexts w) (sources w) v (ended w) (streams w) (nodes w)
      (sessions w) (micRequests w) (console w)).

Definition world_ended (v : list nat) : App -> App :=
  with_world (fun w =>
    mkWorld (contexts w) (sources w) (stopped w) v (streams w) (nodes w)
      (sessions w) (micRequests w) (console w)).

Definition world_streams (v : list bool) : App -> App :=
  with_world (fun w =>
    mkWorld (contexts w) (sources w) (stopped w) (ended w) v (nodes w) (sessions w)
      (micRequests w) (console w)).

Definition world_nodes (v : list bool) : App -> App :=
  with_world (fun w =>
    mkWorld (contexts w) (sources w) (stopped w) (ended w) (streams w) v (sessions w)
      (micRequests w) (console w)).

Definition world_sessions (v : list LiveSession) : App -> App :=
  with_world (fun w =>
    mkWorld (contexts w) (sources w) (stopped w) (ended w) (streams w) (nodes w) v
      (micRequests w) (console w)).

Definition world_micRequests (v : nat) : App -> App :=
  with_world (fun w =>
    mkWorld (contexts w) (sources w) (stopped w) (ended w) (streams w) (nodes w) (sessions w)
      v (console w)).

(** [console.error(line)] *)
Definition console_error (line : string) : App -> App :=
  with_world (fun w =>
    mkWorld (contexts w) (sources w) (stopped w) (ended w) (streams w) (nodes w) (sessions w)
      (micRequests w) (console w ++ [line])).

(** [Set.prototype.add] and [Set.prototype.delete] on the set of sources. *)
Definition set_add (x : nat) (l : list nat) : list nat :=
  if existsb (Nat.eqb x) l then l else l ++ [x].

Definition set_delete (x : nat) (l : list nat) : list nat :=
  List.filter (fun y => negb (Nat.eqb x y)) l.

(** [session.close()] *)
Definition close_session (x : LiveSession) : LiveSession :=
  mkSession (sessMode x) (sessPromise x) true.

(** [audioContext.state]; a closed context is the only one [close()]
    rejects (InvalidStateError). *)
Definition context_state (c : nat) (w : World) : AudioContextState :=
  match contexts w !! c with
  | Some st => st
  | None => closed
  end.

Definition AudioContext_close (c : nat) (s : App) : Completion :=
  match context_state c (world s) with
  | closed => Threw s
  | running => Returned (world_contexts (<[c := closed]> (contexts (world s))) s)
  end.

(* ===================================================================== *)
(** * React: queueing and applying state updates *)
(* ===================================================================== *)

Definition run_updater (f : HistoryUpdater) (r : Refs)
    (prev : list TranscriptEntry) : list TranscriptEntry :=
  match f with
  | AppendUserEntry =>
      prev ++ [ {| speaker := user;
                   text := JS.trim (currentInputTranscriptionRef r) |} ]
  | AppendAiEntry =>
      prev ++ [ {| speaker := ai;
                   text := JS.trim (currentOutputTranscriptionRef r) |} ]
  end.

(** Applying one queued update to the pending state; the refs are those of
    the moment of application. *)
Definition apply_update (r : Refs) (st : UiState) (u : Update) : UiState :=
  match u with
  | SetMode m =>
      mkUi m (status st) (isRecording st) (transcriptHistory st)
        (currentUserTranscript st) (currentAiTranscript st) (summary st)
  | SetStatus v =>
      mkUi (mode st) v (isRecording st) (transcriptHistory st)
        (currentUserTranscript st) (currentAiTranscript st) (summary st)
  | SetIsRecording b =>
      mkUi (mode st) (status st) b (transcriptHistory st)
        (currentUserTranscript st) (currentAiTranscript st) (summary st)
  | SetCurrentUserTranscript t =>
      mkUi (mode st) (status st) (isRecording st) (transcriptHistory st)
        t (currentAiTranscript st) (summary st)
  | SetCurrentAiTranscript t =>
      mkUi (mode st) (status st) (isRecording st) (transcriptHistory st)
        (currentUserTranscript st) t (summary st)
  | SetSummary o =>
      mkUi (mode st) (status st) (isRecording st) (transcriptHistory st)
        (currentUserTranscript st) (currentAiTranscript st) o
  | SetTranscriptHistory f =>
      mkUi (mode st) (status st) (isRecording st)
        (run_updater f r (transcriptHistory st))
        (currentUserTranscript st) (currentAiTranscript st) (summary st)
  | TranscriptHistoryIs h =>
      mkUi (mode st) (status st) (isRecording st) h
        (currentUserTranscript st) (currentAiTranscript st) (summary st)
  end.

(** Rendering applies the queue in order and empties it. *)
Definition render (s : App) : App :=
  {| ui := fold_left (apply_update (refs s)) (pending s) (ui s);
     pending := [];
     refs := refs s;
     world := world s |}.

Definition enqueue (u : Update) (s : App) : App :=
  {| ui := ui s; pending := pending s ++ [u]; refs := refs s; world := world s |}.

(** Is the update the value the component already has ([Object.is])?  A
    freshly built array never is. *)
Definition same_state (u : Update) (st : UiState) : bool :=
  match u with
  | SetMode m => bool_decide (m = mode st)
  | SetStatus v => bool_decide (v = status st)
  | SetIsRecording b => Bool.eqb b (isRecording st)
  | SetCurrentUserTranscript t => bool_decide (t = currentUserTranscript st)
  | SetCurrentAiTranscript t => bool_decide (t = currentAiTranscript st)
  | SetSummary o => bool_decide (o = summary st)
  | SetTranscriptHistory _ => false
  | TranscriptHistoryIs _ => false
  end.

(** The update with its updater function run on the spot. *)
Definition computed (r : Refs) (st : UiState) (u : Update) : Update :=
  match u with
  | SetTranscriptHistory f => TranscriptHistoryIs (run_updater f r (transcriptHistory st))
  | _ => u
  end.

(** A call of a state setter.  When no update is queued for the component,
    React may compute the new state during the call (it runs the updater on
    the rendered state at once): it then drops an update that changes
    nothing and queues the computed state otherwise.  Whether it does is
    not for the component to know; the environment says ([eager]).  In
    every other case the update is queued as it is and run at the next
    render. *)
Definition dispatch (env : Env) (u : Update) (s : App) : App :=
  match pending s with
  | [] =>
      if eager env then
        if same_state u (ui s) then s
        else enqueue (computed (refs s) (ui s) u) s
      else enqueue u s
  | _ :: _ => enqueue u s
  end.

Definition setMode (env : Env) (m : AppMode) := dispatch env (SetMode m).
Definition setStatus (env : Env) (v : Status) := dispatch env (SetStatus v).
Definition setIsRecording (env : Env) (b : bool) := dispatch env (SetIsRecording b).
Definition setCurrentUserTranscript (env : Env) (t : string) :=
  dispatch env (SetCurrentUserTranscript t).
Definition setCurrentAiTranscript (env : Env) (t : string) :=
  dispatch env (SetCurrentAiTranscript t).
Definition setSummary (env : Env) (o : option string) := dispatch env (SetSummary o).
Definition setTranscriptHistory (env : Env) (f : HistoryUpdater) :=
  dispatch env (SetTranscriptHistory f).

(* ===================================================================== *)
(** * [stopSession] (lines 53-99) *)
(* ===================================================================== *)

(** Lines 57-65: the session is closed inside [try]/[catch]; a rejected
    promise is caught and logged. *)
Definition stop_closeSession (s : App) : App :=
  match sessionPromiseRef (refs s) with
  | Some p =>
      let s1 :=
        match sessions (world s) !! p with
        | Some x =>
            match sessPromise x with
            | fulfilled =>
                world_sessions (<[p := close_session x]> (sessions (world s))) s
            | rejected => console_error "Error closing session:" s
            end
        | None => s
        end in
      assign_sessionPromiseRef None s1
  | None => s
  end.

(** Lines 67-70. *)
Definition stop_releaseTracks (s : App) : App :=
  match mediaStreamRef (refs s) with
  | Some m =>
      assign_mediaStreamRef None
        (world_streams (<[m := false]> (streams (world s))) s)
  | None => s
  end.

(** Lines 72-75. *)
Definition stop_disconnectProcessor (s : App) : App :=
  match scriptProcessorRef (refs s) with
  | Some n =>
      assign_scriptProcessorRef None
        (world_nodes (<[n := false]> (nodes (world s))) s)
  | None => s
  end.

(** Lines 77-80. *)
Definition stop_disconnectSource (s : App) : App :=
  match mediaStreamSourceRef (refs s) with
  | Some n =>
      assign_mediaStreamSourceRef None
        (world_nodes (<[n := false]> (nodes (world s))) s)
  | None => s
  end.

(** Lines 82-85. *)
Definition stop_closeInput (s : App) : Completion :=
  match inputAudioContextRef (refs s) with
  | Some c =>
      match context_state c (world s) with
      | closed => Returned s
      | running =>
          run s1 <- AudioContext_close c s in
          Returned (assign_inputAudioContextRef None s1)
      end
  | None => Returned s
  end.

(** Line 88: [audioSourcesRef.current.forEach(source => source.stop())]. *)
Definition stop_all (ids : list nat) (s : App) : App :=
  world_stopped (stopped (world s) ++ ids) s.

(** Lines 87-92. *)
Definition stop_closeOutput (s : App) : Completion :=
  match outputAudioContextRef (refs s) with
  | Some c =>
      match context_state c (world s) with
      | closed => Returned s
      | running =>
          let s1 := stop_all (audioSourcesRef (refs s)) s in
          let s2 := assign_audioSourcesRef [] s1 in
          run s3 <- AudioContext_close c s2 in
          Returned (assign_outputAudioContextRef None s3)
      end
  | None => Returned s
  end.

(** Lines 94-97. *)
Definition stop_clearTranscripts (env : Env) (s : App) : App :=
  let s1 := setCurrentUserTranscript env EmptyString s in
  let s2 := setCurrentAiTranscript env EmptyString s1 in
  let s3 := assign_currentInputTranscriptionRef EmptyString s2 in
  assign_currentOutputTranscriptionRef EmptyString s3.

Definition stopSession (env : Env) (s : App) : Completion :=
  let s1 := setIsRecording env false s in
  let s2 := setStatus env idle s1 in
  let s3 := stop_closeSession s2 in
  let s4 := stop_releaseTracks s3 in
  let s5 := stop_disconnectProcessor s4 in
  let s6 := stop_disconnectSource s5 in
  run s7 <- stop_closeInput s6 in
  run s8 <- stop_closeOutput s7 in
  Returned (stop_clearTranscripts env s8).

(* ===================================================================== *)
(** * [startSession] (lines 101-220) and the callbacks of the session *)
(* ===================================================================== *)

(** [!process.env.API_KEY] *)
Definition key_missing (env : Env) : bool :=
  match API_KEY env with
  | Some k => negb (JS.truthy k)
  | None => true
  end.

(** Lines 113-213, the body of [try], once [getUserMedia] has resolved. *)
Definition start_open (env : Env) (s : App) : App :=
  let stream := length (streams (world s)) in
  let s1 := world_streams (streams (world s) ++ [true]) s in
  let s2 := assign_mediaStreamRef (Some stream) s1 in
  let input := length (contexts (world s2)) in
  let s3 := world_contexts (contexts (world s2) ++ [running]) s2 in
  let s4 := assign_inputAudioContextRef (Some input) s3 in
  let output := length (contexts (world s4)) in
  let s5 := world_contexts (contexts (world s4) ++ [running]) s4 in
  let s6 := assign_outputAudioContextRef (Some output) s5 in
  let s7 := assign_nextStartTimeRef 0%Q s6 in
  let session := length (sessions (world s7)) in
  let s8 :=
    world_sessions
      (sessions (world s7) ++
       [ {| sessMode := mode (ui s);
            sessPromise := if connectResolves env then fulfilled else rejected;
            sessClosed := false |} ]) s7 in
  assign_sessionPromiseRef (Some session) s8.

Definition startSession (env : Env) (s : App) : Completion :=
  if key_missing env then
    let s1 := console_error "API_KEY environment variable not set." s in
    Returned (setStatus env error s1)
  else
    let s1 := setIsRecording env true s in
    let s2 := setStatus env connecting s1 in
    let s3 := setSummary env None s2 in
    let s4 := world_micRequests (S (micRequests (world s3))) s3 in
    if micGranted env then Returned (start_open env s4)
    else
      (* catch, lines 215-219 *)
      let s5 := console_error "Failed to start session:" s4 in
      let s6 := setStatus env error s5 in
      Returned (setIsRecording env false s6).

(** [onopen], lines 125-142.  The two non-null assertions are not checks:
    with either ref empty the call throws. *)
Definition onopen (env : Env) (s : App) : Completion :=
  let s1 := setStatus env listening s in
  match inputAudioContextRef (refs s1), mediaStreamRef (refs s1) with
  | Some _, Some _ =>
      let source := length (nodes (world s1)) in
      let s2 := world_nodes (nodes (world s1) ++ [false]) s1 in
      let s3 := assign_mediaStreamSourceRef (Some source) s2 in
      let processor := length (nodes (world s3)) in
      let s4 := world_nodes (nodes (world s3) ++ [false]) s3 in
      let s5 := assign_scriptProcessorRef (Some processor) s4 in
      let s6 := world_nodes (<[source := true]> (nodes (world s5))) s5 in
      Returned (world_nodes (<[processor := true]> (nodes (world s6))) s6)
  | _, _ => Threw s1
  end.

(** Lines 144-148. *)
Definition message_input (env : Env) (message : LiveServerMessage) (s : App) : App :=
  match inputTranscription message with
  | Some t =>
      let s1 :=
        assign_currentInputTranscriptionRef
          (currentInputTranscriptionRef (refs s) ++ t) s in
      setCurrentUserTranscript env (currentInputTranscriptionRef (refs s1)) s1
  | None => s
  end.

(** Lines 149-156. *)
Definition message_output (mode : AppMode) (env : Env)
    (message : LiveServerMessage) (s : App) : App :=
  match outputTranscription message with
  | Some t =>
      let s1 :=
        match mode with
        | conversation => setStatus env speaking s
        | transcription => s
        end in
      let s2 :=
        assign_currentOutputTranscriptionRef
          (currentOutputTranscriptionRef (refs s1) ++ t) s1 in
      setCurrentAiTranscript env (currentOutputTranscriptionRef (refs s2)) s2
  | None => s
  end.

(** Lines 161-177, with the payload, the output context and the mode checked. *)
Definition schedule (env : Env) (data : string) (audioContext : nat) (s : App)
    : Completion :=
  let s1 :=
    assign_nextStartTimeRef
      (Qmax (nextStartTimeRef (refs s)) (currentTime env)) s in
  match Codec.decodeInbound data 24000 1 with
  | None => Threw s1
  | Some audioBuffer =>
      let source := length (sources (world s1)) in
      let s2 :=
        world_sources
          (sources (world s1) ++
           [ {| srcContext := audioContext;
                srcStart := nextStartTimeRef (refs s1);
                srcDuration := Codec.duration audioBuffer |} ]) s1 in
      let s3 :=
        assign_nextStartTimeRef
          (nextStartTimeRef (refs s2) + Codec.duration audioBuffer)%Q s2 in
      Returned (assign_audioSourcesRef (set_add source (audioSourcesRef (refs s3))) s3)
  end.

(** Lines 158-178. *)
Definition message_audio (mode : AppMode) (env : Env)
    (message : LiveServerMessage) (s : App) : Completion :=
  match modelTurnPart message with
  | NoPart => Returned s
  | PartWithoutInlineData => Threw s
  | InlineData data =>
      match JS.truthy data, outputAudioContextRef (refs s), mode with
      | true, Some audioContext, conversation => schedule env data audioContext s
      | _, _, _ => Returned s
      end
  end.

(** Lines 180-191. *)
Definition message_turnComplete (mode : AppMode) (env : Env)
    (message : LiveServerMessage) (s : App) : App :=
  if turnComplete message then
    let s1 :=
      if JS.truthy (JS.trim (currentInputTranscriptionRef (refs s)))
      then setTranscriptHistory env AppendUserEntry s
      else s in
    let s2 :=
      if JS.truthy (JS.trim (currentOutputTranscriptionRef (refs s1)))
         && bool_decide (mode = conversation)
      then setTranscriptHistory env AppendAiEntry s1
      else s1 in
    let s3 := assign_currentInputTranscriptionRef EmptyString s2 in
    let s4 := assign_currentOutputTranscriptionRef EmptyString s3 in
    let s5 := setCurrentUserTranscript env EmptyString s4 in
    setCurrentAiTranscript env EmptyString s5
  else s.

(** [onmessage], lines 143-192; [mode] is the one the callback closes over. *)
Definition onmessage (mode : AppMode) (env : Env) (message : LiveServerMessage)
    (s : App) : Completion :=
  let s1 := message_input env message s in
  let s2 := message_output mode env message s1 in
  run s3 <- message_audio mode env message s2 in
  Returned (message_turnComplete mode env message s3).

(** The listener of [ended], lines 168-173. *)
Definition onended (env : Env) (source : nat) (s : App) : App :=
  let s1 := assign_audioSourcesRef (set_delete source (audioSourcesRef (refs s))) s in
  if Nat.eqb (length (audioSourcesRef (refs s1))) 0
  then setStatus env listening s1
  else s1.

(** [onerror], lines 193-197. *)
Definition onerror (env : Env) (s : App) : Completion :=
  let s1 := console_error "Session error:" s in
  let s2 := setStatus env error s1 in
  stopSession env s2.

(** [onclose], lines 198-200. *)
Definition onclose (env : Env) (s : App) : Completion :=
  stopSession env s.

(* ===================================================================== *)
(** * Controls *)
(* ===================================================================== *)

(** [handleToggleConversation], lines 295-301; [isRecording] is the
    rendered one. *)
Definition handleToggleConversation (env : Env) (s : App) : Completion :=
  if isRecording (ui s) then stopSession env s else startSession env s.

(** The [onClick] of the two mode buttons, lines 350 and 357. *)
Definition onClickMode (env : Env) (m : AppMode) (s : App) : App :=
  if negb (isRecording (ui s)) then setMode env m s else s.

(** The condition under which the Summarize button is shown, line 335. *)
Definition summarizeShown (st : UiState) : bool :=
  Nat.ltb 0 (length (transcriptHistory st))
  && negb (isRecording st)
  && bool_decide (mode st = conversation).

(* ===================================================================== *)
(** * The component as a transition system *)
(* ===================================================================== *)

Inductive Event :=
  | Render
  | ClickToggle
  | ClickMode (m : AppMode)
  | SessionOpen (session : nat)
  | SessionMessage (session : nat) (message : LiveServerMessage)
  | SessionError (session : nat)
  | SessionClose (session : nat)
  | SourceEnded (source : nat)
  | Unmount.

(** A callback of a session runs only for a session that was opened; the
    [ended] event of a source is delivered once; the clean-up of the effect
    (lines 303-307) calls [stopSession]. *)
Definition step (env : Env) (e : Event) (s : App) : App :=
  match e with
  | Render => render s
  | ClickToggle => state_of (handleToggleConversation env s)
  | ClickMode m => onClickMode env m s
  | SessionOpen i =>
      match sessions (world s) !! i with
      | Some _ => state_of (onopen env s)
      | None => s
      end
  | SessionMessage i message =>
      match sessions (world s) !! i with
      | Some x => state_of (onmessage (sessMode x) env message s)
      | None => s
      end
  | SessionError i =>
      match sessions (world s) !! i with
      | Some _ => state_of (onerror env s)
      | None => s
      end
  | SessionClose i =>
      match sessions (world s) !! i with
      | Some _ => state_of (onclose env s)
      | None => s
      end
  | SourceEnded i =>
      match sources (world s) !! i with
      | Some _ =>
          if existsb (Nat.eqb i) (ended (world s)) then s
          else onended env i (world_ended (ended (world s) ++ [i]) s)
      | None => s
      end
  | Unmount => state_of (stopSession env s)
  end.

Fixpoint exec (tr : list (Env * Event)) (s : App) : App :=
  match tr with
  | [] => s
  | (env, e) :: tr' => exec tr' (step env e s)
  end.

Definition reachable (s : App) : Prop := exists tr, s = exec tr initial.

(** The transcript history the next render shows. *)
Definition shown (s : App) : list TranscriptEntry :=
  transcriptHistory (ui (render s)).

(** The state the queued updates lead to, were they applied with the refs
    [r]; [render] takes the refs of its moment. *)
Definition next_ui (r : Refs) (s : App) : UiState :=
  fold_left (apply_update r) (pending s) (ui s).

Definition history_update (u : Update) : bool :=
  match u with
  | SetTranscriptHistory _ => true
  | TranscriptHistoryIs _ => true
  | _ => false
  end.

(** ** Finalized turns, in the words of the specification

    "Finalize non-empty inbound/outbound buffers into TranscriptEntry
    records appended to history (outbound only in conversation mode)", each
    entry "equal to the concatenation of that turn's fragments, trimmed of
    surrounding whitespace; empty-after-trim buffers produce no entry". *)
Definition finalized (m : AppMode) (inbound outbound : string)
    : list TranscriptEntry :=
  (if JS.truthy (JS.trim inbound)
   then [ {| speaker := user; text := JS.trim inbound |} ] else [])
  ++
  (if JS.truthy (JS.trim outbound) && bool_decide (m = conversation)
   then [ {| speaker := ai; text := JS.trim outbound |} ] else []).

(** The entry with its text lost. *)
Definition blank (e : TranscriptEntry) : TranscriptEntry :=
  {| speaker := speaker e; text := EmptyString |}.

(** What becomes of the entries of a turn when the turn is finalized with
    nothing queued before: the first keeps its text if React runs the first
    updater at once, every other one is rendered with the refs cleared. *)
Definition as_rendered (at_once : bool) (l : list TranscriptEntry)
    : list TranscriptEntry :=
  match l with
  | [] => []
  | e :: rest => (if at_once then e else blank e) :: map blank rest
  end.

(** The speakers one turn may add: the user first, then the assistant. *)
Definition turn_speakers (u a : bool) : list Speaker :=
  (if u then [user] else []) ++ (if a then [ai] else []).

(** ** Playback schedule *)

Definition source_end (src : PlaybackSource) : Q :=
  (srcStart src + srcDuration src)%Q.

(** The sources scheduled on one output context, in the order of their
    [start] calls.  Every session has an output context of its own, made by
    the [startSession] that opened it. *)
Definition session_sources (c : nat) (w : World) : list PlaybackSource :=
  List.filter (fun src => Nat.eqb (srcContext src) c) (sources w).

Definition sequenced (l : list PlaybackSource) : Prop :=
  forall (n : nat) (a b : PlaybackSource),
    l !! n = Some a -> l !! S n = Some b -> (source_end a <= srcStart b)%Q.

(** ** What holds of every state the component reaches *)

Record consistent (s : App) : Prop := mkConsistent {
  input_running :
    forall c, inputAudioContextRef (refs s) = Some c ->
              contexts (world s) !! c = Some running;
  output_running :
    forall c, outputAudioContextRef (refs s) = Some c ->
              contexts (world s) !! c = Some running;
  contexts_apart :
    forall ci co, inputAudioContextRef (refs s) = Some ci ->
                  outputAudioContextRef (refs s) = Some co -> ci <> co;
  contexts_paired :
    inputAudioContextRef (refs s) = None <->
    outputAudioContextRef (refs s) = None;
  sources_need_output :
    outputAudioContextRef (refs s) = None -> audioSourcesRef (refs s) = [];
  sources_on_contexts :
    Forall (fun src => srcContext src < length (contexts (world s)))
           (sources (world s));
  cursor_ahead :
    forall c, outputAudioContextRef (refs s) = Some c ->
      Forall (fun src => srcContext src = c ->
                         (source_end src <= nextStartTimeRef (refs s))%Q)
             (sources (world s));
  sources_in_sequence :
    forall c, sequenced (session_sources c (world s))
}.

(** ** Views of the state used in the statements below *)

(** What playback and the transcripts are made of: all of the state but the
    session, the microphone stream and the capture graph. *)
Definition audio_view (s : App) :=
  (ui s, pending s,
   (inputAudioContextRef (refs s), outputAudioContextRef (refs s),
    audioSourcesRef (refs s), nextStartTimeRef (refs s)),
   (currentInputTranscriptionRef (refs s),
    currentOutputTranscriptionRef (refs s)),
   (contexts (world s), sources (world s), stopped (world s), ended (world s))).

(** What the playback schedule is made of. *)
Definition playback_view (s : App) :=
  (inputAudioContextRef (refs s), outputAudioContextRef (refs s),
   audioSourcesRef (refs s), nextStartTimeRef (refs s),
   contexts (world s), sources (world s)).

(** The rendered state that the four setter calls of [stopSession] lead to. *)
Definition after_stop (st : UiState) : UiState :=
  mkUi (mode st) idle false (transcriptHistory st) EmptyString EmptyString (summary st).

(** A state in which [stopSession] finds nothing left to release. *)
Definition torn_down (s : App) : Prop :=
  sessionPromiseRef (refs s) = None /\
  mediaStreamRef (refs s) = None /\
  scriptProcessorRef (refs s) = None /\
  mediaStreamSourceRef (refs s) = None /\
  (forall c, inputAudioContextRef (refs s) = Some c ->
             context_state c (world s) = closed) /\
  (forall c, outputAudioContextRef (refs s) = Some c ->
             context_state c (world s) = closed) /\
  currentInputTranscriptionRef (refs s) = EmptyString /\
  currentOutputTranscriptionRef (refs s) = EmptyString.

(** ** The setter calls of a handler *)

(** [dispatches us s s']: between [s] and [s'] the state setters were called
    with the updates [us], in this order, and the queue was not touched
    otherwise; refs and platform objects may differ in any way. *)
Inductive dispatches : list Update -> App -> App -> Prop :=
  | dispatches_nil (s s' : App) :
      ui s' = ui s -> pending s' = pending s -> dispatches [] s s'
  | dispatches_snoc (us : list Update) (u : Update) (env : Env) (s s1 s' : App) :
      dispatches us s s1 ->
      ui s' = ui (dispatch env u s1) ->
      pending s' = pending (dispatch env u s1) ->
      dispatches (us ++ [u]) s s'.

(** What an event is to add to the history, in the words of the
    specification: a message that signals turn completion adds the
    finalized buffers, as they are when the handler reaches that branch;
    no other event adds anything. *)
Definition turn_added (env : Env) (e : Event) (s : App) : list TranscriptEntry :=
  match e with
  | SessionMessage i m =>
      match sessions (world s) !! i with
      | Some x =>
          match message_audio (sessMode x) env m
                  (message_output (sessMode x) env m (message_input env m s)) with
          | Returned s3 =>
              if turnComplete m
              then finalized (sessMode x)
                     (currentInputTranscriptionRef (refs s3))
                     (currentOutputTranscriptionRef (refs s3))
              else []
          | Threw _ => []
          end
      | None => []
      end
  | _ => []
  end.

(** The entries a run is to add, turn after turn. *)
Fixpoint run_added (tr : list (Env * Event)) (s : App) : list TranscriptEntry :=
  match tr with
  | [] => []
  | (env, e) :: tr' => turn_added env e s ++ run_added tr' (step env e s)
  end.

(** The speaker of the entry an update appends to the history. *)
Definition appends (u : Update) : list Speaker :=
  match u with
  | SetTranscriptHistory AppendUserEntry => [user]
  | SetTranscriptHistory AppendAiEntry => [ai]
  | _ => []
  end.

(** The updates of the session handlers: they set neither the mode nor a
    whole history. *)
Definition session_update (u : Update) : Prop :=
  match u with
  | SetMode _ => False
  | TranscriptHistoryIs _ => False
  | _ => True
  end.

(** An update that a handler passes to a setter: a value or an updater,
    never a history already computed. *)
Definition handler_update (u : Update) : Prop :=
  match u with
  | TranscriptHistoryIs _ => False
  | _ => True
  end.

(** A history computed at once is found only at the head of the queue,
    where it extends the rendered history by one entry. *)
Definition queue_ok (s : App) : Prop :=
  match pending s with
  | [] => True
  | u :: q =>
      Forall handler_update q /\
      match u with
      | TranscriptHistoryIs h =>
          exists e, h = transcriptHistory (ui s) ++ [e]
      | _ => True
      end
  end.

(** The speakers of the history the next render shows. *)
Definition shown_speakers (s : App) : list Speaker := map speaker (shown s).

(* ===================================================================== *)
(** * Scenarios *)
(* ===================================================================== *)

(** A browser with the credential set, the microphone granted and the
    service reachable; [b] is React's choice of path. *)
Definition browser (b : bool) : Env :=
  {| API_KEY := Some "key"; micGranted := true; connectResolves := true;
     currentTime := 0%Q; eager := b |}.

(** The same without the credential. *)
Definition browser_without_key (b : bool) : Env :=
  {| API_KEY := None; micGranted := true; connectResolves := true;
     currentTime := 0%Q; eager := b |}.

Definition heard (t : string) : LiveServerMessage :=
  {| inputTranscription := Some t; outputTranscription := None;
     modelTurnPart := NoPart; turnComplete := false |}.

Definition said (t : string) : LiveServerMessage :=
  {| inputTranscription := None; outputTranscription := Some t;
     modelTurnPart := NoPart; turnComplete := false |}.

Definition audio (data : string) : LiveServerMessage :=
  {| inputTranscription := None; outputTranscription := None;
     modelTurnPart := InlineData data; turnComplete := false |}.

Definition turn_done : LiveServerMessage :=
  {| inputTranscription := None; outputTranscription := None;
     modelTurnPart := NoPart; turnComplete := true |}.

Definition events (b : bool) (es : list Event) : list (Env * Event) :=
  map (fun e => (browser b, e)) es.

(** A session is started and opened. *)
Definition session_opened : list Event :=
  [ClickToggle; Render; SessionOpen 0; Render].

(** One turn of a conversation: the user is heard, the assistant answers,
    the turn completes; every message is rendered before the next. *)
Definition one_turn : list Event :=
  session_opened ++
  [SessionMessage 0 (heard "salam"); Render;
   SessionMessage 0 (said "walaikum"); Render;
   SessionMessage 0 turn_done; Render].

(** Two chunks of synthesized audio (two samples of silence each) arrive. *)
Definition two_sources : list Event :=
  session_opened ++
  [SessionMessage 0 (audio "AAAAAA=="); SessionMessage 0 (audio "AAAAAA==");
   Render].

(** The session is stopped while the two sources are scheduled; their
    [ended] events follow. *)
Definition stopped_while_playing : list Event :=
  two_sources ++ [ClickToggle; Render; SourceEnded 0; SourceEnded 1; Render].

(* ===================================================================== *)
(** * The live transcripts and the buffers *)
(* ===================================================================== *)

(** A rendered state but for its history: what no updater function
    touches. *)
Definition beside_history (st : UiState) :=
  (mode st, status st, isRecording st,
   currentUserTranscript st, currentAiTranscript st, summary st).

(** The two live transcripts of a rendered state (lines 29-30, shown at
    lines 415-416). *)
Definition live (st : UiState) : string * string :=
  (currentUserTranscript st, currentAiTranscript st).

(** The two buffers behind them (lines 47-48). *)
Definition buffers (r : Refs) : string * string :=
  (currentInputTranscriptionRef r, currentOutputTranscriptionRef r).

(** The fragments a run of messages carries, in the order of arrival. *)
Definition fragments (field : LiveServerMessage -> option string)
    (ms : list (Env * LiveServerMessage)) : string :=
  fold_right
    (fun em acc =>
       match field (snd em) with
       | Some t => (t ++ acc)%string
       | None => acc
       end) EmptyString ms.

(** The messages of a run, delivered to the callbacks of session [i]. *)
Definition delivered (i : nat) (ms : list (Env * LiveServerMessage))
    : list (Env * Event) :=
  map (fun em => (fst em, SessionMessage i (snd em))) ms.

(* ===================================================================== *)
(** * The resources of a session *)
(* ===================================================================== *)

(** What a recording holds: the microphone stream, the capture graph, the
    two audio contexts and the session, each with the ref that leads to
    it, and the count of microphone requests. *)
Definition resources_view (s : App) :=
  ((sessionPromiseRef (refs s), mediaStreamRef (refs s),
    scriptProcessorRef (refs s), mediaStreamSourceRef (refs s),
    inputAudioContextRef (refs s), outputAudioContextRef (refs s)),
   (sessions (world s), streams (world s), nodes (world s),
    contexts (world s), micRequests (world s))).

(** Every platform object that is live is held by the ref through which
    [stopSession] releases it: a stream with live tracks, a connected node
    of the capture graph, a running audio context, a session that was
    connected and is not closed. *)
Record leak_free (s : App) : Prop := mkLeakFree {
  streams_held :
    forall m, streams (world s) !! m = Some true ->
              mediaStreamRef (refs s) = Some m;
  nodes_held :
    forall n, nodes (world s) !! n = Some true ->
              scriptProcessorRef (refs s) = Some n \/
              mediaStreamSourceRef (refs s) = Some n;
  contexts_held :
    forall c, contexts (world s) !! c = Some running ->
              inputAudioContextRef (refs s) = Some c \/
              outputAudioContextRef (refs s) = Some c;
  sessions_held :
    forall i x, sessions (world s) !! i = Some x ->
                sessPromise x = fulfilled -> sessClosed x = false ->
                sessionPromiseRef (refs s) = Some i
}.

(** No platform object is live. *)
Definition nothing_live (w : World) : Prop :=
  (forall m, streams w !! m <> Some true) /\
  (forall n, nodes w !! n <> Some true) /\
  (forall c, contexts w !! c <> Some running) /\
  (forall i x, sessions w !! i = Some x ->
               sessPromise x = fulfilled -> sessClosed x = true).

(** The six refs to platform objects are empty. *)
Definition released (r : Refs) : Prop :=
  sessionPromiseRef r = None /\
  mediaStreamRef r = None /\
  scriptProcessorRef r = None /\
  mediaStreamSourceRef r = None /\
  inputAudioContextRef r = None /\
  outputAudioContextRef r = None.

(** ** The order in which the platform delivers events

    Two facts about the platform that the component relies on and cannot
    check.  React renders the state updates of a click before the next
    click is handled, so the handler of the start button sees the
    [isRecording] it has set.  And a WebSocket opens once, before anything
    else happens to it: [onopen] comes for the session the ref holds, while
    there is no capture graph yet. *)
Definition admissible (e : Event) (s : App) : bool :=
  match e with
  | ClickToggle =>
      match pending s with
      | [] => true
      | _ :: _ => false
      end
  | SessionOpen i =>
      bool_decide (sessionPromiseRef (refs s) = Some i)
      && bool_decide (scriptProcessorRef (refs s) = None)
  | _ => true
  end.

Fixpoint admissible_run (tr : list (Env * Event)) (s : App) : bool :=
  match tr with
  | [] => true
  | (env, e) :: tr' => admissible e s && admissible_run tr' (step env e s)
  end.

(** What the component keeps along the runs the platform can produce. *)
Record orderly (s : App) : Prop := mkOrderly {
  orderly_leak_free : leak_free s;
  orderly_consistent : consistent s;
  orderly_idle :
    isRecording (ui (render s)) = false -> released (refs s);
  orderly_graph :
    scriptProcessorRef (refs s) = None -> mediaStreamSourceRef (refs s) = None
}.

(** What has been asked of the platform so far: the requests for the
    microphone, and how many streams, audio contexts and sessions were
    created. *)
Definition acquired (s : App) :=
  (micRequests (world s), length (streams (world s)),
   length (contexts (world s)), length (sessions (world s))).

(* ===================================================================== *)
(** * The active set *)
(* ===================================================================== *)

(** The set of active sources, the sources started and the [ended] events
    delivered. *)
Definition schedule_view (s : App) :=
  (audioSourcesRef (refs s), sources (world s), ended (world s)).

(** The active set lists, once each, sources that were started and whose
    [ended] event has not been delivered. *)
Record set_in_order (s : App) : Prop := mkSetInOrder {
  set_nodup : NoDup (audioSourcesRef (refs s));
  set_started :
    Forall (fun i => i < length (sources (world s))) (audioSourcesRef (refs s));
  set_not_ended :
    Forall (fun i => ~ In i (ended (world s))) (audioSourcesRef (refs s));
  ended_started :
    Forall (fun i => i < length (sources (world s))) (ended (world s))
}.

(** The [ended] events of the sources [l], each with the environment it is
    delivered in. *)
Definition ended_events (l : list (Env * nat)) : list (Env * Event) :=
  map (fun ei => (fst ei, SourceEnded (snd ei))) l.

(* ===================================================================== *)
(** * The rest of the component: status line, file transcription, summary *)
(* ===================================================================== *)

(** ** More of JavaScript's strings *)

Module JSString.

(** [s.split(sep)] for a separator of one character: the pieces between
    the separators, at least one. *)
Fixpoint split (sep : ascii) (s : string) : list string :=
  match s with
  | EmptyString => [EmptyString]
  | String c s' =>
      if Ascii.eqb c sep then EmptyString :: split sep s'
      else
        match split sep s' with
        | [] => [String c EmptyString]
        | piece :: pieces => String c piece :: pieces
        end
  end.

(** [l.join(sep)] *)
Fixpoint join (sep : string) (l : list string) : string :=
  match l with
  | [] => EmptyString
  | [x] => x
  | x :: rest => (x ++ sep ++ join sep rest)%string
  end.

(** Does the character occur in the string? *)
Fixpoint occurs (c : ascii) (s : string) : bool :=
  match s with
  | EmptyString => false
  | String c' s' => Ascii.eqb c' c || occurs c s'
  end.

(** [text || fallback], for a text that may be [undefined]. *)
Definition or_else (text : option string) (fallback : string) : string :=
  match text with
  | Some t => if JS.truthy t then t else fallback
  | None => fallback
  end.

Definition comma : ascii := ","%char.
Definition LF : ascii := Ascii.ascii_of_nat 10.

End JSString.

(** ** The status line, lines 309-319 *)

Definition getStatusText (st : UiState) : string :=
  match status st with
  | idle =>
      match mode st with
      | conversation => "Press start to begin conversation"
      | transcription => "Record or upload to transcribe"
      end
  | connecting => "Connecting to Kashmiri AI..."
  | listening =>
      match mode st with
      | conversation => "Listening... (Speak now)"
      | transcription => "Recording for transcription..."
      end
  | speaking => "AI is responding in Kashmiri..."
  | processing => "Transcribing audio file..."
  | error => "Connection error. Please restart."
  end.

(** ** The state beside the session controller, lines 33-38 *)

Record Panel := mkPanel {
  fileTranscription : option string;
  isProcessingFile : bool;
  isSummarizing : bool
}.

Inductive PanelUpdate :=
  | SetFileTranscription (o : option string)
  | SetIsProcessingFile (b : bool)
  | SetIsSummarizing (b : bool).

(** The file the user picked: the handler reads its type only. *)
Record File := mkFile { fileType : string }.

(** The argument of [ai.models.generateContent]. *)
Inductive Contents :=
  | AudioAndText (mimeType : string) (data : option string) (text : string)
  | Text (prompt : string).

Record Request := mkRequest {
  reqModel : string;
  reqContents : Contents;
  reqSettled : bool            (* has its promise settled? *)
}.

(** What a request comes to: a response, whose [text] may be [undefined],
    or a rejection. *)
Inductive Outcome :=
  | Resolved (text : option string)
  | Rejected.

(** The component as a whole: the session controller, the three state
    hooks beside it with the updates queued for them, and what it has asked
    of the platform beside the session: file reads ([readAsDataURL], with
    whether [onload] has fired), requests, clipboard writes, and the frames
    sent to a session. *)
Record Page := mkPage {
  core : App;
  panel : Panel;
  panelPending : list PanelUpdate;
  reads : list (File * bool);
  requests : list Request;
  clipboard : list string;
  sent : list (nat * Codec.PcmBlob)
}.

Definition initialPanel : Panel :=
  {| fileTranscription := None; isProcessingFile := false; isSummarizing := false |}.

Definition initialPage : Page :=
  {| core := initial; panel := initialPanel; panelPending := [];
     reads := []; requests := []; clipboard := []; sent := [] |}.

(** A handler that settles or rejects; the state it has reached stays. *)
Inductive PageCompletion :=
  | Settled (p : Page)
  | Unhandled (p : Page).

Definition page_of (c : PageCompletion) : Page :=
  match c with
  | Settled p => p
  | Unhandled p => p
  end.

Definition on_core (f : App -> App) (p : Page) : Page :=
  mkPage (f (core p)) (panel p) (panelPending p) (reads p) (requests p)
    (clipboard p) (sent p).

Definition with_reads (v : list (File * bool)) (p : Page) : Page :=
  mkPage (core p) (panel p) (panelPending p) v (requests p) (clipboard p) (sent p).

Definition with_requests (v : list Request) (p : Page) : Page :=
  mkPage (core p) (panel p) (panelPending p) (reads p) v (clipboard p) (sent p).

Definition with_clipboard (v : list string) (p : Page) : Page :=
  mkPage (core p) (panel p) (panelPending p) (reads p) (requests p) v (sent p).

Definition with_sent (v : list (nat * Codec.PcmBlob)) (p : Page) : Page :=
  mkPage (core p) (panel p) (panelPending p) (reads p) (requests p) (clipboard p) v.

(** The setter of a hook beside the controller queues its value, which the
    next render shows (for a plain value React's eager path makes no
    difference to what is rendered). *)
Definition panel_dispatch (u : PanelUpdate) (p : Page) : Page :=
  mkPage (core p) (panel p) (panelPending p ++ [u]) (reads p) (requests p)
    (clipboard p) (sent p).

Definition setFileTranscription (o : option string) :=
  panel_dispatch (SetFileTranscription o).
Definition setIsProcessingFile (b : bool) := panel_dispatch (SetIsProcessingFile b).
Definition setIsSummarizing (b : bool) := panel_dispatch (SetIsSummarizing b).

Definition panel_apply (st : Panel) (u : PanelUpdate) : Panel :=
  match u with
  | SetFileTranscription o => mkPanel o (isProcessingFile st) (isSummarizing st)
  | SetIsProcessingFile b => mkPanel (fileTranscription st) b (isSummarizing st)
  | SetIsSummarizing b => mkPanel (fileTranscription st) (isProcessingFile st) b
  end.

(** The panel of the next render. *)
Definition next_panel (p : Page) : Panel :=
  fold_left panel_apply (panelPending p) (panel p).

Definition page_render (p : Page) : Page :=
  mkPage (render (core p)) (next_panel p) [] (reads p) (requests p)
    (clipboard p) (sent p).

(** ** [handleFileUpload], lines 222-263

    The body is synchronous: [readAsDataURL] starts the read and returns,
    and [finally] runs before the handler does.  [readable] tells whether
    the three statements of [try] return (they do on the platform; the
    [catch] is there all the same). *)
Definition transcribePrompt : string :=
  "Please transcribe this audio file into Kashmiri text (Koshur). Use Kashmiri script (Perso-Arabic) for the final output. If the speech is clear, provide a verbatim transcription.".

Definition handleFileUpload (env : Env) (file : option File) (readable : bool)
    (p : Page) : Page :=
  match file with
  | None => p
  | Some f =>
      let p1 := setIsProcessingFile true p in
      let p2 := setFileTranscription None p1 in
      let p3 := on_core (setStatus env processing) p2 in
      let p4 :=
        if readable then with_reads (reads p3 ++ [(f, false)]) p3
        else
          on_core (setStatus env error)
            (on_core (console_error "Transcription error:") p3) in
      setIsProcessingFile false p4
  end.

(** [reader.onload] up to its [await], lines 232-251: the payload is cut
    out of the data URL and the request is made.  [constructs] tells
    whether [new GoogleGenAI] returns; the callback is outside every [try],
    so a throw here is a rejection nobody handles. *)
Definition reader_onload (constructs : bool) (f : File) (result : string)
    (p : Page) : PageCompletion :=
  let base64Data := JSString.split JSString.comma result !! 1 in
  if constructs then
    Settled
      (with_requests
         (requests p ++
          [ {| reqModel := "gemini-3-flash-preview";
               reqContents := AudioAndText (fileType f) base64Data transcribePrompt;
               reqSettled := false |} ]) p)
  else Unhandled p.

(** [reader.onload] after its [await], lines 253-254. *)
Definition transcription_settled (env : Env) (o : Outcome) (p : Page)
    : PageCompletion :=
  match o with
  | Resolved text =>
      let p1 :=
        setFileTranscription
          (Some (JSString.or_else text "No transcription available.")) p in
      Settled (on_core (setStatus env idle) p1)
  | Rejected => Unhandled p
  end.

(** ** [generateSummary], lines 265-288 *)

(** Line 271. *)
Definition transcriptLine (t : TranscriptEntry) : string :=
  ((match speaker t with user => "User" | ai => "AI" end) ++ ": " ++ text t)%string.

Definition fullTranscript (history : list TranscriptEntry) : string :=
  JSString.join (String JSString.LF EmptyString) (map transcriptLine history).

(** Lines 275-278, a template over four lines. *)
Definition summaryPrompt (transcript : string) : string :=
  ("Please provide a concise summary of the following conversation in the Kashmiri language (Koshur). Focus on the main topics discussed. Use Kashmiri script (Perso-Arabic) if possible, or clear Roman Kashmiri if not. "
   ++ String JSString.LF "        "
   ++ String JSString.LF "        Conversation:"
   ++ String JSString.LF "        "
   ++ transcript)%string.

(** Lines 282-287: [catch] and [finally]. *)
Definition summary_failed (env : Env) (p : Page) : Page :=
  let p1 := on_core (console_error "Failed to generate summary:") p in
  let p2 := on_core (setSummary env (Some "Error generating summary.")) p1 in
  setIsSummarizing false p2.

(** Up to the [await]; the history is the rendered one, which the handler
    closes over. *)
Definition generateSummary (env : Env) (constructs : bool) (p : Page) : Page :=
  if Nat.eqb (length (transcriptHistory (ui (core p)))) 0 then p
  else
    let p1 := setIsSummarizing true p in
    if constructs then
      with_requests
        (requests p1 ++
         [ {| reqModel := "gemini-3-flash-preview";
              reqContents :=
                Text (summaryPrompt (fullTranscript (transcriptHistory (ui (core p)))));
              reqSettled := false |} ]) p1
    else summary_failed env p1.

(** After the [await], lines 281-287. *)
Definition summary_settled (env : Env) (o : Outcome) (p : Page) : Page :=
  match o with
  | Resolved text =>
      let p1 :=
        on_core (setSummary env (Some (JSString.or_else text "Summary unavailable."))) p in
      setIsSummarizing false p1
  | Rejected => summary_failed env p
  end.

(** ** The other handlers *)

(** [copyToClipboard], lines 290-293. *)
Definition copyToClipboard (text : string) (p : Page) : Page :=
  with_clipboard (clipboard p ++ [text]) p.

(** [onaudioprocess], lines 130-138: the captured samples are packed and
    sent to the session of the ref, through its promise; a promise that was
    rejected never calls back. *)
Definition onaudioprocess (inputData : list Q) (p : Page) : Page :=
  let pcmBlob := Codec.encodeOutbound inputData in
  match sessionPromiseRef (refs (core p)) with
  | Some i =>
      match sessions (world (core p)) !! i with
      | Some x =>
          match sessPromise x with
          | fulfilled => with_sent (sent p ++ [(i, pcmBlob)]) p
          | rejected => p
          end
      | None => p
      end
  | None => p
  end.

(** ** What is rendered, lines 321-468 *)

Definition shows (o : option string) : bool :=
  match o with
  | Some t => JS.truthy t
  | None => false
  end.

(** Line 338. *)
Definition summarizeDisabled (pn : Panel) : bool := isSummarizing pn.

(** Line 367. *)
Definition summaryShown (st : UiState) : bool := shows (summary st).

(** Line 380. *)
Definition fileTranscriptionShown (st : UiState) (pn : Panel) : bool :=
  bool_decide (mode st = transcription) && shows (fileTranscription pn).

(** Line 429. *)
Definition uploadDisabled (pn : Panel) : bool := isProcessingFile pn.

(** Line 443. *)
Definition toggleDisabled (st : UiState) (pn : Panel) : bool :=
  bool_decide (status st = connecting) || isProcessingFile pn.

(** ** The component as a transition system *)

Inductive PageEvent :=
  | Session (e : Event)
  | ChooseFile (file : option File) (readable : bool)
  | ReaderLoad (read : nat) (result : string) (constructs : bool)
  | RequestSettles (request : nat) (o : Outcome)
  | ClickSummarize (constructs : bool)
  | ClickCloseSummary
  | ClickCopy
  | AudioProcess (inputData : list Q).

(** An event of the session controller; the start/stop button does nothing
    while it is disabled, and a render renders the panel too. *)
Definition session_step (env : Env) (e : Event) (p : Page) : Page :=
  match e with
  | Render => page_render p
  | ClickToggle =>
      if toggleDisabled (ui (core p)) (panel p) then p
      else on_core (step env ClickToggle) p
  | _ => on_core (step env e) p
  end.

(** The settling of a request resumes the handler that awaits it. *)
Definition request_step (env : Env) (k : nat) (o : Outcome) (p : Page) : Page :=
  match requests p !! k with
  | Some r =>
      if reqSettled r then p
      else
        let p1 :=
          with_requests
            (<[k := mkRequest (reqModel r) (reqContents r) true]> (requests p)) p in
        match reqContents r with
        | AudioAndText _ _ _ => page_of (transcription_settled env o p1)
        | Text _ => summary_settled env o p1
        end
  | None => p
  end.

Definition page_step (env : Env) (e : PageEvent) (p : Page) : Page :=
  match e with
  | Session e => session_step env e p
  | ChooseFile file readable => handleFileUpload env file readable p
  | ReaderLoad k result constructs =>
      match reads p !! k with
      | Some (f, false) =>
          page_of
            (reader_onload constructs f result
               (with_reads (<[k := (f, true)]> (reads p)) p))
      | _ => p
      end
  | RequestSettles k o => request_step env k o p
  | ClickSummarize constructs =>
      if summarizeShown (ui (core p)) && negb (summarizeDisabled (panel p))
      then generateSummary env constructs p
      else p
  | ClickCloseSummary =>
      if summaryShown (ui (core p)) then on_core (setSummary env None) p else p
  | ClickCopy =>
      if fileTranscriptionShown (ui (core p)) (panel p)
      then
        match fileTranscription (panel p) with
        | Some t => copyToClipboard t p
        | None => p
        end
      else p
  | AudioProcess inputData => onaudioprocess inputData p
  end.

Fixpoint page_exec (tr : list (Env * PageEvent)) (p : Page) : Page :=
  match tr with
  | [] => p
  | (env, e) :: tr' => page_exec tr' (page_step env e p)
  end.

(** ** Scenarios of the whole component *)

Definition page_events (b : bool) (es : list PageEvent) : list (Env * PageEvent) :=
  map (fun e => (browser b, e)) es.

(** One turn of a conversation, then the recording is stopped. *)
Definition talked : Page :=
  page_exec
    (page_events true (map Session (one_turn ++ [ClickToggle; Render])))
    initialPage.

(** A session is open and the microphone delivers two buffers. *)
Definition capturing : list PageEvent :=
  map Session session_opened ++ [AudioProcess [0%Q; 1%Q]; AudioProcess [0%Q]].

(** Two states of the session controller that differ at most in the
    status and the summary of the next render and in what was logged. *)
Definition same_session (s s' : App) : Prop :=
  refs s' = refs s /\
  playback_view s' = playback_view s /\
  resources_view s' = resources_view s /\
  schedule_view s' = schedule_view s /\
  mode (ui (render s')) = mode (ui (render s)) /\
  isRecording (ui (render s')) = isRecording (ui (render s)) /\
  shown s' = shown s /\
  live (ui (render s')) = live (ui (render s)).

(* ===================================================================== *)
(** * The codec: base64 and 16-bit PCM round trips *)
(* ===================================================================== *)

Section CodecFacts.
Import Codec.
Local Open Scope Z_scope.

Lemma byte_to_Z_range (b : byte) : 0 <= byte_to_Z b <= 255.
Proof.
  unfold byte_to_Z. pose proof (Byte.to_N_bounded b). lia.
Qed.

Lemma byte_of_to_Z (b : byte) : byte_of_Z (byte_to_Z b) = b.
Proof.
  unfold byte_of_Z, byte_to_Z. rewrite N2Z.id, Byte.of_to_N. reflexivity.
Qed.

Lemma byte_to_of_Z (z : Z) : 0 <= z <= 255 -> byte_to_Z (byte_of_Z z) = z.
Proof.
  intros Hz. unfold byte_of_Z, byte_to_Z.
  destruct (Byte.of_N (Z.to_N z)) as [b|] eqn:E.
  - apply Byte.to_of_N in E. rewrite E. lia.
  - pose proof (Byte.to_of_N_option_map (Z.to_N z)) as H.
    rewrite E in H. simpl in H.
    destruct (N.leb_spec (Z.to_N z) 255); [discriminate | lia].
Qed.

Lemma b64_table :
  forallb (fun i =>
             match b64_index (b64_char (Z.of_nat i)) with
             | Some m => Z.eqb m (Z.of_nat i)
             | None => false
             end
             && negb (Ascii.eqb (b64_char (Z.of_nat i)) b64_pad))
          (seq 0 64) = true.
Proof. vm_compute. reflexivity. Qed.

Lemma b64_index_char (n : Z) :
  0 <= n < 64 ->
  b64_index (b64_char n) = Some n /\ Ascii.eqb (b64_char n) b64_pad = false.
Proof.
  intros Hn.
  pose proof (proj1 (forallb_forall _ _) b64_table (Z.to_nat n)) as H.
  assert (Hin : In (Z.to_nat n) (seq 0 64)) by (apply in_seq; lia).
  specialize (H Hin). cbv beta in H.
  rewrite Z2Nat.id in H by lia.
  apply andb_true_iff in H as [H1 H2].
  destruct (b64_index (b64_char n)) as [m|]; [|discriminate].
  apply Z.eqb_eq in H1. subst m.
  apply negb_true_iff in H2. auto.
Qed.

End CodecFacts.

Section CodecRoundTrip.
Import Codec.
Local Open Scope Z_scope.

Lemma list_ind3 {A} (P : list A -> Prop) :
  P [] -> (forall a, P [a]) -> (forall a b, P [a; b]) ->
  (forall a b c l, P l -> P (a :: b :: c :: l)) ->
  forall l, P l.
Proof.
  intros H0 H1 H2 H3.
  assert (H : forall l, P l /\ (forall a, P (a :: l)) /\ (forall a b, P (a :: b :: l))).
  { induction l as [|x l [IH0 [IH1 IH2]]]; [auto|].
    split; [apply IH1|]. split; [intros; apply IH2|].
    intros a b. apply H3, IH0. }
  intros l. apply H.
Qed.

Lemma b64_group3 (a b c : byte) :
  let x := byte_to_Z a in
  let y := byte_to_Z b in
  let z := byte_to_Z c in
  b64_decode_group (b64_char (x / 4)) (b64_char ((x mod 4) * 16 + y / 16))
    (b64_char ((y mod 16) * 4 + z / 64)) (b64_char (z mod 64))
  = Some [a; b; c].
Proof.
  intros x y z.
  pose proof (byte_to_Z_range a) as Ha.
  pose proof (byte_to_Z_range b) as Hb.
  pose proof (byte_to_Z_range c) as Hc.
  fold x in Ha. fold y in Hb. fold z in Hc.
  unfold b64_decode_group.
  destruct (b64_index_char (x / 4)) as [-> _];
    [Z.div_mod_to_equations; lia|].
  destruct (b64_index_char ((x mod 4) * 16 + y / 16)) as [-> _];
    [Z.div_mod_to_equations; lia|].
  destruct (b64_index_char ((y mod 16) * 4 + z / 64)) as [-> _];
    [Z.div_mod_to_equations; lia|].
  destruct (b64_index_char (z mod 64)) as [-> ->];
    [Z.div_mod_to_equations; lia|].
  replace (x / 4 * 4 + (x mod 4 * 16 + y / 16) / 16) with x
    by (Z.div_mod_to_equations; lia).
  replace ((x mod 4 * 16 + y / 16) mod 16 * 16 + (y mod 16 * 4 + z / 64) / 4) with y
    by (Z.div_mod_to_equations; lia).
  replace ((y mod 16 * 4 + z / 64) mod 4 * 64 + z mod 64) with z
    by (Z.div_mod_to_equations; lia).
  unfold x, y, z. rewrite !byte_of_to_Z. reflexivity.
Qed.


Lemma b64_group2 (a b : byte) :
  let x := byte_to_Z a in
  let y := byte_to_Z b in
  b64_decode_group (b64_char (x / 4)) (b64_char ((x mod 4) * 16 + y / 16))
    (b64_char ((y mod 16) * 4)) b64_pad
  = Some [a; b].
Proof.
  intros x y.
  pose proof (byte_to_Z_range a) as Ha.
  pose proof (byte_to_Z_range b) as Hb.
  fold x in Ha. fold y in Hb.
  unfold b64_decode_group.
  destruct (b64_index_char (x / 4)) as [-> _];
    [Z.div_mod_to_equations; lia|].
  destruct (b64_index_char ((x mod 4) * 16 + y / 16)) as [-> _];
    [Z.div_mod_to_equations; lia|].
  destruct (b64_index_char ((y mod 16) * 4)) as [-> ->];
    [Z.div_mod_to_equations; lia|].
  rewrite Ascii.eqb_refl.
  replace (x / 4 * 4 + (x mod 4 * 16 + y / 16) / 16) with x
    by (Z.div_mod_to_equations; lia).
  replace ((x mod 4 * 16 + y / 16) mod 16 * 16 + (y mod 16 * 4) / 4) with y
    by (Z.div_mod_to_equations; lia).
  unfold x, y. rewrite !byte_of_to_Z. reflexivity.
Qed.

Lemma b64_group1 (a : byte) :
  let x := byte_to_Z a in
  b64_decode_group (b64_char (x / 4)) (b64_char ((x mod 4) * 16)) b64_pad b64_pad
  = Some [a].
Proof.
  intros x.
  pose proof (byte_to_Z_range a) as Ha. fold x in Ha.
  unfold b64_decode_group.
  destruct (b64_index_char (x / 4)) as [-> _];
    [Z.div_mod_to_equations; lia|].
  destruct (b64_index_char ((x mod 4) * 16)) as [-> _];
    [Z.div_mod_to_equations; lia|].
  rewrite Ascii.eqb_refl.
  replace (x / 4 * 4 + (x mod 4 * 16) / 16) with x
    by (Z.div_mod_to_equations; lia).
  unfold x. rewrite byte_of_to_Z. reflexivity.
Qed.

(** Decoding undoes encoding, for every sequence of bytes. *)
Lemma b64_decode_encode (bs : list byte) : b64_decode (b64_encode bs) = Some bs.
Proof.
  induction bs as [|a|a b|a b c rest IH] using list_ind3.
  - reflexivity.
  - cbn [b64_encode b64_decode]. rewrite b64_group1. reflexivity.
  - cbn [b64_encode b64_decode]. rewrite b64_group2. reflexivity.
  - cbn [b64_encode]. cbv zeta.
    cbn [b64_decode]. rewrite b64_group3.
    destruct (b64_index_char (byte_to_Z c mod 64)) as [_ ->];
      [Z.div_mod_to_equations; lia|].
    rewrite IH.
    destruct (b64_encode rest) eqn:E.
    + destruct rest as [|r1 [|r2 [|r3 rest']]]; cbn in E; try discriminate.
      reflexivity.
    + reflexivity.
Qed.

(** *** 16-bit PCM *)

Lemma int16_of_bytes_bytes (z : Z) :
  -32768 <= z <= 32767 ->
  match int16_bytes z with
  | [lo; hi] => int16_of_bytes lo hi = z
  | _ => False
  end.
Proof.
  intros Hz. unfold int16_bytes, int16_of_bytes. cbv zeta.
  rewrite !byte_to_of_Z by (Z.div_mod_to_equations; lia).
  destruct (Z.leb_spec 32768 (z mod 65536 mod 256 + 256 * (z mod 65536 / 256)));
    Z.div_mod_to_equations; lia.
Qed.

Lemma to_int16_range (x : Q) : -32768 <= to_int16 x <= 32767.
Proof. unfold to_int16. lia. Qed.

Lemma pcm16_samples_encode (samples : list Q) :
  pcm16_samples (blobData (encodeOutbound samples))
  = map (fun x => to_int16 x # 32768) samples.
Proof.
  unfold encodeOutbound. cbn [blobData].
  induction samples as [|x l IH]; [reflexivity|].
  cbn [flat_map map].
  pose proof (int16_of_bytes_bytes (to_int16 x) (to_int16_range x)) as H.
  destruct (int16_bytes (to_int16 x)) as [|lo [|hi [|? ?]]]; try contradiction.
  cbn [app pcm16_samples]. rewrite H, IH. reflexivity.
Qed.

Lemma encode_length_even (samples : list Q) :
  length (blobData (encodeOutbound samples)) = (2 * length samples)%nat.
Proof.
  unfold encodeOutbound. cbn [blobData].
  induction samples as [|x l IH]; [reflexivity|].
  cbn [flat_map]. rewrite length_app, IH. cbn. lia.
Qed.

Lemma channel_mono (l : list Q) (i : nat) : channel 1 0 i l = l.
Proof.
  revert i. induction l as [|x l IH]; intros i; [reflexivity|].
  cbn [channel]. rewrite Nat.mod_1_r. cbn. rewrite IH. reflexivity.
Qed.

End CodecRoundTrip.

Section Quantisation.
Import Codec.
Local Open Scope Q_scope.

Lemma clamp_range (x : Q) : -1 <= clamp x <= 1.
Proof.
  unfold clamp. split.
  - apply Q.le_max_l.
  - apply Q.max_lub; [discriminate | apply Q.le_min_l].
Qed.

(** Cutting a scaled sample of [-1, 1] to the 16-bit grid moves it by at
    most one step. *)
Lemma int16_error (c : Q) :
  -1 <= c <= 1 ->
  let r := Z.min 32767 (Z.max (-32768) (Qtrunc (c * 32768))) in
  Qabs ((r # 32768) - c) <= quantum.
Proof.
  intros [Hlo Hhi] r.
  apply Qabs_Qle_condition.
  destruct c as [p q].
  unfold Qle in Hlo, Hhi. cbn in Hlo, Hhi.
  assert (Ht : Qtrunc ((p # q) * 32768) = Z.quot (p * 32768) (Zpos q)).
  { unfold Qtrunc. cbn [Qmult Qnum Qden]. rewrite Pos.mul_1_r. reflexivity. }
  subst r. rewrite Ht. clear Ht.
  set (t := Z.quot (p * 32768) (Zpos q)).
  pose proof (Z.quot_rem' (p * 32768) (Zpos q)) as Hqr. fold t in Hqr.
  assert (Hrem : (0 <= p -> 0 <= Z.rem (p * 32768) (Zpos q) < Zpos q)%Z).
  { intros. apply Z.rem_bound_pos; lia. }
  assert (Hrem' : (p <= 0 -> - Zpos q < Z.rem (p * 32768) (Zpos q) <= 0)%Z).
  { intros. apply Z.rem_bound_pos_neg; lia. }
  unfold quantum, Qle, Qminus, Qplus, Qopp. cbn [Qnum Qden].
  destruct (Z.le_ge_cases 0 p) as [Hp|Hp].
  - specialize (Hrem Hp). clear Hrem'. split; nia.
  - specialize (Hrem' Hp). clear Hrem. split; nia.
Qed.

Lemma to_int16_error (x : Q) :
  Qabs ((to_int16 x # 32768) - clamp x) <= quantum.
Proof. apply int16_error, clamp_range. Qed.

End Quantisation.

Section RoundTrip.
Import Codec.
Local Open Scope Q_scope.

(** C6.  Modelled from the specification (the codec helpers are imported
    from [./utils/audioUtils]), with a sample taken as a rational number:
    for every sequence of samples and every sample rate, the bytes of
    [encodeOutbound], put through base64, are decoded by [decodeInbound]
    into a mono buffer of as many samples, each within one step of the
    16-bit grid (2^-15) of the original sample clamped to [-1, 1]. *)
Theorem C6_encode_decode_roundtrip (samples : list Q) (rate : positive) :
  exists out : list Q,
    decodeInbound (b64_encode (blobData (encodeOutbound samples))) rate 1
    = Some {| bufSampleRate := rate; bufChannels := 1; bufData := [out] |} /\
    Forall2 (fun y x => Qabs (y - clamp x) <= quantum) out samples.
Proof.
  exists (map (fun x => to_int16 x # 32768) samples). split.
  - unfold decodeInbound. rewrite b64_decode_encode.
    rewrite encode_length_even.
    replace (2 * length samples)%nat with (length samples * (2 * 1))%nat by lia.
    rewrite Nat.Div0.mod_mul. cbn [Nat.eqb negb seq map].
    rewrite pcm16_samples_encode, channel_mono. reflexivity.
  - induction samples as [|x l IH]; constructor.
    + apply to_int16_error.
    + exact IH.
Qed.

End RoundTrip.

(* ===================================================================== *)
(** * React: what a setter call and a render do *)
(* ===================================================================== *)

Ltac proj :=
  cbn [assign_sessionPromiseRef assign_inputAudioContextRef
       assign_outputAudioContextRef assign_mediaStreamRef
       assign_scriptProcessorRef assign_mediaStreamSourceRef
       assign_currentInputTranscriptionRef assign_currentOutputTranscriptionRef
       assign_nextStartTimeRef assign_audioSourcesRef
       world_contexts world_sources world_stopped world_ended world_streams
       world_nodes world_sessions world_micRequests console_error stop_all
       with_refs with_world enqueue
       ui pending refs world
       sessionPromiseRef inputAudioContextRef outputAudioContextRef
       mediaStreamRef scriptProcessorRef mediaStreamSourceRef
       currentInputTranscriptionRef currentOutputTranscriptionRef
       nextStartTimeRef audioSourcesRef
       contexts sources stopped ended streams nodes sessions micRequests console
       state_of and_then] in *.

Ltac unset :=
  unfold setMode, setStatus, setIsRecording, setCurrentUserTranscript,
    setCurrentAiTranscript, setSummary, setTranscriptHistory in *.

Section ReactFacts.

Lemma ui_render (s : App) : ui (render s) = next_ui (refs s) s.
Proof. reflexivity. Qed.

Lemma dispatch_ui env u s : ui (dispatch env u s) = ui s.
Proof.
  unfold dispatch, enqueue.
  destruct (pending s), (eager env), (same_state u (ui s)); reflexivity.
Qed.

Lemma dispatch_refs env u s : refs (dispatch env u s) = refs s.
Proof.
  unfold dispatch, enqueue.
  destruct (pending s), (eager env), (same_state u (ui s)); reflexivity.
Qed.

Lemma dispatch_world env u s : world (dispatch env u s) = world s.
Proof.
  unfold dispatch, enqueue.
  destruct (pending s), (eager env), (same_state u (ui s)); reflexivity.
Qed.

Lemma apply_same r st u : same_state u st = true -> apply_update r st u = st.
Proof.
  destruct st, u; cbn; intros H;
    try (apply bool_decide_eq_true in H); try (apply Bool.eqb_prop in H);
    try discriminate; subst; reflexivity.
Qed.

Lemma computed_plain r st u : history_update u = false -> computed r st u = u.
Proof. destruct u; cbn; intros; try discriminate; reflexivity. Qed.

Lemma next_ui_enqueue r u s :
  next_ui r (enqueue u s) = apply_update r (next_ui r s) u.
Proof. unfold next_ui, enqueue. cbn. apply fold_left_app. Qed.

(** A plain value set through a setter is the value of the next render,
    whichever way React takes. *)
Lemma next_ui_dispatch r env u s :
  history_update u = false ->
  next_ui r (dispatch env u s) = apply_update r (next_ui r s) u.
Proof.
  intros Hu. unfold dispatch.
  destruct (pending s) eqn:Hp.
  - destruct (eager env).
    + destruct (same_state u (ui s)) eqn:Hs.
      * unfold next_ui. rewrite Hp. cbn. symmetry. apply apply_same, Hs.
      * rewrite computed_plain by assumption. apply next_ui_enqueue.
    + apply next_ui_enqueue.
  - apply next_ui_enqueue.
Qed.

(** An updater function is run either at the next render, with the refs of
    that moment, or at once, when nothing is queued and React takes its
    eager path. *)
Lemma next_ui_dispatch_updater r env f s :
  next_ui r (dispatch env (SetTranscriptHistory f) s)
  = apply_update
      (if eager env && bool_decide (pending s = []) then refs s else r)
      (next_ui r s) (SetTranscriptHistory f).
Proof.
  unfold dispatch.
  destruct (pending s) eqn:Hp.
  - destruct (eager env); cbn [andb].
    + cbn [same_state]. rewrite next_ui_enqueue.
      unfold next_ui. rewrite Hp. reflexivity.
    + apply next_ui_enqueue.
  - rewrite andb_false_r. apply next_ui_enqueue.
Qed.

Lemma dispatch_history_updates env u s :
  history_update u = false ->
  List.filter history_update (pending (dispatch env u s))
  = List.filter history_update (pending s).
Proof.
  intros Hu. unfold dispatch, enqueue.
  destruct (pending s) eqn:Hp.
  - destruct (eager env); [destruct (same_state u (ui s))|]; cbn;
      rewrite ?Hp, ?computed_plain by assumption; cbn; rewrite ?Hu; reflexivity.
  - cbn. rewrite List.filter_app. cbn. rewrite Hu, app_nil_r. reflexivity.
Qed.

End ReactFacts.

(* ===================================================================== *)
(** * [stopSession] *)
(* ===================================================================== *)

Section StopFacts.

(** Closing the session, the tracks and the capture graph leaves playback
    and the transcripts alone, and empties the four refs. *)
Lemma stop_closeSession_view (s : App) :
  audio_view (stop_closeSession s) = audio_view s /\
  sessionPromiseRef (refs (stop_closeSession s)) = None /\
  mediaStreamRef (refs (stop_closeSession s)) = mediaStreamRef (refs s) /\
  scriptProcessorRef (refs (stop_closeSession s)) = scriptProcessorRef (refs s) /\
  mediaStreamSourceRef (refs (stop_closeSession s)) = mediaStreamSourceRef (refs s).
Proof.
  unfold stop_closeSession.
  destruct (sessionPromiseRef (refs s)) as [i|] eqn:E; [|auto].
  destruct (sessions (world s) !! i) as [[m [|] c]|]; repeat split; reflexivity.
Qed.

Lemma stop_releaseTracks_view (s : App) :
  audio_view (stop_releaseTracks s) = audio_view s /\
  sessionPromiseRef (refs (stop_releaseTracks s)) = sessionPromiseRef (refs s) /\
  mediaStreamRef (refs (stop_releaseTracks s)) = None /\
  scriptProcessorRef (refs (stop_releaseTracks s)) = scriptProcessorRef (refs s) /\
  mediaStreamSourceRef (refs (stop_releaseTracks s)) = mediaStreamSourceRef (refs s).
Proof.
  unfold stop_releaseTracks.
  destruct (mediaStreamRef (refs s)) as [i|] eqn:E; [|auto].
  repeat split; reflexivity.
Qed.

Lemma stop_disconnectProcessor_view (s : App) :
  audio_view (stop_disconnectProcessor s) = audio_view s /\
  sessionPromiseRef (refs (stop_disconnectProcessor s)) = sessionPromiseRef (refs s) /\
  mediaStreamRef (refs (stop_disconnectProcessor s)) = mediaStreamRef (refs s) /\
  scriptProcessorRef (refs (stop_disconnectProcessor s)) = None /\
  mediaStreamSourceRef (refs (stop_disconnectProcessor s)) = mediaStreamSourceRef (refs s).
Proof.
  unfold stop_disconnectProcessor.
  destruct (scriptProcessorRef (refs s)) as [i|] eqn:E; [|auto].
  repeat split; reflexivity.
Qed.

Lemma stop_disconnectSource_view (s : App) :
  audio_view (stop_disconnectSource s) = audio_view s /\
  sessionPromiseRef (refs (stop_disconnectSource s)) = sessionPromiseRef (refs s) /\
  mediaStreamRef (refs (stop_disconnectSource s)) = mediaStreamRef (refs s) /\
  scriptProcessorRef (refs (stop_disconnectSource s)) = scriptProcessorRef (refs s) /\
  mediaStreamSourceRef (refs (stop_disconnectSource s)) = None.
Proof.
  unfold stop_disconnectSource.
  destruct (mediaStreamSourceRef (refs s)) as [i|] eqn:E; [|auto].
  repeat split; reflexivity.
Qed.

Lemma stop_release_view (s : App) :
  let s' := stop_disconnectSource
              (stop_disconnectProcessor
                 (stop_releaseTracks (stop_closeSession s))) in
  audio_view s' = audio_view s /\
  sessionPromiseRef (refs s') = None /\
  mediaStreamRef (refs s') = None /\
  scriptProcessorRef (refs s') = None /\
  mediaStreamSourceRef (refs s') = None.
Proof.
  intros s'. subst s'.
  destruct (stop_closeSession_view s) as (V1 & A1 & B1 & C1 & D1).
  destruct (stop_releaseTracks_view (stop_closeSession s)) as (V2 & A2 & B2 & C2 & D2).
  destruct (stop_disconnectProcessor_view (stop_releaseTracks (stop_closeSession s)))
    as (V3 & A3 & B3 & C3 & D3).
  destruct (stop_disconnectSource_view
              (stop_disconnectProcessor (stop_releaseTracks (stop_closeSession s))))
    as (V4 & A4 & B4 & C4 & D4).
  repeat split; congruence.
Qed.

Lemma stop_closeInput_returns (s : App) :
  stop_closeInput s = Returned (state_of (stop_closeInput s)).
Proof.
  unfold stop_closeInput, AudioContext_close.
  destruct (inputAudioContextRef (refs s)) as [c|]; [|reflexivity].
  destruct (context_state c (world s)) eqn:E; [|reflexivity].
  cbn [and_then state_of]. reflexivity.
Qed.

Lemma context_state_stop_all c ids s :
  context_state c (world (assign_audioSourcesRef [] (stop_all ids s)))
  = context_state c (world s).
Proof. reflexivity. Qed.

Lemma stop_closeOutput_returns (s : App) :
  stop_closeOutput s = Returned (state_of (stop_closeOutput s)).
Proof.
  unfold stop_closeOutput, AudioContext_close.
  destruct (outputAudioContextRef (refs s)) as [c|]; [|reflexivity].
  destruct (context_state c (world s)) eqn:E; [|reflexivity].
  rewrite context_state_stop_all, E. reflexivity.
Qed.

(** [stopSession] never throws: the two [close()] calls are guarded by the
    state of their context, the one of the session by [try]/[catch]. *)
Lemma stopSession_returns (env : Env) (s : App) :
  stopSession env s = Returned (state_of (stopSession env s)).
Proof.
  unfold stopSession.
  rewrite stop_closeInput_returns. cbn [and_then].
  rewrite stop_closeOutput_returns. reflexivity.
Qed.

Lemma stopSession_state (env : Env) (s : App) :
  state_of (stopSession env s)
  = stop_clearTranscripts env
      (state_of (stop_closeOutput
         (state_of (stop_closeInput
            (stop_disconnectSource
               (stop_disconnectProcessor
                  (stop_releaseTracks
                     (stop_closeSession
                        (setStatus env idle (setIsRecording env false s)))))))))).
Proof.
  unfold stopSession.
  rewrite stop_closeInput_returns. cbn [and_then].
  rewrite stop_closeOutput_returns. reflexivity.
Qed.

Lemma stop_closeInput_queue (s : App) :
  ui (state_of (stop_closeInput s)) = ui s /\
  pending (state_of (stop_closeInput s)) = pending s.
Proof.
  unfold stop_closeInput, AudioContext_close.
  destruct (inputAudioContextRef (refs s)) as [c|]; [|split; reflexivity].
  destruct (context_state c (world s)) eqn:E; split; reflexivity.
Qed.

Lemma stop_closeOutput_queue (s : App) :
  ui (state_of (stop_closeOutput s)) = ui s /\
  pending (state_of (stop_closeOutput s)) = pending s.
Proof.
  unfold stop_closeOutput, AudioContext_close.
  destruct (outputAudioContextRef (refs s)) as [c|]; [|split; reflexivity].
  destruct (context_state c (world s)) eqn:E; [|split; reflexivity].
  rewrite context_state_stop_all, E. split; reflexivity.
Qed.

Lemma next_ui_queue r (s s' : App) :
  ui s' = ui s -> pending s' = pending s -> next_ui r s' = next_ui r s.
Proof. unfold next_ui. intros -> ->. reflexivity. Qed.

Lemma audio_view_queue (s s' : App) :
  audio_view s' = audio_view s -> ui s' = ui s /\ pending s' = pending s.
Proof. unfold audio_view. intros H. split; congruence. Qed.

(** The state that the render after [stopSession] shows: idle, not
    recording, the live transcripts empty, the rest as it was to be. *)
Lemma stopSession_next_ui (r : Refs) (env : Env) (s : App) :
  next_ui r (state_of (stopSession env s)) = after_stop (next_ui r s).
Proof.
  rewrite stopSession_state. unfold stop_clearTranscripts.
  set (s2 := setStatus env idle (setIsRecording env false s)).
  set (s6 := stop_disconnectSource _).
  set (s7 := state_of (stop_closeInput s6)).
  set (s8 := state_of (stop_closeOutput s7)).
  assert (H8 : next_ui r s8 = next_ui r s2).
  { destruct (stop_release_view s2) as [Hv _]. fold s6 in Hv.
    apply audio_view_queue in Hv as [Hu6 Hp6].
    destruct (stop_closeInput_queue s6) as [Hu7 Hp7]. fold s7 in Hu7, Hp7.
    destruct (stop_closeOutput_queue s7) as [Hu8 Hp8]. fold s8 in Hu8, Hp8.
    apply next_ui_queue; congruence. }
  transitivity
    (next_ui r (setCurrentAiTranscript env EmptyString (setCurrentUserTranscript env EmptyString s8))).
  { apply next_ui_queue; reflexivity. }
  unfold setCurrentAiTranscript, setCurrentUserTranscript.
  rewrite !next_ui_dispatch by reflexivity. rewrite H8.
  unfold s2, setStatus, setIsRecording.
  rewrite !next_ui_dispatch by reflexivity.
  destruct (next_ui r s). reflexivity.
Qed.

End StopFacts.

Section StopTwice.

Lemma stop_closeInput_cases (s : App) :
  (inputAudioContextRef (refs s) = None /\ state_of (stop_closeInput s) = s) \/
  (exists c, inputAudioContextRef (refs s) = Some c /\
             context_state c (world s) = closed /\
             state_of (stop_closeInput s) = s) \/
  (exists c, inputAudioContextRef (refs s) = Some c /\
             contexts (world s) !! c = Some running /\
             state_of (stop_closeInput s)
             = assign_inputAudioContextRef None
                 (world_contexts (<[c := closed]> (contexts (world s))) s)).
Proof.
  unfold stop_closeInput, AudioContext_close.
  destruct (inputAudioContextRef (refs s)) as [c|]; [|left; auto].
  right. destruct (context_state c (world s)) eqn:E.
  - right. exists c. repeat split.
    unfold context_state in E.
    destruct (contexts (world s) !! c) as [[|]|]; congruence.
  - left. exists c. auto.
Qed.

Lemma stop_closeOutput_cases (s : App) :
  (outputAudioContextRef (refs s) = None /\ state_of (stop_closeOutput s) = s) \/
  (exists c, outputAudioContextRef (refs s) = Some c /\
             context_state c (world s) = closed /\
             state_of (stop_closeOutput s) = s) \/
  (exists c, outputAudioContextRef (refs s) = Some c /\
             contexts (world s) !! c = Some running /\
             state_of (stop_closeOutput s)
             = assign_outputAudioContextRef None
                 (world_contexts (<[c := closed]> (contexts (world s)))
                    (assign_audioSourcesRef []
                       (stop_all (audioSourcesRef (refs s)) s)))).
Proof.
  unfold stop_closeOutput, AudioContext_close.
  destruct (outputAudioContextRef (refs s)) as [c|]; [|left; auto].
  right. destruct (context_state c (world s)) eqn:E.
  - right. exists c. rewrite context_state_stop_all, E. repeat split.
    unfold context_state in E.
    destruct (contexts (world s) !! c) as [[|]|]; congruence.
  - left. exists c. auto.
Qed.

Lemma context_state_insert (c c' : nat) (l : list AudioContextState) :
  match l !! c with Some st => st | None => closed end = closed ->
  match <[c' := closed]> l !! c with Some st => st | None => closed end = closed.
Proof.
  intros H.
  destruct (decide (c = c')) as [->|Hne].
  - destruct (decide (c' < length l)) as [Hlt|Hge].
    + rewrite list_lookup_insert_eq by assumption. reflexivity.
    + rewrite list_insert_ge by lia. exact H.
  - rewrite list_lookup_insert_ne by congruence. exact H.
Qed.

(** After [stopSession] nothing is left to release. *)
Lemma stopSession_torn_down (env : Env) (s : App) :
  torn_down (state_of (stopSession env s)).
Proof.
  rewrite stopSession_state.
  set (s2 := setStatus env idle (setIsRecording env false s)).
  destruct (stop_release_view s2) as (_ & Hsp & Hms & Hproc & Hmss).
  set (s6 := stop_disconnectSource _) in *.
  clearbody s6. clear s2.
  set (s7 := state_of (stop_closeInput s6)).
  set (s8 := state_of (stop_closeOutput s7)).
  assert (H7 : sessionPromiseRef (refs s7) = None /\
               mediaStreamRef (refs s7) = None /\
               scriptProcessorRef (refs s7) = None /\
               mediaStreamSourceRef (refs s7) = None /\
               (forall c, inputAudioContextRef (refs s7) = Some c ->
                          context_state c (world s7) = closed)).
  { subst s7.
    destruct (stop_closeInput_cases s6)
      as [[Hn ->]|[(c & Hc & Hcl & ->)|(c & Hc & Hrun & ->)]];
      proj; repeat split; try assumption.
    - intros c; congruence.
    - intros c' Hc'. congruence.
    - intros c'; discriminate. }
  destruct H7 as (Hsp7 & Hms7 & Hproc7 & Hmss7 & Hin7).
  clearbody s7. clear s6 Hsp Hms Hproc Hmss.
  assert (H8 : sessionPromiseRef (refs s8) = None /\
               mediaStreamRef (refs s8) = None /\
               scriptProcessorRef (refs s8) = None /\
               mediaStreamSourceRef (refs s8) = None /\
               (forall c, inputAudioContextRef (refs s8) = Some c ->
                          context_state c (world s8) = closed) /\
               (forall c, outputAudioContextRef (refs s8) = Some c ->
                          context_state c (world s8) = closed)).
  { subst s8.
    destruct (stop_closeOutput_cases s7)
      as [[Hn ->]|[(c & Hc & Hcl & ->)|(c & Hc & Hrun & ->)]];
      proj; repeat split; try assumption.
    - intros c; congruence.
    - intros c' Hc'. congruence.
    - intros c' Hc'. unfold context_state. proj.
      apply context_state_insert. apply Hin7, Hc'.
    - intros c'; discriminate. }
  destruct H8 as (Hsp8 & Hms8 & Hproc8 & Hmss8 & Hin8 & Hout8).
  clearbody s8.
  unfold stop_clearTranscripts, torn_down,
    setCurrentAiTranscript, setCurrentUserTranscript.
  unfold context_state in *. proj.
  rewrite !dispatch_refs, !dispatch_world.
  repeat split; assumption || reflexivity.
Qed.

(** On such a state [stopSession] releases nothing: refs and platform
    objects stay as they are. *)
Lemma stopSession_torn_down_fixed (env : Env) (s : App) :
  torn_down s ->
  refs (state_of (stopSession env s)) = refs s /\
  world (state_of (stopSession env s)) = world s.
Proof.
  intros (Hsp & Hms & Hproc & Hmss & Hin & Hout & Hib & Hob).
  rewrite stopSession_state.
  set (s2 := setStatus env idle (setIsRecording env false s)).
  assert (Hr : refs s2 = refs s)
    by (unfold s2, setStatus, setIsRecording; rewrite !dispatch_refs; reflexivity).
  assert (Hw : world s2 = world s)
    by (unfold s2, setStatus, setIsRecording; rewrite !dispatch_world; reflexivity).
  clearbody s2.
  assert (E3 : stop_closeSession s2 = s2).
  { unfold stop_closeSession. rewrite Hr, Hsp. reflexivity. }
  rewrite E3.
  assert (E4 : stop_releaseTracks s2 = s2).
  { unfold stop_releaseTracks. rewrite Hr, Hms. reflexivity. }
  rewrite E4.
  assert (E5 : stop_disconnectProcessor s2 = s2).
  { unfold stop_disconnectProcessor. rewrite Hr, Hproc. reflexivity. }
  rewrite E5.
  assert (E6 : stop_disconnectSource s2 = s2).
  { unfold stop_disconnectSource. rewrite Hr, Hmss. reflexivity. }
  rewrite E6.
  assert (E7 : state_of (stop_closeInput s2) = s2).
  { destruct (stop_closeInput_cases s2)
      as [[_ E]|[(c & _ & _ & E)|(c & Hc & Hrun & _)]]; try exact E.
    rewrite Hr in Hc. rewrite Hw in Hrun.
    specialize (Hin c Hc). unfold context_state in Hin.
    rewrite Hrun in Hin. discriminate. }
  rewrite E7.
  assert (E8 : state_of (stop_closeOutput s2) = s2).
  { destruct (stop_closeOutput_cases s2)
      as [[_ E]|[(c & _ & _ & E)|(c & Hc & Hrun & _)]]; try exact E.
    rewrite Hr in Hc. rewrite Hw in Hrun.
    specialize (Hout c Hc). unfold context_state in Hout.
    rewrite Hrun in Hout. discriminate. }
  rewrite E8.
  unfold stop_clearTranscripts, setCurrentAiTranscript, setCurrentUserTranscript.
  proj. rewrite !dispatch_refs, !dispatch_world, Hr, Hw.
  split; [|reflexivity].
  destruct (refs s). proj. subst. reflexivity.
Qed.

End StopTwice.

(* ===================================================================== *)
(** * Stopping: C2, C4, C10; starting without a credential: C5 *)
(* ===================================================================== *)

(** C2 (the code does otherwise).  The claim: on a transport-level error
    of the session the controller goes to [error] and stays there, not
    [idle], and the session is torn down.  The code: [onerror] calls
    [setStatus('error')] and then [stopSession()], whose second statement
    is [setStatus('idle')]; whatever the state before, the handler returns,
    the session is torn down, and the render that follows shows [idle]. *)
Theorem C2_onerror_ends_idle (env : Env) (s : App) :
  exists s',
    onerror env s = Returned s' /\
    torn_down s' /\
    status (ui (render s')) = idle /\
    status (ui (render s')) <> error.
Proof.
  exists (state_of (onerror env s)).
  unfold onerror.
  split; [apply stopSession_returns|].
  split; [apply stopSession_torn_down|].
  rewrite ui_render, stopSession_next_ui. cbn [after_stop status].
  split; [reflexivity | discriminate].
Qed.

Lemma render_same (s s' : App) :
  refs s' = refs s -> world s' = world s ->
  next_ui (refs s) s' = next_ui (refs s) s ->
  render s' = render s.
Proof.
  unfold render, next_ui. intros -> -> ->. reflexivity.
Qed.

Lemma after_stop_twice (st : UiState) : after_stop (after_stop st) = after_stop st.
Proof. reflexivity. Qed.

(** C4.  [stopSession] is idempotent: from every state, reachable or not,
    a first call returns (it does not throw) and leaves an idle state that
    is not recording; a second call returns too, releases nothing more
    (refs and platform objects stay as the first call left them) and leads
    to the same rendered state.  Taken at a state that is idle already, the
    first call is itself such a second call. *)
Theorem C4_stop_idempotent (env1 env2 : Env) (s : App) :
  exists s1 s2,
    stopSession env1 s = Returned s1 /\
    stopSession env2 s1 = Returned s2 /\
    status (ui (render s1)) = idle /\
    isRecording (ui (render s1)) = false /\
    refs s2 = refs s1 /\
    world s2 = world s1 /\
    render s2 = render s1.
Proof.
  exists (state_of (stopSession env1 s)).
  exists (state_of (stopSession env2 (state_of (stopSession env1 s)))).
  pose proof (stopSession_returns env1 s) as R1.
  pose proof (stopSession_torn_down env1 s) as Ht.
  pose proof (fun r => stopSession_next_ui r env1 s) as N1.
  revert R1 Ht N1. generalize (state_of (stopSession env1 s)). intros s1 R1 Ht N1.
  pose proof (stopSession_returns env2 s1) as R2.
  pose proof (fun r => stopSession_next_ui r env2 s1) as N2.
  destruct (stopSession_torn_down_fixed env2 s1 Ht) as [Hr Hw].
  revert R2 N2 Hr Hw. generalize (state_of (stopSession env2 s1)).
  intros s2 R2 N2 Hr Hw.
  split; [exact R1|]. split; [exact R2|].
  split; [rewrite ui_render, N1; reflexivity|].
  split; [rewrite ui_render, N1; reflexivity|].
  split; [exact Hr|]. split; [exact Hw|].
  apply render_same; [exact Hr | exact Hw|].
  rewrite N2, N1. apply after_stop_twice.
Qed.

(** C5.  Without the credential [startSession] returns at once: the only
    thing it does besides logging is to set the status to [error].  No
    microphone request is made, no audio context, stream or session is
    created, the refs are untouched, and the queue of state updates gains
    nothing but that one status (no [connecting] in between, no recording
    flag). *)
Theorem C5_missing_key (env : Env) (s : App) :
  key_missing env = true ->
  exists s',
    startSession env s = Returned s' /\
    status (ui (render s')) = error /\
    (forall r, next_ui r s' = apply_update r (next_ui r s) (SetStatus error)) /\
    refs s' = refs s /\
    micRequests (world s') = micRequests (world s) /\
    streams (world s') = streams (world s) /\
    contexts (world s') = contexts (world s) /\
    sessions (world s') = sessions (world s).
Proof.
  intros Hk. unfold startSession. rewrite Hk.
  eexists. split; [reflexivity|].
  unfold setStatus.
  split.
  { rewrite ui_render, next_ui_dispatch by reflexivity. reflexivity. }
  split.
  { intros r. rewrite next_ui_dispatch by reflexivity. reflexivity. }
  rewrite dispatch_refs, dispatch_world.
  repeat split; reflexivity.
Qed.

Lemma C5_missing_key_witness :
  key_missing (browser_without_key false) = true /\
  exists s',
    startSession (browser_without_key false) initial = Returned s' /\
    status (ui (render s')) = error /\
    (forall r, next_ui r s' = apply_update r (next_ui r initial) (SetStatus error)) /\
    refs s' = refs initial /\
    micRequests (world s') = micRequests (world initial) /\
    streams (world s') = streams (world initial) /\
    contexts (world s') = contexts (world initial) /\
    sessions (world s') = sessions (world initial).
Proof.
  split; [reflexivity|].
  apply (C5_missing_key (browser_without_key false) initial). reflexivity.
Defined.

Lemma stop_blocks_queue (s2 : App) :
  let s8 :=
    state_of (stop_closeOutput
      (state_of (stop_closeInput
         (stop_disconnectSource
            (stop_disconnectProcessor
               (stop_releaseTracks (stop_closeSession s2))))))) in
  ui s8 = ui s2 /\ pending s8 = pending s2.
Proof.
  destruct (stop_release_view s2) as [Hv _].
  apply audio_view_queue in Hv. revert Hv.
  generalize (stop_disconnectSource
                (stop_disconnectProcessor
                   (stop_releaseTracks (stop_closeSession s2)))).
  intros s6 [Hu6 Hp6].
  destruct (stop_closeInput_queue s6) as [Hu7 Hp7]. revert Hu7 Hp7.
  generalize (state_of (stop_closeInput s6)). intros s7 Hu7 Hp7.
  destruct (stop_closeOutput_queue s7) as [Hu8 Hp8]. revert Hu8 Hp8.
  generalize (state_of (stop_closeOutput s7)). intros s8 Hu8 Hp8.
  cbv zeta. split; congruence.
Qed.

Lemma stopSession_ui (env : Env) (s : App) :
  ui (state_of (stopSession env s)) = ui s.
Proof.
  rewrite stopSession_state.
  destruct (stop_blocks_queue (setStatus env idle (setIsRecording env false s)))
    as [Hu _].
  cbv zeta in Hu. revert Hu.
  generalize (state_of (stop_closeOutput
      (state_of (stop_closeInput
         (stop_disconnectSource
            (stop_disconnectProcessor
               (stop_releaseTracks
                  (stop_closeSession
                     (setStatus env idle (setIsRecording env false s)))))))))).
  intros s8 Hu.
  unfold stop_clearTranscripts, setCurrentAiTranscript, setCurrentUserTranscript.
  proj. rewrite !dispatch_ui, Hu.
  unfold setStatus, setIsRecording. rewrite !dispatch_ui. reflexivity.
Qed.

Lemma stopSession_history_updates (env : Env) (s : App) :
  List.filter history_update (pending (state_of (stopSession env s)))
  = List.filter history_update (pending s).
Proof.
  rewrite stopSession_state.
  destruct (stop_blocks_queue (setStatus env idle (setIsRecording env false s)))
    as [_ Hp].
  cbv zeta in Hp. revert Hp.
  generalize (state_of (stop_closeOutput
      (state_of (stop_closeInput
         (stop_disconnectSource
            (stop_disconnectProcessor
               (stop_releaseTracks
                  (stop_closeSession
                     (setStatus env idle (setIsRecording env false s)))))))))).
  intros s8 Hp.
  unfold stop_clearTranscripts, setCurrentAiTranscript, setCurrentUserTranscript.
  proj. rewrite !dispatch_history_updates by reflexivity. rewrite Hp.
  unfold setStatus, setIsRecording.
  rewrite !dispatch_history_updates by reflexivity. reflexivity.
Qed.

Lemma apply_update_buffers (r r' : Refs) (st : UiState) (u : Update) :
  currentInputTranscriptionRef r' = currentInputTranscriptionRef r ->
  currentOutputTranscriptionRef r' = currentOutputTranscriptionRef r ->
  apply_update r' st u = apply_update r st u.
Proof.
  intros Hi Ho. destruct u as [| | | | | |[|]|]; cbn; rewrite ?Hi, ?Ho; reflexivity.
Qed.

(** The queue reads nothing of the refs but the two transcription buffers. *)
Lemma next_ui_buffers (r r' : Refs) (s : App) :
  currentInputTranscriptionRef r' = currentInputTranscriptionRef r ->
  currentOutputTranscriptionRef r' = currentOutputTranscriptionRef r ->
  next_ui r' s = next_ui r s.
Proof.
  intros Hi Ho. unfold next_ui. generalize (ui s).
  induction (pending s) as [|u q IH]; intros st; [reflexivity|].
  cbn [fold_left]. rewrite (apply_update_buffers r r' st u Hi Ho). apply IH.
Qed.

(** C10.  [stopSession] leaves the transcript history alone, from every
    state: the history the component has rendered is the same after the
    call, the call queues no update of the history (the queued ones stay
    as they are), and whatever refs the queue is run with, it leads to the
    same history as before the call.  With the transcription buffers empty,
    as a completed turn leaves them, the history that the next render shows
    is the one it would have shown without the call.  The call ends the
    recording, so that with a history and in conversation mode the
    Summarize button is offered. *)
Theorem C10_stop_keeps_history (env : Env) (s : App) :
  exists s',
    stopSession env s = Returned s' /\
    transcriptHistory (ui s') = transcriptHistory (ui s) /\
    List.filter history_update (pending s') = List.filter history_update (pending s) /\
    (forall r, transcriptHistory (next_ui r s') = transcriptHistory (next_ui r s)) /\
    (currentInputTranscriptionRef (refs s) = EmptyString ->
     currentOutputTranscriptionRef (refs s) = EmptyString ->
     shown s' = shown s) /\
    summarizeShown (ui (render s'))
    = Nat.ltb 0 (length (shown s')) && bool_decide (mode (ui (render s')) = conversation).
Proof.
  exists (state_of (stopSession env s)).
  split; [apply stopSession_returns|].
  split; [rewrite stopSession_ui; reflexivity|].
  split; [apply stopSession_history_updates|].
  split; [intros r; rewrite stopSession_next_ui; reflexivity|].
  split.
  { intros Hi Ho. unfold shown. rewrite !ui_render, stopSession_next_ui.
    cbn [after_stop transcriptHistory].
    destruct (stopSession_torn_down env s) as (_ & _ & _ & _ & _ & _ & Hi' & Ho').
    rewrite (next_ui_buffers (refs s) (refs (state_of (stopSession env s))) s);
      [reflexivity | congruence | congruence]. }
  unfold summarizeShown, shown.
  rewrite !ui_render, stopSession_next_ui. cbn [after_stop isRecording negb].
  rewrite andb_true_r. reflexivity.
Qed.

Lemma C10_stop_keeps_history_witness :
  currentInputTranscriptionRef (refs (exec (events true one_turn) initial)) = EmptyString /\
  currentOutputTranscriptionRef (refs (exec (events true one_turn) initial)) = EmptyString /\
  exists s',
    stopSession (browser true) (exec (events true one_turn) initial) = Returned s' /\
    transcriptHistory (ui s')
    = transcriptHistory (ui (exec (events true one_turn) initial)) /\
    List.filter history_update (pending s')
    = List.filter history_update (pending (exec (events true one_turn) initial)) /\
    (forall r, transcriptHistory (next_ui r s')
               = transcriptHistory (next_ui r (exec (events true one_turn) initial))) /\
    (currentInputTranscriptionRef (refs (exec (events true one_turn) initial)) = EmptyString ->
     currentOutputTranscriptionRef (refs (exec (events true one_turn) initial)) = EmptyString ->
     shown s' = shown (exec (events true one_turn) initial)) /\
    summarizeShown (ui (render s'))
    = Nat.ltb 0 (length (shown s')) && bool_decide (mode (ui (render s')) = conversation).
Proof.
  split; [reflexivity|]. split; [reflexivity|].
  exact (C10_stop_keeps_history (browser true) (exec (events true one_turn) initial)).
Defined.

(* ===================================================================== *)
(** * The setter calls of the handlers *)
(* ===================================================================== *)

Section Dispatches.

Lemma dispatches_queue us s s1 s2 :
  dispatches us s s1 -> ui s2 = ui s1 -> pending s2 = pending s1 ->
  dispatches us s s2.
Proof.
  intros H Hu Hp.
  inversion H as [? ? Hu1 Hp1 | us0 u env ? s0 ? H0 Hu1 Hp1]; subst.
  - apply dispatches_nil; congruence.
  - apply (dispatches_snoc us0 u env s s0 s2 H0); congruence.
Qed.

Lemma dispatches_app us vs s s1 s2 :
  dispatches us s s1 -> dispatches vs s1 s2 -> dispatches (us ++ vs) s s2.
Proof.
  intros H1 H2. induction H2 as [s1 s2 Hu Hp | vs v env s1 s3 s2 H2 IH Hu Hp].
  - rewrite app_nil_r. eapply dispatches_queue; eassumption.
  - rewrite app_assoc. eapply dispatches_snoc; [apply IH, H1 | exact Hu | exact Hp].
Qed.

Lemma dispatches_refl s : dispatches [] s s.
Proof. apply dispatches_nil; reflexivity. Qed.

Lemma dispatches_one env u s : dispatches [u] s (dispatch env u s).
Proof.
  apply (dispatches_snoc [] u env s s); [apply dispatches_refl | reflexivity..].
Qed.

(** The speakers of the history do not depend on the refs the queue is run
    with: an updater reads the text of its entry there, not the speaker. *)
Lemma speakers_apply r r' st st' u :
  map speaker (transcriptHistory st) = map speaker (transcriptHistory st') ->
  map speaker (transcriptHistory (apply_update r st u))
  = map speaker (transcriptHistory (apply_update r' st' u)).
Proof.
  intros H. destruct u as [| | | | | |[|]|]; cbn; try exact H.
  - rewrite !map_app, H. reflexivity.
  - rewrite !map_app, H. reflexivity.
  - reflexivity.
Qed.

Lemma speakers_fold r r' us st st' :
  map speaker (transcriptHistory st) = map speaker (transcriptHistory st') ->
  map speaker (transcriptHistory (fold_left (apply_update r) us st))
  = map speaker (transcriptHistory (fold_left (apply_update r') us st')).
Proof.
  revert st st'. induction us as [|u us IH]; intros st st' H; [exact H|].
  cbn [fold_left]. apply IH, speakers_apply, H.
Qed.

Lemma speakers_any_refs r s :
  map speaker (transcriptHistory (next_ui r s)) = shown_speakers s.
Proof. unfold shown_speakers, shown, next_ui. cbn. apply speakers_fold. reflexivity. Qed.

Lemma speakers_apply_session r st u :
  session_update u ->
  map speaker (transcriptHistory (apply_update r st u))
  = map speaker (transcriptHistory st) ++ appends u.
Proof.
  destruct u as [| | | | | |[|]|]; cbn; intros H; try contradiction;
    rewrite ?app_nil_r, ?map_app; reflexivity.
Qed.

(** Setter calls of the session handlers add entries at the end of the
    history, one per updater, in the order of the calls. *)
Lemma dispatches_speakers us s s' :
  dispatches us s s' -> Forall session_update us ->
  shown_speakers s' = shown_speakers s ++ flat_map appends us.
Proof.
  induction 1 as [s s' Hu Hp | us u env s s1 s' H IH Hu Hp]; intros HF.
  - cbn. rewrite app_nil_r.
    rewrite <- (speakers_any_refs (refs s) s'), <- (speakers_any_refs (refs s) s).
    unfold next_ui. rewrite Hu, Hp. reflexivity.
  - apply Forall_app in HF as [HF Hu1]. inversion Hu1 as [|? ? Hsu _]; subst.
    rewrite flat_map_app. cbn [flat_map]. rewrite app_nil_r, app_assoc.
    rewrite <- IH by exact HF.
    rewrite <- (speakers_any_refs (refs s1) s'), <- (speakers_any_refs (refs s1) s1).
    assert (E : next_ui (refs s1) s' = next_ui (refs s1) (dispatch env u s1))
      by (unfold next_ui; rewrite Hu, Hp; reflexivity).
    rewrite E.
    destruct (history_update u) eqn:Ehu.
    + destruct u; try discriminate; try contradiction.
      rewrite next_ui_dispatch_updater. apply speakers_apply_session. exact I.
    + rewrite next_ui_dispatch by exact Ehu. apply speakers_apply_session, Hsu.
Qed.

Lemma mode_apply_session r st u :
  session_update u -> mode (apply_update r st u) = mode st.
Proof. destruct u; cbn; intros H; try contradiction; reflexivity. Qed.

(** They leave the mode alone. *)
Lemma dispatches_mode r us s s' :
  dispatches us s s' -> Forall session_update us ->
  mode (next_ui r s') = mode (next_ui r s).
Proof.
  induction 1 as [s s' Hu Hp | us u env s s1 s' H IH Hu Hp]; intros HF.
  - unfold next_ui. rewrite Hu, Hp. reflexivity.
  - apply Forall_app in HF as [HF Hu1]. inversion Hu1 as [|? ? Hsu _]; subst.
    rewrite <- IH by exact HF.
    assert (E : next_ui r s' = next_ui r (dispatch env u s1))
      by (unfold next_ui; rewrite Hu, Hp; reflexivity).
    rewrite E.
    destruct (history_update u) eqn:Ehu.
    + destruct u; try discriminate; try contradiction.
      rewrite next_ui_dispatch_updater. reflexivity.
    + rewrite next_ui_dispatch by exact Ehu. apply mode_apply_session, Hsu.
Qed.

End Dispatches.

Section HandlerDispatches.

Lemma dispatches_after_refs us f s t :
  dispatches us s t -> dispatches us s (with_refs f t).
Proof. intros H. eapply dispatches_queue; [exact H | reflexivity..]. Qed.

Lemma dispatches_after_world us f s t :
  dispatches us s t -> dispatches us s (with_world f t).
Proof. intros H. eapply dispatches_queue; [exact H | reflexivity..]. Qed.

Lemma dispatches_after_dispatch us env u s t :
  dispatches us s t -> dispatches (us ++ [u]) s (dispatch env u t).
Proof. intros H. eapply dispatches_snoc; [exact H | reflexivity..]. Qed.

End HandlerDispatches.

Ltac unassign_keep :=
  unfold assign_sessionPromiseRef, assign_inputAudioContextRef,
    assign_outputAudioContextRef, assign_mediaStreamRef,
    assign_scriptProcessorRef, assign_mediaStreamSourceRef,
    assign_currentInputTranscriptionRef, assign_currentOutputTranscriptionRef,
    assign_nextStartTimeRef, assign_audioSourcesRef,
    world_contexts, world_sources, world_stopped, world_ended, world_streams,
    world_nodes, world_sessions, world_micRequests, console_error, stop_all.

Ltac disp :=
  unassign_keep; unset;
  repeat first
    [ apply dispatches_refl
    | apply dispatches_after_refs
    | apply dispatches_after_world
    | eapply dispatches_after_dispatch ].

(** A handler that appends nothing to the history. *)
Ltac quiet :=
  eexists; split; [disp | split; [repeat constructor | reflexivity]].

Section Handlers.

Lemma stopSession_dispatches (env : Env) (s : App) :
  dispatches
    [SetIsRecording false; SetStatus idle;
     SetCurrentUserTranscript EmptyString; SetCurrentAiTranscript EmptyString]
    s (state_of (stopSession env s)).
Proof.
  rewrite stopSession_state.
  destruct (stop_blocks_queue (setStatus env idle (setIsRecording env false s)))
    as [Hu Hp].
  cbv zeta in Hu, Hp. revert Hu Hp.
  generalize (state_of (stop_closeOutput
      (state_of (stop_closeInput
         (stop_disconnectSource
            (stop_disconnectProcessor
               (stop_releaseTracks
                  (stop_closeSession
                     (setStatus env idle (setIsRecording env false s)))))))))).
  intros s8 Hu Hp.
  enough (H : exists us,
             dispatches us s (stop_clearTranscripts env s8) /\
             us = [SetIsRecording false; SetStatus idle;
                   SetCurrentUserTranscript EmptyString; SetCurrentAiTranscript EmptyString])
    by (destruct H as (us & H & ->); exact H).
  eexists. split.
  - unfold stop_clearTranscripts.
    eapply dispatches_app;
      [eapply dispatches_queue; [|exact Hu | exact Hp]; disp | disp].
  - reflexivity.
Qed.

Lemma stopSession_quiet (env : Env) (s : App) :
  exists us, dispatches us s (state_of (stopSession env s)) /\
             Forall session_update us /\ flat_map appends us = [].
Proof.
  eexists. split; [apply stopSession_dispatches|].
  split; [repeat constructor | reflexivity].
Qed.

Lemma startSession_quiet (env : Env) (s : App) :
  exists us, dispatches us s (state_of (startSession env s)) /\
             Forall session_update us /\ flat_map appends us = [].
Proof.
  unfold startSession, start_open.
  destruct (key_missing env); [|destruct (micGranted env)];
    cbn [state_of]; quiet.
Qed.

Lemma onopen_quiet (env : Env) (s : App) :
  exists us, dispatches us s (state_of (onopen env s)) /\
             Forall session_update us /\ flat_map appends us = [].
Proof.
  unfold onopen. cbv zeta.
  destruct (inputAudioContextRef (refs (setStatus env listening s)));
    [destruct (mediaStreamRef (refs (setStatus env listening s)))|];
    cbn [state_of]; quiet.
Qed.

Lemma onerror_quiet (env : Env) (s : App) :
  exists us, dispatches us s (state_of (onerror env s)) /\
             Forall session_update us /\ flat_map appends us = [].
Proof.
  unfold onerror. cbv zeta. eexists. split.
  - eapply dispatches_app; [|apply stopSession_dispatches]. disp.
  - split; [repeat constructor | reflexivity].
Qed.

Lemma onended_quiet (env : Env) (i : nat) (s : App) :
  exists us, dispatches us s (onended env i s) /\
             Forall session_update us /\ flat_map appends us = [].
Proof.
  unfold onended. cbv zeta.
  match goal with |- context [if ?b then _ else _] => destruct b end; quiet.
Qed.

Lemma message_input_quiet (env : Env) (m : LiveServerMessage) (s : App) :
  exists us, dispatches us s (message_input env m s) /\
             Forall session_update us /\ flat_map appends us = [].
Proof.
  unfold message_input. destruct (inputTranscription m); cbv zeta; quiet.
Qed.

Lemma message_output_quiet (md : AppMode) (env : Env) (m : LiveServerMessage) (s : App) :
  exists us, dispatches us s (message_output md env m s) /\
             Forall session_update us /\ flat_map appends us = [].
Proof.
  unfold message_output. destruct (outputTranscription m); [destruct md|];
    cbv zeta; quiet.
Qed.

Lemma message_audio_quiet (md : AppMode) (env : Env) (m : LiveServerMessage) (s : App) :
  dispatches [] s (state_of (message_audio md env m s)).
Proof.
  unfold message_audio, schedule.
  destruct (modelTurnPart m) as [| |data]; cbn [state_of]; try apply dispatches_refl.
  destruct (JS.truthy data); [|apply dispatches_refl].
  destruct (outputAudioContextRef (refs s)); [|apply dispatches_refl].
  destruct md; [|apply dispatches_refl].
  cbv zeta. destruct (Codec.decodeInbound data 24000 1); cbn [state_of]; disp.
Qed.

(** The turn-complete branch calls the history setter at most twice, for
    the user first and for the assistant second, under the conditions of
    the specification. *)
Lemma message_turnComplete_dispatches (md : AppMode) (env : Env)
    (m : LiveServerMessage) (s : App) :
  exists us,
    dispatches us s (message_turnComplete md env m s) /\
    Forall session_update us /\
    flat_map appends us
    = if turnComplete m
      then map speaker (finalized md (currentInputTranscriptionRef (refs s))
                                     (currentOutputTranscriptionRef (refs s)))
      else [].
Proof.
  unfold message_turnComplete, finalized.
  destruct (turnComplete m); [|quiet].
  cbv zeta.
  destruct (JS.truthy (JS.trim (currentInputTranscriptionRef (refs s)))) eqn:Ein.
  - rewrite (dispatch_refs env (SetTranscriptHistory AppendUserEntry) s
               : refs (setTranscriptHistory env AppendUserEntry s) = refs s).
    destruct (JS.truthy (JS.trim (currentOutputTranscriptionRef (refs s)))
              && bool_decide (md = conversation)); quiet.
  - destruct (JS.truthy (JS.trim (currentOutputTranscriptionRef (refs s)))
              && bool_decide (md = conversation)); quiet.
Qed.

End Handlers.

Section Steps.

Lemma finalized_speakers (md : AppMode) (i o : string) :
  map speaker (finalized md i o)
  = turn_speakers (JS.truthy (JS.trim i))
                  (JS.truthy (JS.trim o) && bool_decide (md = conversation)).
Proof.
  unfold finalized, turn_speakers.
  destruct (JS.truthy (JS.trim i)),
           (JS.truthy (JS.trim o) && bool_decide (md = conversation));
    reflexivity.
Qed.

Lemma onmessage_dispatches (md : AppMode) (env : Env) (m : LiveServerMessage) (s : App) :
  exists us,
    dispatches us s (state_of (onmessage md env m s)) /\
    Forall session_update us /\
    flat_map appends us
    = map speaker
        match message_audio md env m (message_output md env m (message_input env m s)) with
        | Returned s3 =>
            if turnComplete m
            then finalized md (currentInputTranscriptionRef (refs s3))
                              (currentOutputTranscriptionRef (refs s3))
            else []
        | Threw _ => []
        end.
Proof.
  unfold onmessage. cbv zeta.
  destruct (message_input_quiet env m s) as (us1 & D1 & F1 & A1).
  revert D1. generalize (message_input env m s). intros s1 D1.
  destruct (message_output_quiet md env m s1) as (us2 & D2 & F2 & A2).
  revert D2. generalize (message_output md env m s1). intros s2 D2.
  pose proof (message_audio_quiet md env m s2) as D3.
  destruct (message_audio md env m s2) as [s3|s3]; cbn [and_then state_of] in *.
  - destruct (message_turnComplete_dispatches md env m s3) as (us4 & D4 & F4 & A4).
    exists (((us1 ++ us2) ++ []) ++ us4). split; [|split].
    + repeat (eapply dispatches_app; [|eassumption]). exact D1.
    + repeat (apply Forall_app; split); auto.
    + rewrite !flat_map_app, A1, A2, A4. cbn. destruct (turnComplete m); reflexivity.
  - exists ((us1 ++ us2) ++ []). split; [|split].
    + repeat (eapply dispatches_app; [|eassumption]). exact D1.
    + repeat (apply Forall_app; split); auto.
    + rewrite !flat_map_app, A1, A2. reflexivity.
Qed.

Lemma shown_speakers_render (s : App) : shown_speakers (render s) = shown_speakers s.
Proof. reflexivity. Qed.

Lemma shown_speakers_quiet (s s' : App) :
  (exists us, dispatches us s s' /\ Forall session_update us /\
              flat_map appends us = []) ->
  shown_speakers s' = shown_speakers s ++ turn_speakers false false.
Proof.
  intros (us & D & F & A).
  rewrite (dispatches_speakers us s s' D F), A. reflexivity.
Qed.

Lemma shown_speakers_setMode env m s :
  shown_speakers (setMode env m s) = shown_speakers s.
Proof.
  rewrite <- (speakers_any_refs (refs s) (setMode env m s)),
          <- (speakers_any_refs (refs s) s).
  unfold setMode. rewrite next_ui_dispatch by reflexivity. reflexivity.
Qed.

Lemma shown_speakers_same (s s' : App) :
  (exists us, dispatches us s s' /\ Forall session_update us /\
              flat_map appends us = []) ->
  shown_speakers s' = shown_speakers s ++ map speaker [].
Proof. apply shown_speakers_quiet. Qed.

(** One event adds to the history what the specification has it add, after
    every entry that is there, as far as the speakers go. *)
Lemma step_speakers (env : Env) (e : Event) (s : App) :
  shown_speakers (step env e s)
  = shown_speakers s ++ map speaker (turn_added env e s).
Proof.
  destruct e as [| |m|i|i msg|i|i|i|]; cbn [step turn_added].
  - rewrite shown_speakers_render. symmetry. apply app_nil_r.
  - unfold handleToggleConversation.
    destruct (isRecording (ui s)); apply shown_speakers_same;
      [apply stopSession_quiet | apply startSession_quiet].
  - unfold onClickMode.
    destruct (negb (isRecording (ui s)));
      [rewrite shown_speakers_setMode|]; symmetry; apply app_nil_r.
  - destruct (sessions (world s) !! i);
      [apply shown_speakers_same, onopen_quiet | symmetry; apply app_nil_r].
  - destruct (sessions (world s) !! i) as [x|].
    + destruct (onmessage_dispatches (sessMode x) env msg s) as (us & D & F & A).
      rewrite (dispatches_speakers us s _ D F), A. reflexivity.
    + symmetry; apply app_nil_r.
  - destruct (sessions (world s) !! i);
      [apply shown_speakers_same, onerror_quiet | symmetry; apply app_nil_r].
  - destruct (sessions (world s) !! i);
      [apply shown_speakers_same, stopSession_quiet | symmetry; apply app_nil_r].
  - destruct (sources (world s) !! i);
      [|symmetry; apply app_nil_r].
    destruct (existsb (Nat.eqb i) (ended (world s))); [symmetry; apply app_nil_r|].
    apply shown_speakers_same.
    destruct (onended_quiet env i (world_ended (ended (world s) ++ [i]) s))
      as (us & D & F & A).
    exists us. split; [|split; assumption].
    eapply dispatches_app with (us := []); [|exact D].
    apply dispatches_after_world, dispatches_refl.
  - apply shown_speakers_same, stopSession_quiet.
Qed.

Lemma turn_added_shape (env : Env) (e : Event) (s : App) :
  exists u a, map speaker (turn_added env e s) = turn_speakers u a.
Proof.
  unfold turn_added.
  destruct e; try (exists false, false; reflexivity).
  destruct (sessions (world s) !! session); [|exists false, false; reflexivity].
  destruct (message_audio _ _ _ _); [|exists false, false; reflexivity].
  destruct (turnComplete message); [|exists false, false; reflexivity].
  eexists _, _. apply finalized_speakers.
Qed.

Lemma run_speakers (tr : list (Env * Event)) (s : App) :
  shown_speakers (exec tr s) = shown_speakers s ++ map speaker (run_added tr s).
Proof.
  revert s. induction tr as [|[env e] tr IH]; intros s.
  - cbn. symmetry. apply app_nil_r.
  - cbn [exec run_added]. rewrite IH, step_speakers, map_app, app_assoc.
    reflexivity.
Qed.

Lemma dispatches_ui us s s' : dispatches us s s' -> ui s' = ui s.
Proof.
  induction 1 as [s s' Hu Hp | us u env s s1 s' H IH Hu Hp]; [exact Hu|].
  rewrite Hu, dispatch_ui. exact IH.
Qed.

Lemma session_handler_update (u : Update) : session_update u -> handler_update u.
Proof. destruct u; cbn; tauto. Qed.

Lemma queue_ok_same (s s' : App) :
  ui s' = ui s -> pending s' = pending s -> queue_ok s -> queue_ok s'.
Proof. intros Hu Hp. unfold queue_ok. rewrite Hu, Hp. exact (fun H => H). Qed.

Lemma queue_ok_dispatch (env : Env) (u : Update) (s : App) :
  handler_update u -> queue_ok s -> queue_ok (dispatch env u s).
Proof.
  intros Hu Hq. unfold queue_ok, dispatch in *.
  destruct (pending s) as [|u0 q] eqn:Hp.
  - destruct (eager env).
    + destruct (same_state u (ui s)).
      * rewrite Hp. exact I.
      * unfold enqueue. cbn [pending ui]. rewrite Hp. cbn [app].
        split; [constructor|].
        destruct u as [| | | | | |f|h]; cbn [computed]; try exact I;
          try contradiction.
        destruct f; eexists; reflexivity.
    + unfold enqueue. cbn [pending ui]. rewrite Hp. cbn [app].
      split; [constructor|].
      destruct u; try exact I; contradiction.
  - unfold enqueue. cbn [pending ui]. rewrite Hp. cbn [app].
    destruct Hq as [Hq H0]. split; [|exact H0].
    apply Forall_app. split; [exact Hq|]. constructor; [exact Hu | constructor].
Qed.

Lemma queue_ok_dispatches us s s' :
  dispatches us s s' -> Forall handler_update us -> queue_ok s -> queue_ok s'.
Proof.
  induction 1 as [s s' Hu Hp | us u env s s1 s' H IH Hu Hp]; intros HF Hq.
  - eapply queue_ok_same; eassumption.
  - apply Forall_app in HF as [HF Hu1]. inversion Hu1 as [|? ? Hu0 _]; subst.
    eapply queue_ok_same; [exact Hu | exact Hp|].
    apply queue_ok_dispatch; [exact Hu0 | apply IH; assumption].
Qed.

Lemma quiet_dispatches (s s' : App) :
  (exists us, dispatches us s s' /\ Forall session_update us /\
              flat_map appends us = []) ->
  exists us, dispatches us s s' /\ Forall handler_update us.
Proof.
  intros (us & D & F & _). exists us. split; [exact D|].
  eapply Forall_impl; [exact F | apply session_handler_update].
Qed.

(** Every event but a render comes to a sequence of setter calls. *)
Lemma step_dispatches (env : Env) (e : Event) (s : App) :
  e <> Render ->
  exists us, dispatches us s (step env e s) /\ Forall handler_update us.
Proof.
  intros He.
  assert (Hnone : exists us, dispatches us s s /\ Forall handler_update us)
    by (exists []; split; [apply dispatches_refl | constructor]).
  destruct e as [| |m|i|i msg|i|i|i|]; cbn [step].
  - contradiction.
  - unfold handleToggleConversation.
    destruct (isRecording (ui s)); apply quiet_dispatches;
      [apply stopSession_quiet | apply startSession_quiet].
  - unfold onClickMode. destruct (negb (isRecording (ui s))); [|exact Hnone].
    exists [SetMode m]. split; [apply dispatches_one | repeat constructor].
  - destruct (sessions (world s) !! i); [|exact Hnone].
    apply quiet_dispatches, onopen_quiet.
  - destruct (sessions (world s) !! i) as [x|]; [|exact Hnone].
    destruct (onmessage_dispatches (sessMode x) env msg s) as (us & D & F & _).
    exists us. split; [exact D|].
    eapply Forall_impl; [exact F | apply session_handler_update].
  - destruct (sessions (world s) !! i); [|exact Hnone].
    apply quiet_dispatches, onerror_quiet.
  - destruct (sessions (world s) !! i); [|exact Hnone].
    apply quiet_dispatches, stopSession_quiet.
  - destruct (sources (world s) !! i); [|exact Hnone].
    destruct (existsb (Nat.eqb i) (ended (world s))); [exact Hnone|].
    apply quiet_dispatches.
    destruct (onended_quiet env i (world_ended (ended (world s) ++ [i]) s))
      as (us & D & F & A).
    exists us. split; [|split; assumption].
    eapply dispatches_app with (us := []); [|exact D].
    apply dispatches_after_world, dispatches_refl.
  - apply quiet_dispatches, stopSession_quiet.
Qed.

Lemma event_render_or_not (e : Event) : e = Render \/ e <> Render.
Proof. destruct e; try (right; discriminate). left. reflexivity. Qed.

Lemma queue_ok_step (env : Env) (e : Event) (s : App) :
  queue_ok s -> queue_ok (step env e s).
Proof.
  intros Hq. destruct (event_render_or_not e) as [->|He].
  - exact I.
  - destruct (step_dispatches env e s He) as (us & D & F).
    eapply queue_ok_dispatches; eassumption.
Qed.

Lemma queue_ok_exec (tr : list (Env * Event)) (s : App) :
  queue_ok s -> queue_ok (exec tr s).
Proof.
  revert s. induction tr as [|[env e] tr IH]; intros s Hq; [exact Hq|].
  cbn [exec]. apply IH, queue_ok_step, Hq.
Qed.

Lemma history_extends_apply (r : Refs) (st : UiState) (u : Update) :
  handler_update u ->
  exists l, transcriptHistory (apply_update r st u) = transcriptHistory st ++ l.
Proof.
  destruct u as [| | | | | |[|]|]; cbn; intros H; try contradiction;
    try (exists []; symmetry; apply app_nil_r); eexists; reflexivity.
Qed.

Lemma history_extends_fold (r : Refs) (q : list Update) (st : UiState) :
  Forall handler_update q ->
  exists l, transcriptHistory (fold_left (apply_update r) q st)
            = transcriptHistory st ++ l.
Proof.
  revert st. induction q as [|u q IH]; intros st HF.
  - exists []. symmetry. apply app_nil_r.
  - inversion HF as [|? ? Hu Hq]; subst. cbn [fold_left].
    destruct (IH (apply_update r st u) Hq) as (l2 & ->).
    destruct (history_extends_apply r st u Hu) as (l1 & ->).
    exists (l1 ++ l2). symmetry. apply app_assoc.
Qed.

(** A render leaves every entry it has rendered before where it is. *)
Lemma render_extends (s : App) :
  queue_ok s ->
  exists l, transcriptHistory (ui (render s)) = transcriptHistory (ui s) ++ l.
Proof.
  unfold queue_ok. rewrite ui_render. unfold next_ui.
  destruct (pending s) as [|u q]; intros Hq.
  - exists []. symmetry. apply app_nil_r.
  - destruct Hq as [Hq Hu]. cbn [fold_left].
    destruct (history_extends_fold (refs s) q (apply_update (refs s) (ui s) u) Hq)
      as (l2 & ->).
    assert (H1 : exists l1, transcriptHistory (apply_update (refs s) (ui s) u)
                            = transcriptHistory (ui s) ++ l1).
    { destruct u as [| | | | | |f|h];
        try (apply history_extends_apply; exact I).
      destruct Hu as (e & ->). exists [e]. reflexivity. }
    destruct H1 as (l1 & ->). exists (l1 ++ l2). symmetry. apply app_assoc.
Qed.

Lemma step_extends (env : Env) (e : Event) (s : App) :
  queue_ok s ->
  exists l, transcriptHistory (ui (step env e s)) = transcriptHistory (ui s) ++ l.
Proof.
  intros Hq. destruct (event_render_or_not e) as [->|He].
  - apply render_extends, Hq.
  - destruct (step_dispatches env e s He) as (us & D & _).
    rewrite (dispatches_ui us s _ D). exists []. symmetry. apply app_nil_r.
Qed.

Lemma exec_extends (tr : list (Env * Event)) (s : App) :
  queue_ok s ->
  exists l, transcriptHistory (ui (exec tr s)) = transcriptHistory (ui s) ++ l.
Proof.
  revert s. induction tr as [|[env e] tr IH]; intros s Hq.
  - exists []. symmetry. apply app_nil_r.
  - cbn [exec].
    destruct (IH (step env e s) (queue_ok_step env e s Hq)) as (l2 & ->).
    destruct (step_extends env e s Hq) as (l1 & ->).
    exists (l1 ++ l2). symmetry. apply app_assoc.
Qed.

Lemma exec_app (tr tr' : list (Env * Event)) (s : App) :
  exec (tr ++ tr') s = exec tr' (exec tr s).
Proof.
  revert s. induction tr as [|[env e] tr IH]; intros s; [reflexivity|].
  cbn [app exec]. apply IH.
Qed.

(** C8.  Along every run, from every state, the history that is shown
    grows only at its end, turn by turn: its speakers are those of the
    history before the run, followed by those of the entries the first
    completed turn is to add, then those of the second, and so on, in the
    order in which the turns completed; what one turn adds is a user entry,
    if any, followed by an assistant entry, if any; and an entry that has
    been rendered stays where it is, as it is, however the run goes on. *)
Theorem C8_history_order (tr : list (Env * Event)) (s : App) :
  shown_speakers (exec tr s) = shown_speakers s ++ map speaker (run_added tr s)
  /\ (forall env e s0,
        exists u a, map speaker (turn_added env e s0) = turn_speakers u a)
  /\ (forall tr',
        exists l,
          transcriptHistory (ui (exec (tr ++ tr') initial))
          = transcriptHistory (ui (exec tr initial)) ++ l).
Proof.
  split; [apply run_speakers|].
  split; [intros; apply turn_added_shape|].
  intros tr'. rewrite exec_app. apply exec_extends, queue_ok_exec. exact I.
Qed.

End Steps.

(* ===================================================================== *)
(** * Mode switching: C7 *)
(* ===================================================================== *)

Section Mode.

Lemma mode_apply r r' st st' u :
  mode st = mode st' -> mode (apply_update r st u) = mode (apply_update r' st' u).
Proof. intros H. destruct u; cbn; try exact H; reflexivity. Qed.

Lemma mode_fold r r' us st st' :
  mode st = mode st' ->
  mode (fold_left (apply_update r) us st) = mode (fold_left (apply_update r') us st').
Proof.
  revert st st'. induction us as [|u us IH]; intros st st' H; [exact H|].
  cbn [fold_left]. apply IH, mode_apply, H.
Qed.

Lemma mode_any_refs r r' s : mode (next_ui r s) = mode (next_ui r' s).
Proof. unfold next_ui. apply mode_fold. reflexivity. Qed.

Lemma mode_click_or_not (e : Event) :
  (exists m, e = ClickMode m) \/ (forall m, e <> ClickMode m).
Proof. destruct e; try (right; intros; discriminate). left. eexists. reflexivity. Qed.

Lemma mode_quiet (s s' : App) :
  (exists us, dispatches us s s' /\ Forall session_update us /\
              flat_map appends us = []) ->
  mode (ui (render s')) = mode (ui (render s)).
Proof.
  intros (us & D & F & _). rewrite !ui_render.
  rewrite (dispatches_mode (refs s') us s s' D F). apply mode_any_refs.
Qed.

(** No event but a click on a mode button changes the mode. *)
Lemma step_mode (env : Env) (e : Event) (s : App) :
  (forall m, e <> ClickMode m) ->
  mode (ui (render (step env e s))) = mode (ui (render s)).
Proof.
  intros He.
  destruct e as [| |m|i|i msg|i|i|i|]; cbn [step].
  - reflexivity.
  - unfold handleToggleConversation.
    destruct (isRecording (ui s)); apply mode_quiet;
      [apply stopSession_quiet | apply startSession_quiet].
  - destruct (He m eq_refl).
  - destruct (sessions (world s) !! i); [apply mode_quiet, onopen_quiet | reflexivity].
  - destruct (sessions (world s) !! i) as [x|]; [|reflexivity].
    destruct (onmessage_dispatches (sessMode x) env msg s) as (us & D & F & A).
    rewrite !ui_render.
    rewrite (dispatches_mode _ us s _ D F). apply mode_any_refs.
  - destruct (sessions (world s) !! i); [apply mode_quiet, onerror_quiet | reflexivity].
  - destruct (sessions (world s) !! i); [apply mode_quiet, stopSession_quiet | reflexivity].
  - destruct (sources (world s) !! i); [|reflexivity].
    destruct (existsb (Nat.eqb i) (ended (world s))); [reflexivity|].
    apply mode_quiet.
    destruct (onended_quiet env i (world_ended (ended (world s) ++ [i]) s))
      as (us & D & F & A).
    exists us. split; [|split; assumption].
    eapply dispatches_app with (us := []); [|exact D].
    apply dispatches_after_world, dispatches_refl.
  - apply mode_quiet, stopSession_quiet.
Qed.

(** C7 (as amended).  While the component is recording, that is while the
    rendered [isRecording] flag is set, a click on a mode button does
    nothing at all, and whatever event comes, the mode that the next render
    shows is the mode it would have shown. *)
Theorem C7_mode_fixed_while_recording (env : Env) (s : App) :
  isRecording (ui s) = true ->
  (forall m, onClickMode env m s = s) /\
  (forall e, mode (ui (render (step env e s))) = mode (ui (render s))).
Proof.
  intros Hrec. split.
  - intros m. unfold onClickMode. rewrite Hrec. reflexivity.
  - intros e. destruct (mode_click_or_not e) as [[m ->]|He].
    + cbn [step]. unfold onClickMode. rewrite Hrec. reflexivity.
    + apply step_mode, He.
Qed.

End Mode.

(* ===================================================================== *)
(** * What every reachable state satisfies *)
(* ===================================================================== *)

Section Consistency.

Local Open Scope Q_scope.

Lemma consistent_playback (s s' : App) :
  playback_view s' = playback_view s -> consistent s -> consistent s'.
Proof.
  unfold playback_view. intros H C.
  inversion H as [[Hi Ho Hs Hn Hc Hsrc]].
  destruct C as [C1 C2 C3 C4 C5 C6 C7 C8].
  constructor; unfold session_sources in *;
    rewrite ?Hi, ?Ho, ?Hs, ?Hn, ?Hc, ?Hsrc; assumption.
Qed.

Lemma playback_dispatch env u s : playback_view (dispatch env u s) = playback_view s.
Proof. unfold playback_view. rewrite dispatch_refs, dispatch_world. reflexivity. Qed.

Lemma consistent_dispatch env u s : consistent s -> consistent (dispatch env u s).
Proof. apply consistent_playback, playback_dispatch. Qed.

Lemma consistent_initial : consistent initial.
Proof.
  constructor; cbn; try discriminate; try tauto; try constructor.
Qed.

Lemma consistent_render s : consistent s -> consistent (render s).
Proof. apply consistent_playback. reflexivity. Qed.

Lemma duration_nonneg (b : Codec.AudioBuffer) : 0 <= Codec.duration b.
Proof. unfold Codec.duration, Qle. cbn. lia. Qed.

Lemma sequenced_snoc (l : list PlaybackSource) (x : PlaybackSource) :
  sequenced l ->
  Forall (fun a => source_end a <= srcStart x) l ->
  sequenced (l ++ [x]).
Proof.
  intros Hl Hx n a b Ha Hb.
  destruct (decide (S n < length l)%nat) as [Hlt|Hge].
  - rewrite lookup_app_l in Ha by lia. rewrite lookup_app_l in Hb by lia.
    eapply Hl; eassumption.
  - assert (Hn : (n < length l)%nat).
    { apply lookup_lt_Some in Hb. rewrite length_app in Hb. cbn in Hb. lia. }
    rewrite lookup_app_l in Ha by lia.
    rewrite lookup_app_r in Hb by lia.
    replace (S n - length l)%nat with 0%nat in Hb by lia.
    cbn in Hb. injection Hb as <-.
    rewrite Forall_forall in Hx. apply Hx.
    eapply list_elem_of_lookup_2, Ha.
Qed.


Lemma audio_view_fields (s s' : App) :
  audio_view s' = audio_view s ->
  inputAudioContextRef (refs s') = inputAudioContextRef (refs s) /\
  outputAudioContextRef (refs s') = outputAudioContextRef (refs s) /\
  audioSourcesRef (refs s') = audioSourcesRef (refs s) /\
  nextStartTimeRef (refs s') = nextStartTimeRef (refs s) /\
  contexts (world s') = contexts (world s) /\
  sources (world s') = sources (world s) /\
  stopped (world s') = stopped (world s).
Proof. unfold audio_view. intros H. repeat split; congruence. Qed.

(** What [stopSession] does to playback, from a consistent state: every
    source of the active set is stopped and the set emptied, the two
    contexts are closed and their refs emptied; the cursor and the schedule
    stay. *)
Lemma stopSession_playback (env : Env) (s : App) :
  consistent s ->
  let s' := state_of (stopSession env s) in
  inputAudioContextRef (refs s') = None /\
  outputAudioContextRef (refs s') = None /\
  audioSourcesRef (refs s') = [] /\
  nextStartTimeRef (refs s') = nextStartTimeRef (refs s) /\
  sources (world s') = sources (world s) /\
  length (contexts (world s')) = length (contexts (world s)) /\
  (forall c, inputAudioContextRef (refs s) = Some c \/
             outputAudioContextRef (refs s) = Some c ->
             contexts (world s') !! c = Some closed) /\
  (forall i, In i (audioSourcesRef (refs s)) -> In i (stopped (world s'))).
Proof.
  intros C s'. subst s'. rewrite stopSession_state.
  (* the two setter calls, then session, tracks and capture graph *)
  assert (H6 : exists s6,
             stop_disconnectSource
               (stop_disconnectProcessor
                  (stop_releaseTracks
                     (stop_closeSession
                        (setStatus env idle (setIsRecording env false s))))) = s6 /\
             inputAudioContextRef (refs s6) = inputAudioContextRef (refs s) /\
             outputAudioContextRef (refs s6) = outputAudioContextRef (refs s) /\
             audioSourcesRef (refs s6) = audioSourcesRef (refs s) /\
             nextStartTimeRef (refs s6) = nextStartTimeRef (refs s) /\
             contexts (world s6) = contexts (world s) /\
             sources (world s6) = sources (world s) /\
             stopped (world s6) = stopped (world s)).
  { eexists. split; [reflexivity|].
    destruct (stop_release_view (setStatus env idle (setIsRecording env false s)))
      as [Hv _].
    cbv zeta in Hv. apply audio_view_fields in Hv.
    destruct Hv as (A1 & A2 & A3 & A4 & A5 & A6 & A7).
    unfold setStatus, setIsRecording in *.
    rewrite !dispatch_refs, !dispatch_world in *.
    repeat split; assumption. }
  destruct H6 as (s6 & -> & Hi & Ho & Hs & Hn & Hc & Hsrc & Hst).
  destruct C as [C1 C2 C3 C4 C5 C6 C7 C8].
  unfold stop_clearTranscripts, setCurrentAiTranscript, setCurrentUserTranscript.
  proj. rewrite !dispatch_refs, !dispatch_world.
  destruct (inputAudioContextRef (refs s)) as [ci|] eqn:Ei.
  - destruct (outputAudioContextRef (refs s)) as [co|] eqn:Eo;
      [|destruct C4 as [_ C4]; specialize (C4 eq_refl); discriminate].
    specialize (C1 ci eq_refl). specialize (C2 co eq_refl).
    specialize (C3 ci co eq_refl eq_refl).
    destruct (stop_closeInput_cases s6)
      as [[Hn6 _]|[(c & Hc6 & Hcl & _)|(c & Hc6 & Hrun & ->)]].
    + congruence.
    + exfalso. assert (c = ci) by congruence. subst c.
      unfold context_state in Hcl. rewrite Hc, C1 in Hcl. discriminate.
    + assert (c = ci) by congruence. subst c. clear Hc6 Hrun.
      destruct (stop_closeOutput_cases
                  (assign_inputAudioContextRef None
                     (world_contexts (<[ci:=closed]> (contexts (world s6))) s6)))
        as [[Hn7 _]|[(c & Hc7 & Hcl & _)|(c & Hc7 & Hrun & ->)]]; proj.
      * congruence.
      * exfalso. assert (c = co) by congruence. subst c.
        unfold context_state in Hcl. proj.
        rewrite list_lookup_insert_ne, Hc, C2 in Hcl by congruence. discriminate.
      * assert (c = co) by congruence. subst c.
        rewrite Hc, Hs, Hst, Hn, Hsrc.
        repeat split; try reflexivity.
        -- rewrite !length_insert. reflexivity.
        -- intros c [[= <-]|[= <-]].
           ++ rewrite list_lookup_insert_ne by congruence.
              apply list_lookup_insert_eq. eapply lookup_lt_Some, C1.
           ++ apply list_lookup_insert_eq. rewrite length_insert.
              eapply lookup_lt_Some, C2.
        -- intros i Hin. apply in_or_app. right. exact Hin.
  - destruct (outputAudioContextRef (refs s)) as [co|] eqn:Eo;
      [destruct C4 as [C4 _]; specialize (C4 eq_refl); discriminate|].
    specialize (C5 eq_refl).
    destruct (stop_closeInput_cases s6)
      as [[Hn6 ->]|[(c & Hc6 & _)|(c & Hc6 & _)]]; [|congruence..].
    destruct (stop_closeOutput_cases s6)
      as [[Hn7 ->]|[(c & Hc7 & _)|(c & Hc7 & _)]]; [|congruence..].
    rewrite Hi, Ho, Hs, Hn, Hc, Hsrc, C5.
    repeat split; try reflexivity.
    + intros c [H|H]; discriminate.
    + intros i [].
Qed.

Lemma consistent_stopSession (env : Env) (s : App) :
  consistent s -> consistent (state_of (stopSession env s)).
Proof.
  intros C.
  destruct (stopSession_playback env s C) as (Hi & Ho & Hs & Hn & Hsrc & Hlen & _).
  destruct C as [C1 C2 C3 C4 C5 C6 C7 C8].
  constructor; unfold session_sources; rewrite ?Hi, ?Ho, ?Hs, ?Hsrc, ?Hlen;
    try discriminate; try tauto.
Qed.


Lemma start_open_playback (env : Env) (s : App) :
  let n := length (contexts (world s)) in
  inputAudioContextRef (refs (start_open env s)) = Some n /\
  outputAudioContextRef (refs (start_open env s)) = Some (S n) /\
  audioSourcesRef (refs (start_open env s)) = audioSourcesRef (refs s) /\
  nextStartTimeRef (refs (start_open env s)) = 0 /\
  contexts (world (start_open env s))
  = (contexts (world s) ++ [running]) ++ [running] /\
  sources (world (start_open env s)) = sources (world s).
Proof.
  unfold start_open. proj.
  rewrite length_app. cbn [length]. rewrite Nat.add_1_r.
  repeat split; reflexivity.
Qed.

Lemma consistent_start_open (env : Env) (s : App) :
  consistent s -> consistent (start_open env s).
Proof.
  intros [C1 C2 C3 C4 C5 C6 C7 C8].
  destruct (start_open_playback env s) as (Hi & Ho & Hs & Hn & Hc & Hsrc).
  constructor; unfold session_sources;
    rewrite ?Hi, ?Ho, ?Hs, ?Hn, ?Hc, ?Hsrc.
  - intros c [= <-]. rewrite lookup_app_l by (rewrite length_app; cbn; lia).
    rewrite lookup_app_r by lia. rewrite Nat.sub_diag. reflexivity.
  - intros c [= <-]. rewrite lookup_app_r by (rewrite length_app; cbn; lia).
    rewrite length_app. cbn [length].
    replace (S (length (contexts (world s))) - (length (contexts (world s)) + 1))%nat
      with 0%nat by lia.
    reflexivity.
  - intros ci co [= <-] [= <-]. lia.
  - split; discriminate.
  - discriminate.
  - eapply Forall_impl; [exact C6|]. cbn. intros src Hlt.
    rewrite !length_app. cbn. lia.
  - intros c [= <-]. eapply Forall_impl; [exact C6|]. cbn. intros src Hlt He. lia.
  - exact C8.
Qed.

Lemma consistent_startSession (env : Env) (s : App) :
  consistent s -> consistent (state_of (startSession env s)).
Proof.
  intros C. unfold startSession.
  destruct (key_missing env); cbn [state_of].
  - apply consistent_dispatch. eapply consistent_playback; [|exact C]. reflexivity.
  - destruct (micGranted env); cbn [state_of].
    + apply consistent_start_open.
      eapply consistent_playback; [|exact C].
      unfold playback_view, setSummary, setStatus, setIsRecording. proj.
      rewrite !dispatch_refs, !dispatch_world. reflexivity.
    + eapply consistent_playback; [|exact C].
      unfold playback_view, setSummary, setStatus, setIsRecording. proj.
      rewrite !dispatch_refs, !dispatch_world. proj.
      rewrite !dispatch_refs, !dispatch_world. reflexivity.
Qed.

Lemma consistent_onopen (env : Env) (s : App) :
  consistent s -> consistent (state_of (onopen env s)).
Proof.
  intros C. eapply consistent_playback; [|exact C].
  unfold onopen. cbv zeta.
  destruct (inputAudioContextRef (refs (setStatus env listening s)));
    [destruct (mediaStreamRef (refs (setStatus env listening s)))|];
    cbn [state_of]; unfold playback_view, setStatus; proj;
    rewrite !dispatch_refs, !dispatch_world; reflexivity.
Qed.

Lemma consistent_message_input (env : Env) (m : LiveServerMessage) (s : App) :
  consistent s -> consistent (message_input env m s).
Proof.
  intros C. eapply consistent_playback; [|exact C].
  unfold message_input. destruct (inputTranscription m); [|reflexivity].
  unfold playback_view, setCurrentUserTranscript. proj.
  rewrite !dispatch_refs, !dispatch_world. reflexivity.
Qed.

Lemma consistent_message_output (md : AppMode) (env : Env) (m : LiveServerMessage)
    (s : App) :
  consistent s -> consistent (message_output md env m s).
Proof.
  intros C. eapply consistent_playback; [|exact C].
  unfold message_output. destruct (outputTranscription m); [|reflexivity].
  destruct md; unfold playback_view, setCurrentAiTranscript, setStatus; proj;
    rewrite !dispatch_refs, !dispatch_world; proj;
    rewrite ?dispatch_refs, ?dispatch_world; reflexivity.
Qed.

Lemma consistent_message_turnComplete (md : AppMode) (env : Env)
    (m : LiveServerMessage) (s : App) :
  consistent s -> consistent (message_turnComplete md env m s).
Proof.
  intros C. eapply consistent_playback; [|exact C].
  unfold message_turnComplete. destruct (turnComplete m); [|reflexivity].
  cbv zeta.
  unfold playback_view, setCurrentAiTranscript, setCurrentUserTranscript. proj.
  rewrite !dispatch_refs, !dispatch_world. proj.
  repeat match goal with
         | |- context [if ?b then _ else _] => destruct b
         end;
    unfold setTranscriptHistory; rewrite ?dispatch_refs, ?dispatch_world; reflexivity.
Qed.


Lemma filter_snoc {A} (f : A -> bool) (l : list A) (x : A) :
  List.filter f (l ++ [x]) = List.filter f l ++ (if f x then [x] else []).
Proof. rewrite List.filter_app. cbn. destruct (f x); reflexivity. Qed.

(** Scheduling a decoded chunk: the source starts at the cursor, which is
    no earlier than the end of any source of this context, and the cursor
    moves to its end. *)
Lemma consistent_schedule (env : Env) (data : string) (c : nat) (s : App) :
  consistent s -> outputAudioContextRef (refs s) = Some c ->
  consistent (state_of (schedule env data c s)).
Proof.
  intros [C1 C2 C3 C4 C5 C6 C7 C8] Hout.
  unfold schedule. cbv zeta.
  destruct (Codec.decodeInbound data 24000 1) as [buf|]; cbn [state_of].
  - constructor; unfold session_sources; proj; try assumption.
    + intros H. congruence.
    + apply Forall_app. split; [exact C6|].
      constructor; [|constructor]. cbn. eapply lookup_lt_Some, C2, Hout.
    + intros c' Hc'. assert (c' = c) by congruence. subst c'.
      apply Forall_app. split.
      * eapply Forall_impl; [exact (C7 c Hout)|]. cbn. intros src H He.
        specialize (H He).
        eapply Qle_trans; [exact H|].
        eapply Qle_trans; [apply Q.le_max_l|].
        rewrite <- (Qplus_0_r (Qmax _ _)) at 1.
        apply Qplus_le_r, duration_nonneg.
      * constructor; [|constructor]. intros _. unfold source_end. cbn.
        apply Qle_refl.
    + intros c'. rewrite filter_snoc. cbn [srcContext].
      destruct (Nat.eqb_spec c c') as [<-|Hne]; [|rewrite app_nil_r; apply C8].
      apply sequenced_snoc; [apply C8|]. cbn [srcStart].
      specialize (C7 c Hout). rewrite Forall_forall in C7.
      apply Forall_forall. intros a Ha.
      apply list_elem_of_In, List.filter_In in Ha as [Ha Hca].
      apply Nat.eqb_eq in Hca.
      eapply Qle_trans; [apply C7; [apply list_elem_of_In, Ha | exact Hca]|].
      apply Q.le_max_l.
  - constructor; unfold session_sources; proj; try assumption.
    intros c' Hc'. eapply Forall_impl; [exact (C7 c' Hc')|]. cbn. intros src H He.
    eapply Qle_trans; [exact (H He)|]. apply Q.le_max_l.
Qed.

Lemma consistent_message_audio (md : AppMode) (env : Env) (m : LiveServerMessage)
    (s : App) :
  consistent s -> consistent (state_of (message_audio md env m s)).
Proof.
  intros C. unfold message_audio.
  destruct (modelTurnPart m) as [| |data]; cbn [state_of]; try exact C.
  destruct (JS.truthy data); [|exact C].
  destruct (outputAudioContextRef (refs s)) as [c|] eqn:E; [|exact C].
  destruct md; [|exact C].
  apply consistent_schedule; assumption.
Qed.

Lemma consistent_onmessage (md : AppMode) (env : Env) (m : LiveServerMessage)
    (s : App) :
  consistent s -> consistent (state_of (onmessage md env m s)).
Proof.
  intros C. unfold onmessage. cbv zeta.
  pose proof (consistent_message_audio md env m _
                (consistent_message_output md env m _
                   (consistent_message_input env m s C))) as C3.
  destruct (message_audio md env m (message_output md env m (message_input env m s)))
    as [s3|s3]; cbn [and_then state_of] in *.
  - apply consistent_message_turnComplete, C3.
  - exact C3.
Qed.

Lemma consistent_onended (env : Env) (i : nat) (s : App) :
  consistent s -> consistent (onended env i s).
Proof.
  intros [C1 C2 C3 C4 C5 C6 C7 C8]. unfold onended. cbv zeta.
  assert (C : consistent
                (assign_audioSourcesRef (set_delete i (audioSourcesRef (refs s))) s)).
  { constructor; unfold session_sources; proj; try assumption.
    intros H. rewrite (C5 H). reflexivity. }
  match goal with |- context [if ?b then _ else _] => destruct b end;
    [apply consistent_dispatch|]; exact C.
Qed.

Lemma consistent_step (env : Env) (e : Event) (s : App) :
  consistent s -> consistent (step env e s).
Proof.
  intros C. destruct e as [| |m|i|i msg|i|i|i|]; cbn [step].
  - apply consistent_render, C.
  - unfold handleToggleConversation. destruct (isRecording (ui s));
      [apply consistent_stopSession | apply consistent_startSession]; exact C.
  - unfold onClickMode. destruct (negb (isRecording (ui s)));
      [apply consistent_dispatch|]; exact C.
  - destruct (sessions (world s) !! i); [apply consistent_onopen|]; exact C.
  - destruct (sessions (world s) !! i); [apply consistent_onmessage|]; exact C.
  - destruct (sessions (world s) !! i); [|exact C].
    unfold onerror. cbv zeta. apply consistent_stopSession, consistent_dispatch.
    eapply consistent_playback; [|exact C]. reflexivity.
  - destruct (sessions (world s) !! i); [apply consistent_stopSession|]; exact C.
  - destruct (sources (world s) !! i); [|exact C].
    destruct (existsb (Nat.eqb i) (ended (world s))); [exact C|].
    apply consistent_onended. eapply consistent_playback; [|exact C]. reflexivity.
  - apply consistent_stopSession, C.
Qed.

Lemma consistent_exec (tr : list (Env * Event)) (s : App) :
  consistent s -> consistent (exec tr s).
Proof.
  revert s. induction tr as [|[env e] tr IH]; intros s C; [exact C|].
  cbn [exec]. apply IH, consistent_step, C.
Qed.

(** Every state the component reaches is consistent. *)
Lemma reachable_consistent (s : App) : reachable s -> consistent s.
Proof. intros [tr ->]. apply consistent_exec, consistent_initial. Qed.

End Consistency.

(* ===================================================================== *)
(** * Playback: C3 and C9 *)
(* ===================================================================== *)

Section Playback.

Local Open Scope Q_scope.

Lemma stopSession_cursor (env : Env) (s : App) :
  nextStartTimeRef (refs (state_of (stopSession env s))) = nextStartTimeRef (refs s).
Proof.
  rewrite stopSession_state.
  destruct (stop_release_view (setStatus env idle (setIsRecording env false s)))
    as [Hv _].
  cbv zeta in Hv. apply audio_view_fields in Hv.
  destruct Hv as (_ & _ & _ & Hn & _).
  unfold setStatus, setIsRecording in *. rewrite !dispatch_refs in Hn.
  revert Hn.
  generalize (stop_disconnectSource
                (stop_disconnectProcessor
                   (stop_releaseTracks
                      (stop_closeSession
                         (dispatch env (SetStatus idle)
                            (dispatch env (SetIsRecording false) s)))))).
  intros s6 Hn.
  unfold stop_clearTranscripts, setCurrentAiTranscript, setCurrentUserTranscript.
  proj. rewrite !dispatch_refs.
  destruct (stop_closeInput_cases s6) as [[_ ->]|[(c & _ & _ & ->)|(c & _ & _ & ->)]];
    match goal with
    | |- context [stop_closeOutput ?t] =>
        destruct (stop_closeOutput_cases t)
          as [[_ ->]|[(c' & _ & _ & ->)|(c' & _ & _ & ->)]]
    end; proj; exact Hn.
Qed.

Lemma schedule_cursor (env : Env) (data : string) (c : nat) (s : App) :
  nextStartTimeRef (refs s) <= nextStartTimeRef (refs (state_of (schedule env data c s))).
Proof.
  unfold schedule. cbv zeta.
  destruct (Codec.decodeInbound data 24000 1) as [buf|]; cbn [state_of]; proj.
  - eapply Qle_trans; [apply Q.le_max_l|].
    rewrite <- (Qplus_0_r (Qmax _ _)) at 1.
    apply Qplus_le_r, duration_nonneg.
  - apply Q.le_max_l.
Qed.

Lemma onmessage_cursor (md : AppMode) (env : Env) (m : LiveServerMessage) (s : App) :
  nextStartTimeRef (refs s) <= nextStartTimeRef (refs (state_of (onmessage md env m s))).
Proof.
  unfold onmessage. cbv zeta.
  assert (H1 : nextStartTimeRef (refs (message_input env m s)) = nextStartTimeRef (refs s)).
  { unfold message_input. destruct (inputTranscription m); [|reflexivity].
    unfold setCurrentUserTranscript. rewrite dispatch_refs. reflexivity. }
  revert H1. generalize (message_input env m s). intros s1 H1.
  assert (H2 : nextStartTimeRef (refs (message_output md env m s1)) = nextStartTimeRef (refs s1)).
  { unfold message_output. destruct (outputTranscription m); [|reflexivity].
    unfold setCurrentAiTranscript. rewrite dispatch_refs. proj.
    destruct md; [unfold setStatus; rewrite dispatch_refs|]; reflexivity. }
  revert H2. generalize (message_output md env m s1). intros s2 H2.
  assert (H3 : nextStartTimeRef (refs s2)
               <= nextStartTimeRef (refs (state_of (message_audio md env m s2)))).
  { unfold message_audio.
    destruct (modelTurnPart m) as [| |data]; cbn [state_of]; try apply Qle_refl.
    destruct (JS.truthy data); [|apply Qle_refl].
    destruct (outputAudioContextRef (refs s2)); [|apply Qle_refl].
    destruct md; [|apply Qle_refl]. apply schedule_cursor. }
  rewrite <- H1, <- H2.
  destruct (message_audio md env m s2) as [s3|s3]; cbn [and_then state_of] in *;
    [|exact H3].
  eapply Qle_trans; [exact H3|].
  unfold message_turnComplete. destruct (turnComplete m); [|apply Qle_refl].
  cbv zeta. unfold setCurrentAiTranscript, setCurrentUserTranscript.
  rewrite !dispatch_refs. proj.
  repeat match goal with
         | |- context [if ?b then _ else _] => destruct b
         end;
    unfold setTranscriptHistory; rewrite ?dispatch_refs; apply Qle_refl.
Qed.

(** Within a session the cursor only advances: no event but the start of a
    session moves it back. *)
Lemma step_cursor (env : Env) (e : Event) (s : App) :
  e <> ClickToggle ->
  nextStartTimeRef (refs s) <= nextStartTimeRef (refs (step env e s)).
Proof.
  intros He. destruct e as [| |m|i|i msg|i|i|i|]; cbn [step].
  - apply Qle_refl.
  - contradiction.
  - unfold onClickMode. destruct (negb (isRecording (ui s)));
      [unfold setMode; rewrite dispatch_refs|]; apply Qle_refl.
  - destruct (sessions (world s) !! i); [|apply Qle_refl].
    unfold onopen. cbv zeta.
    destruct (inputAudioContextRef (refs (setStatus env listening s)));
      [destruct (mediaStreamRef (refs (setStatus env listening s)))|];
      cbn [state_of]; unfold setStatus; proj; rewrite dispatch_refs; apply Qle_refl.
  - destruct (sessions (world s) !! i); [apply onmessage_cursor | apply Qle_refl].
  - destruct (sessions (world s) !! i); [|apply Qle_refl].
    unfold onerror. cbv zeta. rewrite stopSession_cursor.
    unfold setStatus. rewrite dispatch_refs. apply Qle_refl.
  - destruct (sessions (world s) !! i); [|apply Qle_refl].
    unfold onclose. rewrite stopSession_cursor. apply Qle_refl.
  - destruct (sources (world s) !! i); [|apply Qle_refl].
    destruct (existsb (Nat.eqb i) (ended (world s))); [apply Qle_refl|].
    unfold onended. cbv zeta.
    match goal with |- context [if ?b then _ else _] => destruct b end;
      [unfold setStatus; rewrite dispatch_refs|]; apply Qle_refl.
  - rewrite stopSession_cursor. apply Qle_refl.
Qed.

(** C3.  In every state the component reaches, two sources scheduled one
    after the other on the output context of a session do not overlap: the
    later one starts no earlier than the earlier one starts plus the
    duration of the earlier one.  And within a session the cursor only
    advances: no event but a click on the start button moves it back. *)
Theorem C3_sources_do_not_overlap (tr : list (Env * Event)) :
  (forall (c n : nat) (a b : PlaybackSource),
      session_sources c (world (exec tr initial)) !! n = Some a ->
      session_sources c (world (exec tr initial)) !! S n = Some b ->
      srcStart a + srcDuration a <= srcStart b) /\
  (forall (env : Env) (e : Event),
      e <> ClickToggle ->
      nextStartTimeRef (refs (exec tr initial))
      <= nextStartTimeRef (refs (step env e (exec tr initial)))).
Proof.
  split.
  - intros c n a b Ha Hb.
    assert (C : consistent (exec tr initial))
      by (apply reachable_consistent; exists tr; reflexivity).
    exact (sources_in_sequence _ C c n a b Ha Hb).
  - intros env e He. apply step_cursor, He.
Qed.

Lemma C3_sources_do_not_overlap_witness :
  session_sources 1 (world (exec (events true two_sources) initial)) !! 0%nat
    = Some {| srcContext := 1; srcStart := 0; srcDuration := 2 # 24000 |} /\
  session_sources 1 (world (exec (events true two_sources) initial)) !! 1%nat
    = Some {| srcContext := 1; srcStart := 2 # 24000; srcDuration := 2 # 24000 |} /\
  0 + (2 # 24000) <= 2 # 24000.
Proof.
  split; [reflexivity|]. split; [reflexivity|].
  exact (proj1 (C3_sources_do_not_overlap (events true two_sources))
           1%nat 0%nat
           {| srcContext := 1; srcStart := 0; srcDuration := 2 # 24000 |}
           {| srcContext := 1; srcStart := 2 # 24000; srcDuration := 2 # 24000 |}
           eq_refl eq_refl).
Defined.


(** C9.  When [stopSession] is called in a state the component has reached,
    the call returns; every source of the active set (two of them, or any
    number) has had [stop()] called on it; the set is empty; the context
    that either audio ref held is closed and both refs are empty; and the
    render that follows shows [idle].  With sources in the set there were
    two contexts to close, the input one and the output one. *)
Theorem C9_stop_while_playing (tr : list (Env * Event)) (env : Env) :
  exists s',
    stopSession env (exec tr initial) = Returned s' /\
    (forall i, In i (audioSourcesRef (refs (exec tr initial))) ->
               In i (stopped (world s'))) /\
    audioSourcesRef (refs s') = [] /\
    (forall c, inputAudioContextRef (refs (exec tr initial)) = Some c \/
               outputAudioContextRef (refs (exec tr initial)) = Some c ->
               context_state c (world s') = closed) /\
    inputAudioContextRef (refs s') = None /\
    outputAudioContextRef (refs s') = None /\
    (audioSourcesRef (refs (exec tr initial)) <> [] ->
     exists ci co,
       inputAudioContextRef (refs (exec tr initial)) = Some ci /\
       outputAudioContextRef (refs (exec tr initial)) = Some co /\
       ci <> co) /\
    status (ui (render s')) = idle.
Proof.
  assert (C : consistent (exec tr initial))
    by (apply reachable_consistent; exists tr; reflexivity).
  revert C. generalize (exec tr initial). intros s C.
  exists (state_of (stopSession env s)).
  destruct (stopSession_playback env s C)
    as (Hi & Ho & Hs & _ & _ & _ & Hcl & Hst).
  split; [apply stopSession_returns|].
  split; [exact Hst|]. split; [exact Hs|].
  split.
  { intros c Hc. unfold context_state. rewrite (Hcl c Hc). reflexivity. }
  split; [exact Hi|]. split; [exact Ho|].
  split.
  { intros Hne. destruct C as [C1 C2 C3 C4 C5 C6 C7 C8].
    destruct (outputAudioContextRef (refs s)) as [co|] eqn:Eo;
      [|destruct (Hne (C5 eq_refl))].
    destruct (inputAudioContextRef (refs s)) as [ci|] eqn:Ei;
      [|destruct C4 as [C4 _]; specialize (C4 eq_refl); discriminate].
    exists ci, co. repeat split. apply C3; reflexivity. }
  rewrite ui_render, stopSession_next_ui. reflexivity.
Qed.

Lemma C9_stop_while_playing_witness :
  audioSourcesRef (refs (exec (events true two_sources) initial)) = [0; 1]%nat /\
  exists s',
    stopSession (browser true) (exec (events true two_sources) initial) = Returned s' /\
    (forall i, In i (audioSourcesRef (refs (exec (events true two_sources) initial))) ->
               In i (stopped (world s'))) /\
    audioSourcesRef (refs s') = [] /\
    (forall c, inputAudioContextRef (refs (exec (events true two_sources) initial)) = Some c \/
               outputAudioContextRef (refs (exec (events true two_sources) initial)) = Some c ->
               context_state c (world s') = closed) /\
    inputAudioContextRef (refs s') = None /\
    outputAudioContextRef (refs s') = None /\
    (audioSourcesRef (refs (exec (events true two_sources) initial)) <> [] ->
     exists ci co,
       inputAudioContextRef (refs (exec (events true two_sources) initial)) = Some ci /\
       outputAudioContextRef (refs (exec (events true two_sources) initial)) = Some co /\
       ci <> co) /\
    status (ui (render s')) = idle.
Proof.
  split; [reflexivity|].
  exact (C9_stop_while_playing (events true two_sources) (browser true)).
Defined.

End Playback.

(* ===================================================================== *)
(** * Finalizing a turn: C1 *)
(* ===================================================================== *)

Section Turns.

(** What holds of the turn-complete branch: both buffers are cleared, the
    next render shows both live transcripts empty, and the history gains
    the speakers of the finalized entries, at most two of them. *)
Lemma turn_complete_effects (md : AppMode) (env : Env) (m : LiveServerMessage)
    (s : App) :
  turnComplete m = true ->
  let s' := message_turnComplete md env m s in
  currentInputTranscriptionRef (refs s') = EmptyString /\
  currentOutputTranscriptionRef (refs s') = EmptyString /\
  currentUserTranscript (ui (render s')) = EmptyString /\
  currentAiTranscript (ui (render s')) = EmptyString /\
  shown_speakers s'
  = shown_speakers s
    ++ map speaker (finalized md (currentInputTranscriptionRef (refs s))
                                 (currentOutputTranscriptionRef (refs s))) /\
  length (finalized md (currentInputTranscriptionRef (refs s))
                       (currentOutputTranscriptionRef (refs s))) <= 2.
Proof.
  intros Ht s'.
  destruct (message_turnComplete_dispatches md env m s) as (us & D & F & A).
  rewrite Ht in A. fold s' in D.
  assert (Hs : shown_speakers s'
               = shown_speakers s
                 ++ map speaker (finalized md (currentInputTranscriptionRef (refs s))
                                              (currentOutputTranscriptionRef (refs s)))).
  { rewrite (dispatches_speakers us s s' D F), A. reflexivity. }
  clear D F A.
  split; [|split; [|split; [|split; [|split; [exact Hs|]]]]].
  - subst s'. unfold message_turnComplete. rewrite Ht. cbv zeta.
    unfold setCurrentAiTranscript, setCurrentUserTranscript.
    rewrite !dispatch_refs. reflexivity.
  - subst s'. unfold message_turnComplete. rewrite Ht. cbv zeta.
    unfold setCurrentAiTranscript, setCurrentUserTranscript.
    rewrite !dispatch_refs. reflexivity.
  - subst s'. unfold message_turnComplete. rewrite Ht. cbv zeta.
    rewrite ui_render. unfold setCurrentAiTranscript, setCurrentUserTranscript.
    rewrite !next_ui_dispatch by reflexivity. reflexivity.
  - subst s'. unfold message_turnComplete. rewrite Ht. cbv zeta.
    rewrite ui_render. unfold setCurrentAiTranscript, setCurrentUserTranscript.
    rewrite !next_ui_dispatch by reflexivity. reflexivity.
  - unfold finalized.
    destruct (JS.truthy _), (JS.truthy _ && _); cbn; lia.
Qed.


(** What the history comes to when a turn is finalized with nothing queued
    before: the entries of the specification, but with the text of every
    entry whose updater runs at the render, after the refs were cleared
    (lines 187-188), lost. *)
Lemma turn_complete_rendered (md : AppMode) (env : Env) (m : LiveServerMessage)
    (s : App) :
  turnComplete m = true -> pending s = [] ->
  shown (message_turnComplete md env m s)
  = transcriptHistory (ui s)
    ++ as_rendered (eager env)
         (finalized md (currentInputTranscriptionRef (refs s))
                       (currentOutputTranscriptionRef (refs s))).
Proof.
  intros Ht Hp. destruct s as [u p r w]. cbn [pending] in Hp. subst p.
  unfold shown, message_turnComplete, finalized. rewrite Ht. cbv zeta.
  cbn [refs ui].
  destruct (JS.truthy (JS.trim (currentInputTranscriptionRef r))) eqn:Ei;
    [rewrite (dispatch_refs env (SetTranscriptHistory AppendUserEntry)
                {| ui := u; pending := []; refs := r; world := w |}
              : refs (setTranscriptHistory env AppendUserEntry _) = _)|];
    cbn [refs];
    destruct (JS.truthy (JS.trim (currentOutputTranscriptionRef r))
              && bool_decide (md = conversation)) eqn:Eo;
    rewrite ui_render;
    unfold setCurrentAiTranscript, setCurrentUserTranscript;
    rewrite !next_ui_dispatch by reflexivity;
    rewrite !dispatch_refs;
    cbn [apply_update transcriptHistory];
    unfold setTranscriptHistory, dispatch, next_ui;
    destruct (eager env); cbn;
    rewrite <- ?app_assoc, ?app_nil_r; reflexivity.
Qed.

Lemma updater_is_queued (env : Env) (f : HistoryUpdater) (s : App) :
  pending (setTranscriptHistory env f s) <> [].
Proof.
  unfold setTranscriptHistory, dispatch, enqueue.
  destruct (pending s); [destruct (eager env)|]; cbn; discriminate.
Qed.

(** From every state and whichever path React takes: when a turn with both
    buffers in use completes in conversation mode, the assistant entry that
    the next render shows has no text. *)
Lemma assistant_text_is_lost (env : Env) (m : LiveServerMessage) (s : App) :
  turnComplete m = true ->
  JS.truthy (JS.trim (currentInputTranscriptionRef (refs s))) = true ->
  JS.truthy (JS.trim (currentOutputTranscriptionRef (refs s))) = true ->
  exists h,
    shown (message_turnComplete conversation env m s)
    = h ++ [ {| speaker := ai; text := EmptyString |} ].
Proof.
  intros Ht Hi Ho.
  unfold shown, message_turnComplete. rewrite Ht, Hi. cbv zeta.
  rewrite (dispatch_refs env (SetTranscriptHistory AppendUserEntry) s
           : refs (setTranscriptHistory env AppendUserEntry s) = refs s).
  rewrite Ho, bool_decide_eq_true_2 by reflexivity. cbn [andb].
  rewrite ui_render.
  unfold setCurrentAiTranscript, setCurrentUserTranscript.
  rewrite !next_ui_dispatch by reflexivity.
  rewrite !dispatch_refs. cbn [apply_update transcriptHistory].
  match goal with
  | |- context [next_ui ?R (assign_currentOutputTranscriptionRef _
                              (assign_currentInputTranscriptionRef _ ?Y))] =>
      change (next_ui R (assign_currentOutputTranscriptionRef EmptyString
                           (assign_currentInputTranscriptionRef EmptyString Y)))
        with (next_ui R Y)
  end.
  unfold setTranscriptHistory at 3. rewrite next_ui_dispatch_updater.
  pose proof (updater_is_queued env AppendUserEntry s) as Hq.
  destruct (pending (setTranscriptHistory env AppendUserEntry s)) eqn:Ep;
    [contradiction|].
  rewrite andb_false_r.
  cbn [apply_update transcriptHistory run_updater].
  eexists. reflexivity.
Qed.

(** C1 (the code does otherwise).  The claim: the turn-complete message
    adds to the history the user entry and, in conversation mode, the
    assistant entry, each with the trimmed text of its buffer.  The code,
    in conversation mode, on a turn in which the user was heard ("salam")
    and the assistant answered ("walaikum"), each message rendered before
    the next: the specification has the run add the two entries with these
    texts, and the history that is rendered has an assistant entry without
    text, whichever path React takes for the first updater; the user entry
    keeps its text only if React runs its updater at once. *)
Theorem C1_finalized_text_is_lost (b : bool) :
  run_added (events b one_turn) initial
  = [ {| speaker := user; text := "salam" |};
      {| speaker := ai; text := "walaikum" |} ] /\
  transcriptHistory (ui (exec (events b one_turn) initial))
  = [ {| speaker := user; text := if b then "salam" else EmptyString |};
      {| speaker := ai; text := EmptyString |} ].
Proof. destruct b; split; reflexivity. Qed.

(** The scenario of the specification: "salam" then " alekum" are heard,
    the turn completes without an answer.  The history is the one the
    specification expects if React runs the updater at once; if the updater
    waits for the render, the entry has lost its text. *)
Example scenario_salam_alekum (b : bool) :
  transcriptHistory
    (ui (exec (events b (session_opened ++
                         [SessionMessage 0 (heard "salam"); Render;
                          SessionMessage 0 (heard " alekum"); Render;
                          SessionMessage 0 turn_done; Render])) initial))
  = [ {| speaker := user; text := if b then "salam alekum" else EmptyString |} ].
Proof. destruct b; reflexivity. Qed.

(** A transport error during an opened session: the render that follows
    shows [idle]. *)
Example scenario_session_error (b : bool) :
  status (ui (exec (events b (session_opened ++ [SessionError 0; Render])) initial))
  = idle.
Proof. destruct b; reflexivity. Qed.

End Turns.

(* ===================================================================== *)
(** * Mode switching after the session: the counterexample to C7 *)
(* ===================================================================== *)

Section ModeAfterStop.

(** C7 as stated does not hold.  The session is stopped while two sources
    are scheduled; [stopSession] stops them, which delivers their [ended]
    events; the listener of line 168 finds the set empty and sets the
    status to [listening].  The status is then one of the three of an
    active session, nothing is recording, and a click on the other mode
    button switches the mode. *)
Lemma C7_status_does_not_fix_mode :
  ~ (forall (tr : list (Env * Event)) (env : Env) (m : AppMode),
       In (status (ui (exec tr initial))) [connecting; listening; speaking] ->
       mode (ui (render (step env (ClickMode m) (exec tr initial))))
       = mode (ui (exec tr initial))).
Proof.
  intros H.
  specialize (H (events true stopped_while_playing) (browser true) transcription).
  assert (Hin : In (status (ui (exec (events true stopped_while_playing) initial)))
                   [connecting; listening; speaking])
    by (right; left; vm_compute; reflexivity).
  specialize (H Hin). vm_compute in H. discriminate H.
Qed.

Lemma C7_mode_fixed_while_recording_witness :
  isRecording (ui (exec (events true two_sources) initial)) = true /\
  (forall m, onClickMode (browser true) m (exec (events true two_sources) initial)
             = exec (events true two_sources) initial) /\
  (forall e,
      mode (ui (render (step (browser true) e (exec (events true two_sources) initial))))
      = mode (ui (render (exec (events true two_sources) initial)))).
Proof.
  split; [reflexivity|].
  apply (C7_mode_fixed_while_recording (browser true)
           (exec (events true two_sources) initial)).
  reflexivity.
Defined.

End ModeAfterStop.

(* ===================================================================== *)
(** * What the queue does beside the history *)
(* ===================================================================== *)

Section BesideHistory.

Lemma next_ui_with_refs r f s : next_ui r (with_refs f s) = next_ui r s.
Proof. reflexivity. Qed.

Lemma next_ui_with_world r f s : next_ui r (with_world f s) = next_ui r s.
Proof. reflexivity. Qed.

Lemma beside_apply r r' st st' u :
  beside_history st = beside_history st' ->
  beside_history (apply_update r st u) = beside_history (apply_update r' st' u).
Proof.
  unfold beside_history. intros [= Hm Hs Hr Hu Ha Hy].
  destruct u; cbn; congruence.
Qed.

Lemma beside_fold r r' q st st' :
  beside_history st = beside_history st' ->
  beside_history (fold_left (apply_update r) q st)
  = beside_history (fold_left (apply_update r') q st').
Proof.
  revert st st'. induction q as [|u q IH]; intros st st' H; [exact H|].
  cbn [fold_left]. apply IH, beside_apply, H.
Qed.

(** Only the history depends on the refs the queue is run with. *)
Lemma beside_any_refs r r' s :
  beside_history (next_ui r s) = beside_history (next_ui r' s).
Proof. apply beside_fold. reflexivity. Qed.

(** A setter call is, beside the history, its update applied last. *)
Lemma beside_dispatch r env u s :
  beside_history (next_ui r (dispatch env u s))
  = beside_history (apply_update r (next_ui r s) u).
Proof.
  destruct (history_update u) eqn:E.
  - destruct u; try discriminate.
    + rewrite next_ui_dispatch_updater. apply beside_apply. reflexivity.
    + unfold dispatch. cbn [same_state computed].
      destruct (pending s), (eager env); rewrite next_ui_enqueue; reflexivity.
  - rewrite next_ui_dispatch by exact E. reflexivity.
Qed.

Lemma beside_fields st st' :
  beside_history st = beside_history st' ->
  mode st = mode st' /\ status st = status st' /\
  isRecording st = isRecording st' /\
  currentUserTranscript st = currentUserTranscript st' /\
  currentAiTranscript st = currentAiTranscript st' /\
  summary st = summary st'.
Proof. unfold beside_history. intros [= ]. repeat split; assumption. Qed.

Lemma beside_queue r s s' :
  ui s' = ui s -> pending s' = pending s ->
  beside_history (next_ui r s') = beside_history (next_ui r s).
Proof. intros Hu Hp. unfold next_ui. rewrite Hu, Hp. reflexivity. Qed.

End BesideHistory.

(** The fields beside the history, one by one. *)
Section Fields.

Variables (r : Refs) (env : Env) (u : Update) (s : App).

Lemma mode_dispatch :
  mode (next_ui r (dispatch env u s)) = mode (apply_update r (next_ui r s) u).
Proof. apply (beside_fields _ _ (beside_dispatch r env u s)). Qed.

Lemma status_dispatch :
  status (next_ui r (dispatch env u s)) = status (apply_update r (next_ui r s) u).
Proof. apply (beside_fields _ _ (beside_dispatch r env u s)). Qed.

Lemma isRecording_dispatch :
  isRecording (next_ui r (dispatch env u s))
  = isRecording (apply_update r (next_ui r s) u).
Proof. apply (beside_fields _ _ (beside_dispatch r env u s)). Qed.

Lemma currentUserTranscript_dispatch :
  currentUserTranscript (next_ui r (dispatch env u s))
  = currentUserTranscript (apply_update r (next_ui r s) u).
Proof. apply (beside_fields _ _ (beside_dispatch r env u s)). Qed.

Lemma currentAiTranscript_dispatch :
  currentAiTranscript (next_ui r (dispatch env u s))
  = currentAiTranscript (apply_update r (next_ui r s) u).
Proof. apply (beside_fields _ _ (beside_dispatch r env u s)). Qed.

Lemma summary_dispatch :
  summary (next_ui r (dispatch env u s)) = summary (apply_update r (next_ui r s) u).
Proof. apply (beside_fields _ _ (beside_dispatch r env u s)). Qed.

End Fields.

(** Reading a field of the next render off the setter calls of a handler. *)
Ltac fields :=
  unassign_keep; unset;
  repeat
    (rewrite ?next_ui_with_refs, ?next_ui_with_world,
       ?mode_dispatch, ?status_dispatch, ?isRecording_dispatch,
       ?currentUserTranscript_dispatch, ?currentAiTranscript_dispatch,
       ?summary_dispatch;
     cbn [apply_update mode status isRecording transcriptHistory
          currentUserTranscript currentAiTranscript summary]).

(** Reading a ref or a platform object off the assignments of a handler. *)
Ltac backstage :=
  repeat (proj; unset; rewrite ?dispatch_refs, ?dispatch_world).

(* ===================================================================== *)
(** * The live transcripts follow the buffers *)
(* ===================================================================== *)

Section LiveTranscripts.

Lemma live_any_refs r r' s : live (next_ui r s) = live (next_ui r' s).
Proof.
  unfold live.
  destruct (beside_fields _ _ (beside_any_refs r r' s)) as (_ & _ & _ & -> & -> & _).
  reflexivity.
Qed.

Lemma live_stopSession r env s :
  live (next_ui r (state_of (stopSession env s))) = (EmptyString, EmptyString) /\
  buffers (refs (state_of (stopSession env s))) = (EmptyString, EmptyString).
Proof.
  split.
  - rewrite stopSession_next_ui. reflexivity.
  - destruct (stopSession_torn_down env s) as (_ & _ & _ & _ & _ & _ & Hi & Ho).
    unfold buffers. rewrite Hi, Ho. reflexivity.
Qed.

Lemma live_startSession r env s :
  live (next_ui r (state_of (startSession env s))) = live (next_ui r s) /\
  buffers (refs (state_of (startSession env s))) = buffers (refs s).
Proof.
  unfold startSession, start_open, live, buffers.
  destruct (key_missing env); [|destruct (micGranted env)]; cbn [state_of];
    (split; [fields; reflexivity | backstage; reflexivity]).
Qed.

Lemma live_onopen r env s :
  live (next_ui r (state_of (onopen env s))) = live (next_ui r s) /\
  buffers (refs (state_of (onopen env s))) = buffers (refs s).
Proof.
  unfold onopen, live, buffers. cbv zeta.
  destruct (inputAudioContextRef (refs (setStatus env listening s)));
    [destruct (mediaStreamRef (refs (setStatus env listening s)))|];
    cbn [state_of]; (split; [fields; reflexivity | backstage; reflexivity]).
Qed.

Lemma live_onended r env i s :
  live (next_ui r (onended env i s)) = live (next_ui r s) /\
  buffers (refs (onended env i s)) = buffers (refs s).
Proof.
  unfold onended, live, buffers. cbv zeta.
  match goal with |- context [if ?b then _ else _] => destruct b end;
    (split; [fields; reflexivity | backstage; reflexivity]).
Qed.

(** Lines 144-148: a fragment heard is appended to its buffer, and the
    buffer is what the live transcript is set to. *)
Lemma live_message_input r env m s :
  buffers (refs (message_input env m s))
  = (match inputTranscription m with
     | Some t => (currentInputTranscriptionRef (refs s) ++ t)%string
     | None => currentInputTranscriptionRef (refs s)
     end, currentOutputTranscriptionRef (refs s)) /\
  live (next_ui r (message_input env m s))
  = (match inputTranscription m with
     | Some t => (currentInputTranscriptionRef (refs s) ++ t)%string
     | None => currentUserTranscript (next_ui r s)
     end, currentAiTranscript (next_ui r s)).
Proof.
  unfold message_input, live, buffers.
  destruct (inputTranscription m) as [t|]; [|split; reflexivity].
  cbv zeta. split; [backstage; reflexivity | fields; backstage; reflexivity].
Qed.

(** Lines 149-156: the same for a fragment the assistant said. *)
Lemma live_message_output r md env m s :
  buffers (refs (message_output md env m s))
  = (currentInputTranscriptionRef (refs s),
     match outputTranscription m with
     | Some t => (currentOutputTranscriptionRef (refs s) ++ t)%string
     | None => currentOutputTranscriptionRef (refs s)
     end) /\
  live (next_ui r (message_output md env m s))
  = (currentUserTranscript (next_ui r s),
     match outputTranscription m with
     | Some t => (currentOutputTranscriptionRef (refs s) ++ t)%string
     | None => currentAiTranscript (next_ui r s)
     end).
Proof.
  unfold message_output, live, buffers.
  destruct (outputTranscription m) as [t|]; [|split; reflexivity].
  cbv zeta. destruct md;
    (split; [backstage; reflexivity | fields; backstage; reflexivity]).
Qed.

(** Lines 158-178 touch neither. *)
Lemma live_message_audio r md env m s :
  buffers (refs (state_of (message_audio md env m s))) = buffers (refs s) /\
  live (next_ui r (state_of (message_audio md env m s))) = live (next_ui r s).
Proof.
  unfold message_audio, schedule, live, buffers.
  destruct (modelTurnPart m) as [| |data]; cbn [state_of]; try (split; reflexivity).
  destruct (JS.truthy data); [|split; reflexivity].
  destruct (outputAudioContextRef (refs s)); [|split; reflexivity].
  destruct md; [|split; reflexivity].
  cbv zeta. destruct (Codec.decodeInbound data 24000 1); cbn [state_of];
    (split; [backstage; reflexivity | fields; reflexivity]).
Qed.

(** Lines 180-191. *)
Lemma live_message_turnComplete r md env m s :
  buffers (refs (message_turnComplete md env m s))
  = (if turnComplete m then (EmptyString, EmptyString) else buffers (refs s)) /\
  live (next_ui r (message_turnComplete md env m s))
  = (if turnComplete m then (EmptyString, EmptyString) else live (next_ui r s)).
Proof.
  unfold message_turnComplete, live, buffers.
  destruct (turnComplete m); [|split; reflexivity].
  cbv zeta.
  destruct (JS.truthy (JS.trim (currentInputTranscriptionRef (refs s))));
    match goal with |- context [if ?b && ?c then _ else _] => destruct (b && c) end;
    (split; [backstage; reflexivity | fields; reflexivity]).
Qed.

End LiveTranscripts.

Section LiveInvariant.

Lemma append_nil_r (a : string) : (a ++ EmptyString)%string = a.
Proof. induction a as [|c a IH]; cbn; [reflexivity | rewrite IH; reflexivity]. Qed.

Lemma append_assoc (a b c : string) :
  (a ++ (b ++ c))%string = ((a ++ b) ++ c)%string.
Proof. induction a as [|x a IH]; cbn; [reflexivity | rewrite IH; reflexivity]. Qed.

(** What a message does to the buffers and to the live transcripts: each
    fragment goes to the end of its buffer, and a turn completion that the
    handler reaches empties both. *)
Lemma live_onmessage r md env m s :
  let grown :=
    (match inputTranscription m with
     | Some t => (currentInputTranscriptionRef (refs s) ++ t)%string
     | None => currentInputTranscriptionRef (refs s)
     end,
     match outputTranscription m with
     | Some t => (currentOutputTranscriptionRef (refs s) ++ t)%string
     | None => currentOutputTranscriptionRef (refs s)
     end) in
  let cleared :=
    match onmessage md env m s with
    | Returned _ => turnComplete m
    | Threw _ => false
    end in
  buffers (refs (state_of (onmessage md env m s)))
  = (if cleared then (EmptyString, EmptyString) else grown) /\
  (live (next_ui r s) = buffers (refs s) ->
   live (next_ui r (state_of (onmessage md env m s)))
   = buffers (refs (state_of (onmessage md env m s)))).
Proof.
  intros grown cleared. subst grown cleared. unfold onmessage. cbv zeta.
  destruct (live_message_input r env m s) as [B1 L1].
  revert B1 L1. generalize (message_input env m s). intros s1 B1 L1.
  destruct (live_message_output r md env m s1) as [B2 L2].
  revert B2 L2. generalize (message_output md env m s1). intros s2 B2 L2.
  destruct (live_message_audio r md env m s2) as [B3 L3].
  unfold buffers, live in B1, L1, B2, L2.
  injection B1 as Bi1 Bo1. injection L1 as Lu1 La1.
  injection B2 as Bi2 Bo2. injection L2 as Lu2 La2.
  assert (G : buffers (refs s2)
              = (match inputTranscription m with
                 | Some t => (currentInputTranscriptionRef (refs s) ++ t)%string
                 | None => currentInputTranscriptionRef (refs s)
                 end,
                 match outputTranscription m with
                 | Some t => (currentOutputTranscriptionRef (refs s) ++ t)%string
                 | None => currentOutputTranscriptionRef (refs s)
                 end)).
  { unfold buffers. rewrite Bi2, Bo2, Bi1, Bo1. reflexivity. }
  assert (K : live (next_ui r s) = buffers (refs s) ->
              live (next_ui r s2) = buffers (refs s2)).
  { intros H. rewrite G. unfold live, buffers in *. injection H as Hu Ha.
    rewrite Lu2, La2, Lu1, La1, Bo1, Hu, Ha.
    destruct (inputTranscription m), (outputTranscription m); reflexivity. }
  destruct (message_audio md env m s2) as [s3|s3]; cbn [and_then state_of] in *.
  - destruct (live_message_turnComplete r md env m s3) as [B4 L4].
    rewrite B4, L4. destruct (turnComplete m).
    + split; [reflexivity | intros _; reflexivity].
    + split; [congruence | intros H; rewrite B3, L3; apply K, H].
  - split; [congruence | intros H; rewrite B3, L3; apply K, H].
Qed.

Lemma live_step env e s :
  live (ui (render s)) = buffers (refs s) ->
  live (ui (render (step env e s))) = buffers (refs (step env e s)).
Proof.
  rewrite !ui_render. intros H.
  destruct e as [| |m|i|i msg|i|i|i|]; cbn [step].
  - exact H.
  - unfold handleToggleConversation. destruct (isRecording (ui s)).
    + destruct (live_stopSession (refs (state_of (stopSession env s))) env s)
        as [-> ->]. reflexivity.
    + destruct (live_startSession (refs (state_of (startSession env s))) env s)
        as [-> ->]. rewrite <- H. apply live_any_refs.
  - unfold onClickMode. destruct (negb (isRecording (ui s))); [|exact H].
    unfold setMode. rewrite dispatch_refs, <- H. unfold live. fields. reflexivity.
  - destruct (sessions (world s) !! i); [|exact H].
    destruct (live_onopen (refs (state_of (onopen env s))) env s) as [-> ->].
    rewrite <- H. apply live_any_refs.
  - destruct (sessions (world s) !! i) as [x|]; [|exact H].
    apply (live_onmessage _ (sessMode x) env msg s).
    rewrite <- H. apply live_any_refs.
  - destruct (sessions (world s) !! i); [|exact H].
    unfold onerror. cbv zeta.
    match goal with |- context [stopSession env ?t] =>
      destruct (live_stopSession (refs (state_of (stopSession env t))) env t)
        as [-> ->] end.
    reflexivity.
  - destruct (sessions (world s) !! i); [|exact H].
    unfold onclose.
    destruct (live_stopSession (refs (state_of (stopSession env s))) env s)
      as [-> ->]. reflexivity.
  - destruct (sources (world s) !! i); [|exact H].
    destruct (existsb (Nat.eqb i) (ended (world s))); [exact H|].
    match goal with |- context [onended env i ?t] =>
      destruct (live_onended (refs (onended env i t)) env i t) as [-> ->] end.
    unfold world_ended. rewrite next_ui_with_world.
    change (buffers (refs (with_world _ s))) with (buffers (refs s)).
    rewrite <- H. apply live_any_refs.
  - destruct (live_stopSession (refs (state_of (stopSession env s))) env s)
      as [-> ->]. reflexivity.
Qed.

Lemma live_exec tr s :
  live (ui (render s)) = buffers (refs s) ->
  live (ui (render (exec tr s))) = buffers (refs (exec tr s)).
Proof.
  revert s. induction tr as [|[env e] tr IH]; intros s H; [exact H|].
  cbn [exec]. apply IH, live_step, H.
Qed.

(** X1.  In every state the component reaches, the two live transcripts
    that the next render shows are the two buffers: what was heard and what
    was said since the last completed turn (or the last stop), no more and
    no less. *)
Theorem live_transcripts_are_the_buffers (tr : list (Env * Event)) :
  currentUserTranscript (ui (render (exec tr initial)))
  = currentInputTranscriptionRef (refs (exec tr initial)) /\
  currentAiTranscript (ui (render (exec tr initial)))
  = currentOutputTranscriptionRef (refs (exec tr initial)).
Proof.
  assert (H : live (ui (render (exec tr initial))) = buffers (refs (exec tr initial)))
    by (apply live_exec; reflexivity).
  unfold live, buffers in H. injection H as Hu Ha. split; assumption.
Qed.

End LiveInvariant.

(* ===================================================================== *)
(** * Messages: what they leave alone *)
(* ===================================================================== *)

Section MessageFrame.

Lemma resources_dispatch env u s : resources_view (dispatch env u s) = resources_view s.
Proof. unfold resources_view. rewrite dispatch_refs, dispatch_world. reflexivity. Qed.

Lemma resources_message_input env m s :
  resources_view (message_input env m s) = resources_view s.
Proof.
  unfold message_input, resources_view.
  destruct (inputTranscription m); [|reflexivity]. cbv zeta. backstage. reflexivity.
Qed.

Lemma resources_message_output md env m s :
  resources_view (message_output md env m s) = resources_view s.
Proof.
  unfold message_output, resources_view.
  destruct (outputTranscription m); [|reflexivity]. cbv zeta.
  destruct md; backstage; reflexivity.
Qed.

Lemma resources_message_audio md env m s :
  resources_view (state_of (message_audio md env m s)) = resources_view s.
Proof.
  unfold message_audio, schedule, resources_view.
  destruct (modelTurnPart m) as [| |data]; cbn [state_of]; try reflexivity.
  destruct (JS.truthy data); [|reflexivity].
  remember (outputAudioContextRef (refs s)) as o eqn:E.
  destruct o as [c|]; [|rewrite E; reflexivity].
  destruct md; [|rewrite E; reflexivity].
  cbv zeta. destruct (Codec.decodeInbound data 24000 1); cbn [state_of];
    backstage; rewrite E; reflexivity.
Qed.

Lemma resources_message_turnComplete md env m s :
  resources_view (message_turnComplete md env m s) = resources_view s.
Proof.
  unfold message_turnComplete, resources_view.
  destruct (turnComplete m); [|reflexivity]. cbv zeta.
  destruct (JS.truthy (JS.trim (currentInputTranscriptionRef (refs s))));
    match goal with |- context [if ?b && ?c then _ else _] => destruct (b && c) end;
    backstage; reflexivity.
Qed.

(** A message never touches the session, the microphone, the capture graph
    or an audio context. *)
Lemma resources_onmessage md env m s :
  resources_view (state_of (onmessage md env m s)) = resources_view s.
Proof.
  unfold onmessage. cbv zeta.
  rewrite <- (resources_message_input env m s).
  generalize (message_input env m s). intros s1.
  rewrite <- (resources_message_output md env m s1).
  generalize (message_output md env m s1). intros s2.
  rewrite <- (resources_message_audio md env m s2).
  destruct (message_audio md env m s2) as [s3|s3]; cbn [and_then state_of];
    [apply resources_message_turnComplete | reflexivity].
Qed.

Lemma resources_onended env i s :
  resources_view (onended env i s) = resources_view s.
Proof.
  unfold onended, resources_view. cbv zeta.
  match goal with |- context [if ?b then _ else _] => destruct b end;
    backstage; reflexivity.
Qed.

Lemma resources_sessions s s' :
  resources_view s' = resources_view s -> sessions (world s') = sessions (world s).
Proof. unfold resources_view. congruence. Qed.

End MessageFrame.

(* ===================================================================== *)
(** * Fragments accumulate *)
(* ===================================================================== *)

Section Accumulate.

Lemma buffers_delivered (i : nat) (ms : list (Env * LiveServerMessage)) (s : App) :
  i < length (sessions (world s)) ->
  forallb (fun em => negb (turnComplete (snd em))) ms = true ->
  buffers (refs (exec (delivered i ms) s))
  = ((currentInputTranscriptionRef (refs s) ++ fragments inputTranscription ms)%string,
     (currentOutputTranscriptionRef (refs s) ++ fragments outputTranscription ms)%string).
Proof.
  revert s. induction ms as [|[env m] ms IH]; intros s Hi Hn.
  - cbn. rewrite !append_nil_r. reflexivity.
  - cbn [forallb snd] in Hn. apply andb_prop in Hn as [Hm Hn].
    apply negb_true_iff in Hm.
    cbn [delivered map fst snd exec step].
    destruct (lookup_lt_is_Some_2 (sessions (world s)) i Hi) as [x Hx].
    rewrite Hx.
    destruct (live_onmessage (refs s) (sessMode x) env m s) as [B _].
    cbv zeta in B. rewrite Hm in B.
    assert (B' : buffers (refs (state_of (onmessage (sessMode x) env m s)))
                 = (match inputTranscription m with
                    | Some t => (currentInputTranscriptionRef (refs s) ++ t)%string
                    | None => currentInputTranscriptionRef (refs s)
                    end,
                    match outputTranscription m with
                    | Some t => (currentOutputTranscriptionRef (refs s) ++ t)%string
                    | None => currentOutputTranscriptionRef (refs s)
                    end))
      by (rewrite B; destruct (onmessage (sessMode x) env m s); reflexivity).
    clear B. unfold buffers in B'. injection B' as Bi Bo.
    change (exec (map (fun em => (fst em, SessionMessage i (snd em))) ms) ?t)
      with (exec (delivered i ms) t).
    rewrite IH; [| |exact Hn].
    + rewrite Bi, Bo. cbn [fragments fold_right snd].
      fold (fragments inputTranscription ms). fold (fragments outputTranscription ms).
      destruct (inputTranscription m), (outputTranscription m);
        rewrite ?append_assoc; reflexivity.
    + rewrite (resources_sessions _ _ (resources_onmessage (sessMode x) env m s)).
      exact Hi.
Qed.

(** X2.  Between two turn completions the fragments of the messages that
    reach the callbacks of a session are appended to the live transcripts in
    the order of arrival: after any run of messages without a turn completion,
    the next render shows what it would have shown before, followed by every
    fragment heard (for the user) and every fragment said (for the
    assistant), whatever else the messages carry and whether or not their
    handlers threw. *)
Theorem fragments_accumulate (tr : list (Env * Event)) (i : nat)
    (ms : list (Env * LiveServerMessage)) :
  i < length (sessions (world (exec tr initial))) ->
  forallb (fun em => negb (turnComplete (snd em))) ms = true ->
  currentUserTranscript (ui (render (exec (delivered i ms) (exec tr initial))))
  = (currentUserTranscript (ui (render (exec tr initial)))
     ++ fragments inputTranscription ms)%string /\
  currentAiTranscript (ui (render (exec (delivered i ms) (exec tr initial))))
  = (currentAiTranscript (ui (render (exec tr initial)))
     ++ fragments outputTranscription ms)%string.
Proof.
  intros Hi Hn.
  pose proof (buffers_delivered i ms (exec tr initial) Hi Hn) as B.
  assert (L : live (ui (render (exec (delivered i ms) (exec tr initial))))
              = buffers (refs (exec (delivered i ms) (exec tr initial))))
    by (apply live_exec, live_exec; reflexivity).
  assert (L0 : live (ui (render (exec tr initial))) = buffers (refs (exec tr initial)))
    by (apply live_exec; reflexivity).
  rewrite B in L.
  pose proof (f_equal fst L) as Lu. pose proof (f_equal snd L) as La.
  pose proof (f_equal fst L0) as Lu0. pose proof (f_equal snd L0) as La0.
  cbn [fst snd live buffers] in Lu, La, Lu0, La0.
  rewrite Lu, La, Lu0, La0. split; reflexivity.
Qed.

Lemma fragments_accumulate_witness :
  0 < length (sessions (world (exec (events true session_opened) initial))) /\
  forallb (fun em => negb (turnComplete (snd em)))
    [(browser true, heard "sa"); (browser false, said "wa");
     (browser false, heard "lam")] = true /\
  currentUserTranscript
    (ui (render (exec (delivered 0 [(browser true, heard "sa");
                                    (browser false, said "wa");
                                    (browser false, heard "lam")])
                      (exec (events true session_opened) initial))))
  = "salam" /\
  currentAiTranscript
    (ui (render (exec (delivered 0 [(browser true, heard "sa");
                                    (browser false, said "wa");
                                    (browser false, heard "lam")])
                      (exec (events true session_opened) initial))))
  = "wa".
Proof.
  split; [vm_compute; lia|]. split; [reflexivity|].
  apply (fragments_accumulate (events true session_opened) 0
           [(browser true, heard "sa"); (browser false, said "wa");
            (browser false, heard "lam")]).
  - vm_compute. lia.
  - reflexivity.
Defined.

End Accumulate.

(* ===================================================================== *)
(** * Messages and playback *)
(* ===================================================================== *)

Section MessagePlayback.

Lemma playback_fields (s s' : App) :
  playback_view s' = playback_view s ->
  inputAudioContextRef (refs s') = inputAudioContextRef (refs s) /\
  outputAudioContextRef (refs s') = outputAudioContextRef (refs s) /\
  audioSourcesRef (refs s') = audioSourcesRef (refs s) /\
  nextStartTimeRef (refs s') = nextStartTimeRef (refs s) /\
  contexts (world s') = contexts (world s) /\
  sources (world s') = sources (world s).
Proof. unfold playback_view. intros H. repeat split; congruence. Qed.

Lemma playback_message_input env m s :
  playback_view (message_input env m s) = playback_view s.
Proof.
  unfold message_input, playback_view.
  destruct (inputTranscription m); [|reflexivity]. cbv zeta. backstage. reflexivity.
Qed.

Lemma playback_message_output md env m s :
  playback_view (message_output md env m s) = playback_view s.
Proof.
  unfold message_output, playback_view.
  destruct (outputTranscription m); [|reflexivity]. cbv zeta.
  destruct md; backstage; reflexivity.
Qed.

Lemma playback_message_turnComplete md env m s :
  playback_view (message_turnComplete md env m s) = playback_view s.
Proof.
  unfold message_turnComplete, playback_view.
  destruct (turnComplete m); [|reflexivity]. cbv zeta.
  destruct (JS.truthy (JS.trim (currentInputTranscriptionRef (refs s))));
    match goal with |- context [if ?b && ?c then _ else _] => destruct (b && c) end;
    backstage; reflexivity.
Qed.

(** Lines 159-160: nothing is scheduled in transcription mode, nor without
    an output context. *)
Lemma message_audio_idle md env m s :
  md = transcription \/ outputAudioContextRef (refs s) = None ->
  state_of (message_audio md env m s) = s.
Proof.
  unfold message_audio. intros H.
  destruct (modelTurnPart m) as [| |data]; try reflexivity.
  destruct (JS.truthy data); [|reflexivity].
  destruct H as [-> | ->]; [|reflexivity].
  destruct (outputAudioContextRef (refs s)); reflexivity.
Qed.

Lemma onmessage_idle md env m s :
  md = transcription \/ outputAudioContextRef (refs s) = None ->
  playback_view (state_of (onmessage md env m s)) = playback_view s.
Proof.
  intros H. unfold onmessage. cbv zeta.
  rewrite <- (playback_message_input env m s).
  assert (H1 : md = transcription \/
               outputAudioContextRef (refs (message_input env m s)) = None).
  { destruct H as [H|H]; [left; exact H | right].
    pose proof (playback_message_input env m s) as P. unfold playback_view in P.
    congruence. }
  revert H1. generalize (message_input env m s). intros s1 H1.
  rewrite <- (playback_message_output md env m s1).
  assert (H2 : md = transcription \/
               outputAudioContextRef (refs (message_output md env m s1)) = None).
  { destruct H1 as [H1|H1]; [left; exact H1 | right].
    pose proof (playback_message_output md env m s1) as P. unfold playback_view in P.
    congruence. }
  revert H2. generalize (message_output md env m s1). intros s2 H2.
  pose proof (message_audio_idle md env m s2 H2) as A.
  destruct (message_audio md env m s2) as [s3|s3]; cbn [and_then state_of] in *;
    subst s3; [apply playback_message_turnComplete | reflexivity].
Qed.

(** The status of the next render after a message handled in transcription
    mode. *)
Lemma status_onmessage_transcription r env m s :
  status (next_ui r (state_of (onmessage transcription env m s)))
  = status (next_ui r s).
Proof.
  unfold onmessage. cbv zeta.
  assert (H1 : status (next_ui r (message_input env m s)) = status (next_ui r s)).
  { unfold message_input. destruct (inputTranscription m); [|reflexivity].
    cbv zeta. fields. reflexivity. }
  rewrite <- H1. generalize (message_input env m s). intros s1.
  assert (H2 : status (next_ui r (message_output transcription env m s1))
               = status (next_ui r s1)).
  { unfold message_output. destruct (outputTranscription m); [|reflexivity].
    cbv zeta. fields. reflexivity. }
  rewrite <- H2. generalize (message_output transcription env m s1). intros s2.
  rewrite <- (message_audio_idle transcription env m s2) at 2 by (left; reflexivity).
  destruct (message_audio transcription env m s2) as [s3|s3];
    cbn [and_then state_of]; [|reflexivity].
  unfold message_turnComplete. destruct (turnComplete m); [|reflexivity].
  cbv zeta.
  destruct (JS.truthy (JS.trim (currentInputTranscriptionRef (refs s3))));
    match goal with |- context [if ?b && ?c then _ else _] => destruct (b && c) end;
    fields; reflexivity.
Qed.

(** X3.  A session started in transcription mode is silent: whatever
    message its callback is given, and in whatever state, no source is
    created or scheduled, the active set and the playback cursor stay, the
    status of the next render is the one it would have been (it never
    becomes [speaking]), and the history gains at most the entry of the
    user, never one of the assistant. *)
Theorem transcription_session_is_silent (env : Env) (m : LiveServerMessage)
    (s : App) :
  sources (world (state_of (onmessage transcription env m s))) = sources (world s) /\
  audioSourcesRef (refs (state_of (onmessage transcription env m s)))
  = audioSourcesRef (refs s) /\
  nextStartTimeRef (refs (state_of (onmessage transcription env m s)))
  = nextStartTimeRef (refs s) /\
  status (ui (render (state_of (onmessage transcription env m s))))
  = status (ui (render s)) /\
  exists heard : bool,
    shown_speakers (state_of (onmessage transcription env m s))
    = shown_speakers s ++ (if heard then [user] else []).
Proof.
  pose proof (onmessage_idle transcription env m s (or_introl eq_refl)) as P.
  unfold playback_view in P.
  split; [congruence|]. split; [congruence|]. split; [congruence|]. split.
  - rewrite !ui_render, status_onmessage_transcription.
    apply (beside_fields _ _ (beside_any_refs _ _ s)).
  - destruct (onmessage_dispatches transcription env m s) as (us & D & F & A).
    rewrite (dispatches_speakers us s _ D F), A.
    destruct (message_audio transcription env m _) as [s3|s3];
      [|exists false; reflexivity].
    destruct (turnComplete m); [|exists false; reflexivity].
    rewrite finalized_speakers.
    exists (JS.truthy (JS.trim (currentInputTranscriptionRef (refs s3)))).
    rewrite andb_false_r. unfold turn_speakers. rewrite app_nil_r. reflexivity.
Qed.

(** X4.  A message whose first model-turn part carries no inline data
    makes the handler throw at line 159
    ([message.serverContent?.modelTurn?.parts[0]?.inlineData.data] guards
    the turn and the part, not [inlineData]), in either mode.  The fragments
    of the message have been taken by then (the two buffers have grown);
    nothing is scheduled; and the turn completion the message may signal is
    not acted on: no entry is added to the history and the buffers are not
    cleared. *)
Theorem message_without_inline_data_throws (md : AppMode) (env : Env)
    (m : LiveServerMessage) (s : App) :
  modelTurnPart m = PartWithoutInlineData ->
  exists s',
    onmessage md env m s = Threw s' /\
    currentInputTranscriptionRef (refs s')
    = match inputTranscription m with
      | Some t => (currentInputTranscriptionRef (refs s) ++ t)%string
      | None => currentInputTranscriptionRef (refs s)
      end /\
    currentOutputTranscriptionRef (refs s')
    = match outputTranscription m with
      | Some t => (currentOutputTranscriptionRef (refs s) ++ t)%string
      | None => currentOutputTranscriptionRef (refs s)
      end /\
    playback_view s' = playback_view s /\
    shown_speakers s' = shown_speakers s.
Proof.
  intros Hm.
  assert (E : onmessage md env m s
              = Threw (message_output md env m (message_input env m s))).
  { unfold onmessage, message_audio. cbv zeta. rewrite Hm. reflexivity. }
  pose proof (live_onmessage (refs s) md env m s) as [B _]. cbv zeta in B.
  pose proof (onmessage_dispatches md env m s) as (us & D & F & A).
  assert (P : playback_view (message_output md env m (message_input env m s))
              = playback_view s).
  { rewrite playback_message_output. apply playback_message_input. }
  assert (A' : flat_map appends us = []).
  { rewrite A. unfold message_audio. rewrite Hm. reflexivity. }
  rewrite E in B, D. cbn [state_of] in B, D.
  eexists. split; [exact E|].
  pose proof (f_equal fst B) as Bi. pose proof (f_equal snd B) as Bo.
  cbn [fst snd buffers] in Bi, Bo.
  split; [exact Bi|]. split; [exact Bo|]. split; [exact P|].
  rewrite (dispatches_speakers us s _ D F), A'. apply app_nil_r.
Qed.

Lemma message_without_inline_data_throws_witness :
  modelTurnPart (mkMessage (Some "salam") None PartWithoutInlineData true)
  = PartWithoutInlineData /\
  exists s',
    onmessage conversation (browser true)
      (mkMessage (Some "salam") None PartWithoutInlineData true)
      (exec (events true session_opened) initial) = Threw s' /\
    currentInputTranscriptionRef (refs s') = "salam" /\
    currentOutputTranscriptionRef (refs s') = EmptyString /\
    playback_view s' = playback_view (exec (events true session_opened) initial) /\
    shown_speakers s' = [].
Proof.
  split; [reflexivity|].
  apply (message_without_inline_data_throws conversation (browser true)
           (mkMessage (Some "salam") None PartWithoutInlineData true)
           (exec (events true session_opened) initial)).
  reflexivity.
Defined.

End MessagePlayback.

(* ===================================================================== *)
(** * Scheduling a chunk *)
(* ===================================================================== *)

Section Scheduling.

Local Open Scope Q_scope.

(** X5.  A chunk of audio that arrives in conversation mode while there
    is an output context, and that decodes, is started at the later of the
    playback cursor and the current time of the context: never in the past,
    and never before the end of what is scheduled already; the cursor then
    stands at the end of the new chunk, the source is in the active set, and
    the handler returns.  The transcripts and the turn completion that the
    same message may carry do not change this. *)
Theorem audio_chunk_is_scheduled (env : Env) (m : LiveServerMessage) (s : App)
    (data : string) (audioContext : nat) (audioBuffer : Codec.AudioBuffer) :
  modelTurnPart m = InlineData data ->
  JS.truthy data = true ->
  outputAudioContextRef (refs s) = Some audioContext ->
  Codec.decodeInbound data 24000 1 = Some audioBuffer ->
  exists s',
    onmessage conversation env m s = Returned s' /\
    sources (world s')
    = sources (world s)
      ++ [ {| srcContext := audioContext;
              srcStart := Qmax (nextStartTimeRef (refs s)) (currentTime env);
              srcDuration := Codec.duration audioBuffer |} ] /\
    nextStartTimeRef (refs s')
    = Qmax (nextStartTimeRef (refs s)) (currentTime env) + Codec.duration audioBuffer /\
    In (length (sources (world s))) (audioSourcesRef (refs s')) /\
    currentTime env <= Qmax (nextStartTimeRef (refs s)) (currentTime env) /\
    nextStartTimeRef (refs s) <= Qmax (nextStartTimeRef (refs s)) (currentTime env) /\
    Qmax (nextStartTimeRef (refs s)) (currentTime env) <= nextStartTimeRef (refs s').
Proof.
  intros Hm Ht Ho Hd. unfold onmessage. cbv zeta.
  pose proof (playback_message_input env m s) as P1.
  revert P1. generalize (message_input env m s). intros s1 P1.
  pose proof (playback_message_output conversation env m s1) as P2.
  revert P2. generalize (message_output conversation env m s1). intros s2 P2.
  assert (P : playback_view s2 = playback_view s) by congruence.
  clear P1 P2 s1.
  apply playback_fields in P as (_ & Ho2 & Hs2 & Hn2 & _ & Hsrc2).
  unfold message_audio. rewrite Hm, Ht, Ho2, Ho. unfold schedule. cbv zeta.
  rewrite Hd. cbn [and_then].
  eexists. split; [reflexivity|].
  match goal with |- context [message_turnComplete conversation env m ?t] =>
    destruct (playback_fields _ _ (playback_message_turnComplete conversation env m t))
      as (_ & _ & Hs4 & Hn4 & _ & Hsrc4)
  end.
  rewrite Hs4, Hn4, Hsrc4. proj. rewrite Hn2, Hsrc2.
  split; [reflexivity|]. split; [reflexivity|]. split.
  - unfold set_add. destruct (existsb _ _) eqn:Ex.
    + apply existsb_exists in Ex as (x & Hx & Hxe).
      apply Nat.eqb_eq in Hxe. subst x. exact Hx.
    + apply in_or_app. right. left. reflexivity.
  - split; [apply Q.le_max_r|]. split; [apply Q.le_max_l|].
    rewrite <- (Qplus_0_r (Qmax _ _)) at 1.
    apply Qplus_le_r, duration_nonneg.
Qed.

Lemma audio_chunk_is_scheduled_witness :
  modelTurnPart (audio "AAAAAA==") = InlineData "AAAAAA==" /\
  JS.truthy "AAAAAA==" = true /\
  outputAudioContextRef (refs (exec (events true session_opened) initial)) = Some 1%nat /\
  Codec.decodeInbound "AAAAAA==" 24000 1
  = Some (Codec.mkBuffer 24000 1 [[0 # 32768; 0 # 32768]]) /\
  exists s',
    onmessage conversation (browser true) (audio "AAAAAA==")
      (exec (events true session_opened) initial) = Returned s' /\
    sources (world s')
    = [ {| srcContext := 1; srcStart := Qmax 0 0; srcDuration := 2 # 24000 |} ] /\
    nextStartTimeRef (refs s') = Qmax 0 0 + (2 # 24000) /\
    In 0%nat (audioSourcesRef (refs s')) /\
    0 <= Qmax 0 0 /\ 0 <= Qmax 0 0 /\ Qmax 0 0 <= nextStartTimeRef (refs s').
Proof.
  split; [reflexivity|]. split; [reflexivity|]. split; [reflexivity|].
  split; [reflexivity|].
  apply (audio_chunk_is_scheduled (browser true) (audio "AAAAAA==")
           (exec (events true session_opened) initial) "AAAAAA==" 1%nat
           (Codec.mkBuffer 24000 1 [[0 # 32768; 0 # 32768]]));
    reflexivity.
Defined.

End Scheduling.

(* ===================================================================== *)
(** * After a stop *)
(* ===================================================================== *)

Section AfterStop.

Lemma playback_onopen env s :
  playback_view (state_of (onopen env s)) = playback_view s.
Proof.
  unfold onopen, playback_view. cbv zeta.
  destruct (inputAudioContextRef (refs (setStatus env listening s)));
    [destruct (mediaStreamRef (refs (setStatus env listening s)))|];
    cbn [state_of]; backstage; reflexivity.
Qed.

Lemma set_delete_nil i : set_delete i [] = [].
Proof. reflexivity. Qed.

(** No event but a click on the start button gives the component an output
    context, and without one nothing is scheduled. *)
Lemma step_without_output env e s :
  e <> ClickToggle ->
  consistent s ->
  outputAudioContextRef (refs s) = None ->
  outputAudioContextRef (refs (step env e s)) = None /\
  audioSourcesRef (refs (step env e s)) = [] /\
  sources (world (step env e s)) = sources (world s).
Proof.
  intros He C Ho.
  pose proof (sources_need_output s C Ho) as Hs.
  assert (Stop : forall env t, consistent t ->
            outputAudioContextRef (refs t) = None ->
            sources (world t) = sources (world s) ->
            outputAudioContextRef (refs (state_of (stopSession env t))) = None /\
            audioSourcesRef (refs (state_of (stopSession env t))) = [] /\
            sources (world (state_of (stopSession env t))) = sources (world s)).
  { intros env' t Ct _ Hsrc.
    destruct (stopSession_playback env' t Ct) as (_ & A & B & _ & D & _).
    repeat split; congruence. }
  assert (Same : forall t, playback_view t = playback_view s ->
            outputAudioContextRef (refs t) = None /\
            audioSourcesRef (refs t) = [] /\
            sources (world t) = sources (world s)).
  { intros t P. apply playback_fields in P as (_ & A & B & _ & _ & D).
    repeat split; congruence. }
  destruct e as [| |m|i|i msg|i|i|i|]; cbn [step].
  - apply Same. reflexivity.
  - contradiction.
  - apply Same. unfold onClickMode.
    destruct (negb (isRecording (ui s))); [apply playback_dispatch | reflexivity].
  - destruct (sessions (world s) !! i); [|apply Same; reflexivity].
    apply Same, playback_onopen.
  - destruct (sessions (world s) !! i) as [x|]; [|apply Same; reflexivity].
    apply Same, onmessage_idle. right. exact Ho.
  - destruct (sessions (world s) !! i); [|apply Same; reflexivity].
    unfold onerror. cbv zeta. apply Stop.
    + apply consistent_dispatch. eapply consistent_playback; [|exact C]. reflexivity.
    + unfold setStatus. rewrite dispatch_refs. exact Ho.
    + unfold setStatus. rewrite dispatch_world. reflexivity.
  - destruct (sessions (world s) !! i); [|apply Same; reflexivity].
    unfold onclose. apply Stop; [exact C | exact Ho | reflexivity].
  - destruct (sources (world s) !! i); [|apply Same; reflexivity].
    destruct (existsb (Nat.eqb i) (ended (world s))); [apply Same; reflexivity|].
    unfold onended. cbv zeta. proj. rewrite Hs, set_delete_nil. cbn [length Nat.eqb].
    unfold setStatus. rewrite dispatch_refs, dispatch_world. proj.
    repeat split; assumption.
  - apply Stop; [exact C | exact Ho | reflexivity].
Qed.

Lemma exec_without_output tr s :
  Forall (fun ee : Env * Event => snd ee <> ClickToggle) tr ->
  consistent s ->
  outputAudioContextRef (refs s) = None ->
  audioSourcesRef (refs (exec tr s)) = [] /\
  sources (world (exec tr s)) = sources (world s).
Proof.
  revert s. induction tr as [|[env e] tr IH]; intros s HF C Ho.
  - split; [apply (sources_need_output s C Ho) | reflexivity].
  - inversion HF as [|? ? He HF']; subst. cbn [snd] in He. cbn [exec].
    destruct (step_without_output env e s He C Ho) as (Ho1 & _ & Hsrc1).
    destruct (IH (step env e s) HF' (consistent_step env e s C) Ho1) as [A B].
    split; [exact A | congruence].
Qed.

(** X6.  Once [stopSession] has run, in whatever reached state and from
    whichever caller, nothing is played until the start button is clicked
    again: whatever else happens (messages that are still delivered, with
    audio or without, events of sources, callbacks of sessions, renders,
    clicks on the mode buttons), no source is created and the active set
    stays empty. *)
Theorem no_playback_after_stop (tr : list (Env * Event)) (env : Env)
    (tr' : list (Env * Event)) :
  Forall (fun ee : Env * Event => snd ee <> ClickToggle) tr' ->
  sources (world (exec tr' (state_of (stopSession env (exec tr initial)))))
  = sources (world (exec tr initial)) /\
  audioSourcesRef (refs (exec tr' (state_of (stopSession env (exec tr initial))))) = [].
Proof.
  intros HF.
  pose proof (consistent_exec tr initial consistent_initial) as C.
  destruct (stopSession_playback env _ C) as (_ & Ho & _ & _ & Hsrc & _).
  destruct (exec_without_output tr' _ HF (consistent_stopSession env _ C) Ho) as [A B].
  split; [congruence | exact A].
Qed.

Lemma no_playback_after_stop_witness :
  Forall (fun ee : Env * Event => snd ee <> ClickToggle)
    (events true [SessionMessage 0 (audio "AAAAAA=="); Render; SourceEnded 0]) /\
  sources (world (exec (events true [SessionMessage 0 (audio "AAAAAA=="); Render;
                                     SourceEnded 0])
                    (state_of (stopSession (browser true)
                                 (exec (events true two_sources) initial)))))
  = sources (world (exec (events true two_sources) initial)) /\
  audioSourcesRef
    (refs (exec (events true [SessionMessage 0 (audio "AAAAAA=="); Render;
                              SourceEnded 0])
             (state_of (stopSession (browser true)
                          (exec (events true two_sources) initial))))) = [].
Proof.
  assert (H : Forall (fun ee : Env * Event => snd ee <> ClickToggle)
                (events true [SessionMessage 0 (audio "AAAAAA=="); Render;
                              SourceEnded 0]))
    by (repeat constructor; discriminate).
  split; [exact H|].
  exact (no_playback_after_stop (events true two_sources) (browser true)
           (events true [SessionMessage 0 (audio "AAAAAA=="); Render; SourceEnded 0])
           H).
Defined.

End AfterStop.

(* ===================================================================== *)
(** * Starting a session *)
(* ===================================================================== *)

Section Start.

(** With the credential set and the microphone refused: what is left of
    the call. *)
Lemma startSession_refused (env : Env) (s : App) :
  key_missing env = false ->
  micGranted env = false ->
  startSession env s = Returned (state_of (startSession env s)) /\
  (forall r,
      beside_history (next_ui r (state_of (startSession env s)))
      = (mode (next_ui r s), error, false,
         currentUserTranscript (next_ui r s), currentAiTranscript (next_ui r s),
         None)) /\
  refs (state_of (startSession env s)) = refs s /\
  micRequests (world (state_of (startSession env s))) = S (micRequests (world s)) /\
  console (world (state_of (startSession env s)))
  = console (world s) ++ ["Failed to start session:"] /\
  streams (world (state_of (startSession env s))) = streams (world s) /\
  nodes (world (state_of (startSession env s))) = nodes (world s) /\
  contexts (world (state_of (startSession env s))) = contexts (world s) /\
  sessions (world (state_of (startSession env s))) = sessions (world s).
Proof.
  intros Hk Hm. unfold startSession. rewrite Hk, Hm. cbv zeta. cbn [state_of].
  split; [reflexivity|]. unfold beside_history.
  repeat split; try (intros r; fields; reflexivity); backstage; reflexivity.
Qed.

(** X7.  With the credential set and the microphone refused,
    [startSession] returns (the rejection of [getUserMedia] is caught): the
    next render shows [error], no recording and no summary; one request for
    the microphone was made, one line logged; and no stream, audio context
    or session was created, no ref assigned. *)
Theorem start_microphone_refused (env : Env) (s : App) :
  key_missing env = false ->
  micGranted env = false ->
  exists s',
    startSession env s = Returned s' /\
    status (ui (render s')) = error /\
    isRecording (ui (render s')) = false /\
    summary (ui (render s')) = None /\
    refs s' = refs s /\
    micRequests (world s') = S (micRequests (world s)) /\
    console (world s') = console (world s) ++ ["Failed to start session:"] /\
    streams (world s') = streams (world s) /\
    contexts (world s') = contexts (world s) /\
    sessions (world s') = sessions (world s).
Proof.
  intros Hk Hm.
  destruct (startSession_refused env s Hk Hm)
    as (E & B & Hr & Hmi & Hco & Hst & _ & Hcx & Hse).
  exists (state_of (startSession env s)). split; [exact E|].
  rewrite !ui_render.
  specialize (B (refs (state_of (startSession env s)))).
  unfold beside_history in B.
  pose proof (f_equal (fun t => snd (fst (fst (fst (fst t))))) B) as Bs.
  pose proof (f_equal (fun t => snd (fst (fst (fst t)))) B) as Br.
  pose proof (f_equal snd B) as By.
  cbn [fst snd] in Bs, Br, By.
  repeat split; assumption.
Qed.

Lemma start_microphone_refused_witness :
  key_missing (mkEnv (Some "key") false true 0 true) = false /\
  micGranted (mkEnv (Some "key") false true 0 true) = false /\
  exists s',
    startSession (mkEnv (Some "key") false true 0 true) initial = Returned s' /\
    status (ui (render s')) = error /\
    isRecording (ui (render s')) = false /\
    summary (ui (render s')) = None /\
    refs s' = refs initial /\
    micRequests (world s') = 1 /\
    console (world s') = ["Failed to start session:"] /\
    streams (world s') = [] /\
    contexts (world s') = [] /\
    sessions (world s') = [].
Proof.
  split; [reflexivity|]. split; [reflexivity|].
  apply (start_microphone_refused (mkEnv (Some "key") false true 0 true) initial);
    reflexivity.
Defined.

(** With the credential set and the microphone granted: what
    [startSession] creates and where it stores it. *)
Lemma startSession_granted (env : Env) (s : App) :
  key_missing env = false ->
  micGranted env = true ->
  startSession env s = Returned (state_of (startSession env s)) /\
  (forall r,
      beside_history (next_ui r (state_of (startSession env s)))
      = (mode (next_ui r s), connecting, true,
         currentUserTranscript (next_ui r s), currentAiTranscript (next_ui r s),
         None)) /\
  micRequests (world (state_of (startSession env s))) = S (micRequests (world s)) /\
  streams (world (state_of (startSession env s))) = streams (world s) ++ [true] /\
  mediaStreamRef (refs (state_of (startSession env s)))
  = Some (length (streams (world s))) /\
  contexts (world (state_of (startSession env s)))
  = contexts (world s) ++ [running; running] /\
  inputAudioContextRef (refs (state_of (startSession env s)))
  = Some (length (contexts (world s))) /\
  outputAudioContextRef (refs (state_of (startSession env s)))
  = Some (S (length (contexts (world s)))) /\
  sessions (world (state_of (startSession env s)))
  = sessions (world s)
    ++ [ {| sessMode := mode (ui s);
            sessPromise := if connectResolves env then fulfilled else rejected;
            sessClosed := false |} ] /\
  sessionPromiseRef (refs (state_of (startSession env s)))
  = Some (length (sessions (world s))) /\
  nextStartTimeRef (refs (state_of (startSession env s))) = 0%Q /\
  nodes (world (state_of (startSession env s))) = nodes (world s) /\
  scriptProcessorRef (refs (state_of (startSession env s)))
  = scriptProcessorRef (refs s) /\
  mediaStreamSourceRef (refs (state_of (startSession env s)))
  = mediaStreamSourceRef (refs s) /\
  sources (world (state_of (startSession env s))) = sources (world s).
Proof.
  intros Hk Hm. unfold startSession. rewrite Hk, Hm. cbv zeta. cbn [state_of].
  split; [reflexivity|]. unfold start_open, beside_history.
  repeat split; try (intros r; fields; reflexivity); backstage;
    rewrite ?dispatch_ui, ?length_app, <- ?app_assoc; cbn [length app];
    rewrite ?Nat.add_1_r; reflexivity.
Qed.

(** X8.  With the credential set and the microphone granted,
    [startSession] returns having acquired exactly one microphone stream,
    two audio contexts (the input one and the output one, distinct, both
    running) and one session, each held by its ref; the session closes over
    the mode of the render the click was made on; the playback cursor is
    back at zero; no node and no source is created; and the next render
    shows [connecting], recording, and no summary.  Whether [connect] will
    resolve plays no part: its promise is stored, not awaited. *)
Theorem start_acquires (env : Env) (s : App) :
  key_missing env = false ->
  micGranted env = true ->
  exists s',
    startSession env s = Returned s' /\
    status (ui (render s')) = connecting /\
    isRecording (ui (render s')) = true /\
    summary (ui (render s')) = None /\
    micRequests (world s') = S (micRequests (world s)) /\
    streams (world s') = streams (world s) ++ [true] /\
    mediaStreamRef (refs s') = Some (length (streams (world s))) /\
    contexts (world s') = contexts (world s) ++ [running; running] /\
    inputAudioContextRef (refs s') = Some (length (contexts (world s))) /\
    outputAudioContextRef (refs s') = Some (S (length (contexts (world s)))) /\
    sessions (world s')
    = sessions (world s)
      ++ [ {| sessMode := mode (ui s);
              sessPromise := if connectResolves env then fulfilled else rejected;
              sessClosed := false |} ] /\
    sessionPromiseRef (refs s') = Some (length (sessions (world s))) /\
    nextStartTimeRef (refs s') = 0%Q /\
    nodes (world s') = nodes (world s) /\
    sources (world s') = sources (world s).
Proof.
  intros Hk Hm.
  destruct (startSession_granted env s Hk Hm)
    as (E & B & H1 & H2 & H3 & H4 & H5 & H6 & H7 & H8 & H9 & H10 & _ & _ & H11).
  exists (state_of (startSession env s)). split; [exact E|].
  rewrite !ui_render.
  specialize (B (refs (state_of (startSession env s)))).
  unfold beside_history in B.
  pose proof (f_equal (fun t => snd (fst (fst (fst (fst t))))) B) as Bs.
  pose proof (f_equal (fun t => snd (fst (fst (fst t)))) B) as Br.
  pose proof (f_equal snd B) as By.
  cbn [fst snd] in Bs, Br, By.
  repeat split; assumption.
Qed.

Lemma start_acquires_witness :
  key_missing (browser true) = false /\
  micGranted (browser true) = true /\
  exists s',
    startSession (browser true) initial = Returned s' /\
    status (ui (render s')) = connecting /\
    isRecording (ui (render s')) = true /\
    summary (ui (render s')) = None /\
    micRequests (world s') = 1 /\
    streams (world s') = [true] /\
    mediaStreamRef (refs s') = Some 0 /\
    contexts (world s') = [running; running] /\
    inputAudioContextRef (refs s') = Some 0 /\
    outputAudioContextRef (refs s') = Some 1 /\
    sessions (world s')
    = [ {| sessMode := conversation; sessPromise := fulfilled; sessClosed := false |} ] /\
    sessionPromiseRef (refs s') = Some 0 /\
    nextStartTimeRef (refs s') = 0%Q /\
    nodes (world s') = [] /\
    sources (world s') = [].
Proof.
  split; [reflexivity|]. split; [reflexivity|].
  apply (start_acquires (browser true) initial); reflexivity.
Defined.

End Start.

(* ===================================================================== *)
(** * The session opens *)
(* ===================================================================== *)

Section Open.

Lemma wire_nodes (l : list bool) :
  <[S (length l) := true]> (<[length l := true]> (l ++ [false; false]))
  = l ++ [true; true].
Proof.
  induction l as [|b l IH]; [reflexivity|]. simpl. f_equal. exact IH.
Qed.

(** [onopen] with the input context and the stream at hand: the capture
    graph is built. *)
Lemma onopen_wires (env : Env) (s : App) (c m : nat) :
  inputAudioContextRef (refs s) = Some c ->
  mediaStreamRef (refs s) = Some m ->
  onopen env s = Returned (state_of (onopen env s)) /\
  nodes (world (state_of (onopen env s))) = nodes (world s) ++ [true; true] /\
  mediaStreamSourceRef (refs (state_of (onopen env s)))
  = Some (length (nodes (world s))) /\
  scriptProcessorRef (refs (state_of (onopen env s)))
  = Some (S (length (nodes (world s)))) /\
  sessionPromiseRef (refs (state_of (onopen env s))) = sessionPromiseRef (refs s) /\
  mediaStreamRef (refs (state_of (onopen env s))) = mediaStreamRef (refs s) /\
  inputAudioContextRef (refs (state_of (onopen env s)))
  = inputAudioContextRef (refs s) /\
  outputAudioContextRef (refs (state_of (onopen env s)))
  = outputAudioContextRef (refs s) /\
  sessions (world (state_of (onopen env s))) = sessions (world s) /\
  streams (world (state_of (onopen env s))) = streams (world s) /\
  contexts (world (state_of (onopen env s))) = contexts (world s) /\
  micRequests (world (state_of (onopen env s))) = micRequests (world s).
Proof.
  intros Hc Hm. unfold onopen. cbv zeta.
  assert (Hc' : inputAudioContextRef (refs (setStatus env listening s)) = Some c)
    by (unfold setStatus; rewrite dispatch_refs; exact Hc).
  assert (Hm' : mediaStreamRef (refs (setStatus env listening s)) = Some m)
    by (unfold setStatus; rewrite dispatch_refs; exact Hm).
  rewrite Hc', Hm'. cbn [state_of].
  split; [reflexivity|].
  repeat split; backstage; try reflexivity.
  - rewrite !length_app. cbn [length]. rewrite Nat.add_1_r.
    generalize (nodes (world s)). intros l.
    rewrite <- app_assoc. cbn [app]. apply wire_nodes.
  - rewrite length_app. cbn [length]. rewrite Nat.add_1_r. reflexivity.
Qed.

(** [onopen] without them: the call throws, having set the status. *)
Lemma onopen_throws (env : Env) (s : App) :
  inputAudioContextRef (refs s) = None \/ mediaStreamRef (refs s) = None ->
  onopen env s = Threw (setStatus env listening s).
Proof.
  intros H. unfold onopen. cbv zeta.
  assert (Hc : inputAudioContextRef (refs (setStatus env listening s))
               = inputAudioContextRef (refs s))
    by (unfold setStatus; rewrite dispatch_refs; reflexivity).
  assert (Hm : mediaStreamRef (refs (setStatus env listening s))
               = mediaStreamRef (refs s))
    by (unfold setStatus; rewrite dispatch_refs; reflexivity).
  rewrite Hc, Hm.
  destruct H as [-> | ->]; [reflexivity|].
  destruct (inputAudioContextRef (refs s)); reflexivity.
Qed.

(** X9.  What [onopen] does depends on the refs it finds.  With the input
    context and the stream in place it returns, having created the two
    nodes of the capture graph, connected both and stored them in their
    refs; nothing else of the platform changes.  With either ref empty, as
    after a teardown, it throws at line 127 (the non-null assertions check
    nothing), creates nothing and leaves refs and platform objects as they
    are.  Either way the status was set first: the next render shows
    [listening]. *)
Theorem onopen_wires_or_throws (env : Env) (s : App) :
  match inputAudioContextRef (refs s), mediaStreamRef (refs s) with
  | Some _, Some _ =>
      exists s',
        onopen env s = Returned s' /\
        nodes (world s') = nodes (world s) ++ [true; true] /\
        mediaStreamSourceRef (refs s') = Some (length (nodes (world s))) /\
        scriptProcessorRef (refs s') = Some (S (length (nodes (world s)))) /\
        streams (world s') = streams (world s) /\
        contexts (world s') = contexts (world s) /\
        sessions (world s') = sessions (world s) /\
        status (ui (render s')) = listening
  | _, _ =>
      exists s',
        onopen env s = Threw s' /\
        refs s' = refs s /\
        world s' = world s /\
        status (ui (render s')) = listening
  end.
Proof.
  assert (St : status (ui (render (state_of (onopen env s)))) = listening).
  { rewrite ui_render. unfold onopen. cbv zeta.
    destruct (inputAudioContextRef (refs (setStatus env listening s)));
      [destruct (mediaStreamRef (refs (setStatus env listening s)))|];
      cbn [state_of]; fields; reflexivity. }
  destruct (inputAudioContextRef (refs s)) as [c|] eqn:Ec;
    [destruct (mediaStreamRef (refs s)) as [m|] eqn:Em|].
  - destruct (onopen_wires env s c m Ec Em)
      as (E & Hn & Hs & Hp & _ & _ & _ & _ & Hse & Hst & Hco & _).
    exists (state_of (onopen env s)). repeat split; assumption.
  - revert St. rewrite (onopen_throws env s) by (right; exact Em).
    cbn [state_of]. intros St. eexists. split; [reflexivity|].
    unfold setStatus in *. rewrite dispatch_refs, dispatch_world. auto.
  - revert St. rewrite (onopen_throws env s) by (left; exact Ec).
    cbn [state_of]. intros St. eexists. split; [reflexivity|].
    unfold setStatus in *. rewrite dispatch_refs, dispatch_world. auto.
Qed.

End Open.

(* ===================================================================== *)
(** * What [stopSession] releases *)
(* ===================================================================== *)

Section StopReleases.

(** The session, the streams and the capture graph after each block of
    [stopSession]. *)
Lemma stop_closeSession_capture (s : App) :
  sessions (world (stop_closeSession s))
  = match sessionPromiseRef (refs s) with
    | Some p =>
        match sessions (world s) !! p with
        | Some x =>
            match sessPromise x with
            | fulfilled => <[p := close_session x]> (sessions (world s))
            | rejected => sessions (world s)
            end
        | None => sessions (world s)
        end
    | None => sessions (world s)
    end /\
  streams (world (stop_closeSession s)) = streams (world s) /\
  nodes (world (stop_closeSession s)) = nodes (world s) /\
  micRequests (world (stop_closeSession s)) = micRequests (world s) /\
  console (world (stop_closeSession s))
  = match sessionPromiseRef (refs s) with
    | Some p =>
        match sessions (world s) !! p with
        | Some x =>
            match sessPromise x with
            | fulfilled => console (world s)
            | rejected => console (world s) ++ ["Error closing session:"]
            end
        | None => console (world s)
        end
    | None => console (world s)
    end.
Proof.
  unfold stop_closeSession.
  destruct (sessionPromiseRef (refs s)) as [p|]; [|repeat split; reflexivity].
  destruct (sessions (world s) !! p) as [[m [|] c]|]; repeat split; reflexivity.
Qed.

Lemma stop_releaseTracks_capture (s : App) :
  sessions (world (stop_releaseTracks s)) = sessions (world s) /\
  streams (world (stop_releaseTracks s))
  = match mediaStreamRef (refs s) with
    | Some m => <[m := false]> (streams (world s))
    | None => streams (world s)
    end /\
  nodes (world (stop_releaseTracks s)) = nodes (world s) /\
  micRequests (world (stop_releaseTracks s)) = micRequests (world s) /\
  console (world (stop_releaseTracks s)) = console (world s).
Proof.
  unfold stop_releaseTracks.
  destruct (mediaStreamRef (refs s)); repeat split; reflexivity.
Qed.

Lemma stop_disconnectProcessor_capture (s : App) :
  sessions (world (stop_disconnectProcessor s)) = sessions (world s) /\
  streams (world (stop_disconnectProcessor s)) = streams (world s) /\
  nodes (world (stop_disconnectProcessor s))
  = match scriptProcessorRef (refs s) with
    | Some n => <[n := false]> (nodes (world s))
    | None => nodes (world s)
    end /\
  micRequests (world (stop_disconnectProcessor s)) = micRequests (world s) /\
  console (world (stop_disconnectProcessor s)) = console (world s).
Proof.
  unfold stop_disconnectProcessor.
  destruct (scriptProcessorRef (refs s)); repeat split; reflexivity.
Qed.

Lemma stop_disconnectSource_capture (s : App) :
  sessions (world (stop_disconnectSource s)) = sessions (world s) /\
  streams (world (stop_disconnectSource s)) = streams (world s) /\
  nodes (world (stop_disconnectSource s))
  = match mediaStreamSourceRef (refs s) with
    | Some n => <[n := false]> (nodes (world s))
    | None => nodes (world s)
    end /\
  micRequests (world (stop_disconnectSource s)) = micRequests (world s) /\
  console (world (stop_disconnectSource s)) = console (world s).
Proof.
  unfold stop_disconnectSource.
  destruct (mediaStreamSourceRef (refs s)); repeat split; reflexivity.
Qed.

Lemma stop_closeInput_capture (s : App) :
  sessions (world (state_of (stop_closeInput s))) = sessions (world s) /\
  streams (world (state_of (stop_closeInput s))) = streams (world s) /\
  nodes (world (state_of (stop_closeInput s))) = nodes (world s) /\
  micRequests (world (state_of (stop_closeInput s))) = micRequests (world s) /\
  console (world (state_of (stop_closeInput s))) = console (world s).
Proof.
  destruct (stop_closeInput_cases s)
    as [[_ ->]|[(c & _ & _ & ->)|(c & _ & _ & ->)]]; repeat split; reflexivity.
Qed.

Lemma stop_closeOutput_capture (s : App) :
  sessions (world (state_of (stop_closeOutput s))) = sessions (world s) /\
  streams (world (state_of (stop_closeOutput s))) = streams (world s) /\
  nodes (world (state_of (stop_closeOutput s))) = nodes (world s) /\
  micRequests (world (state_of (stop_closeOutput s))) = micRequests (world s) /\
  console (world (state_of (stop_closeOutput s))) = console (world s).
Proof.
  destruct (stop_closeOutput_cases s)
    as [[_ ->]|[(c & _ & _ & ->)|(c & _ & _ & ->)]]; repeat split; reflexivity.
Qed.

(** The session, the streams and the capture graph after [stopSession]. *)
Lemma stopSession_capture (env : Env) (s : App) :
  sessions (world (state_of (stopSession env s)))
  = match sessionPromiseRef (refs s) with
    | Some p =>
        match sessions (world s) !! p with
        | Some x =>
            match sessPromise x with
            | fulfilled => <[p := close_session x]> (sessions (world s))
            | rejected => sessions (world s)
            end
        | None => sessions (world s)
        end
    | None => sessions (world s)
    end /\
  streams (world (state_of (stopSession env s)))
  = match mediaStreamRef (refs s) with
    | Some m => <[m := false]> (streams (world s))
    | None => streams (world s)
    end /\
  nodes (world (state_of (stopSession env s)))
  = match mediaStreamSourceRef (refs s) with
    | Some n =>
        <[n := false]>
          match scriptProcessorRef (refs s) with
          | Some n' => <[n' := false]> (nodes (world s))
          | None => nodes (world s)
          end
    | None =>
        match scriptProcessorRef (refs s) with
        | Some n' => <[n' := false]> (nodes (world s))
        | None => nodes (world s)
        end
    end /\
  micRequests (world (state_of (stopSession env s))) = micRequests (world s) /\
  console (world (state_of (stopSession env s)))
  = match sessionPromiseRef (refs s) with
    | Some p =>
        match sessions (world s) !! p with
        | Some x =>
            match sessPromise x with
            | fulfilled => console (world s)
            | rejected => console (world s) ++ ["Error closing session:"]
            end
        | None => console (world s)
        end
    | None => console (world s)
    end.
Proof.
  rewrite stopSession_state.
  set (s2 := setStatus env idle (setIsRecording env false s)).
  assert (Hr : refs s2 = refs s)
    by (unfold s2, setStatus, setIsRecording; rewrite !dispatch_refs; reflexivity).
  assert (Hw : world s2 = world s)
    by (unfold s2, setStatus, setIsRecording; rewrite !dispatch_world; reflexivity).
  rewrite <- Hr, <- Hw. clearbody s2. clear Hr Hw.
  destruct (stop_closeSession_capture s2) as (A3 & B3 & C3 & D3 & E3).
  destruct (stop_closeSession_view s2) as (_ & _ & M3 & P3 & S3).
  revert A3 B3 C3 D3 E3 M3 P3 S3. generalize (stop_closeSession s2). intros s3.
  intros A3 B3 C3 D3 E3 M3 P3 S3.
  destruct (stop_releaseTracks_capture s3) as (A4 & B4 & C4 & D4 & E4).
  destruct (stop_releaseTracks_view s3) as (_ & _ & _ & P4 & S4).
  revert A4 B4 C4 D4 E4 P4 S4. generalize (stop_releaseTracks s3). intros s4.
  intros A4 B4 C4 D4 E4 P4 S4.
  destruct (stop_disconnectProcessor_capture s4) as (A5 & B5 & C5 & D5 & E5).
  destruct (stop_disconnectProcessor_view s4) as (_ & _ & _ & _ & S5).
  revert A5 B5 C5 D5 E5 S5. generalize (stop_disconnectProcessor s4). intros s5.
  intros A5 B5 C5 D5 E5 S5.
  destruct (stop_disconnectSource_capture s5) as (A6 & B6 & C6 & D6 & E6).
  revert A6 B6 C6 D6 E6. generalize (stop_disconnectSource s5). intros s6.
  intros A6 B6 C6 D6 E6.
  destruct (stop_closeInput_capture s6) as (A7 & B7 & C7 & D7 & E7).
  revert A7 B7 C7 D7 E7. generalize (state_of (stop_closeInput s6)). intros s7.
  intros A7 B7 C7 D7 E7.
  destruct (stop_closeOutput_capture s7) as (A8 & B8 & C8 & D8 & E8).
  revert A8 B8 C8 D8 E8. generalize (state_of (stop_closeOutput s7)). intros s8.
  intros A8 B8 C8 D8 E8.
  unfold stop_clearTranscripts, setCurrentAiTranscript, setCurrentUserTranscript.
  proj. rewrite !dispatch_world.
  rewrite A8, A7, A6, A5, A4, A3, B8, B7, B6, B5, B4, M3, B3,
    C8, C7, C6, S5, S4, S3, C5, P4, P3, C4, C3, D8, D7, D6, D5, D4, D3,
    E8, E7, E6, E5, E4, E3.
  repeat split; reflexivity.
Qed.

Lemma running_after_insert (l : list AudioContextState) (c k : nat) :
  <[c := closed]> l !! k = Some running -> l !! k = Some running /\ k <> c.
Proof.
  intros H. destruct (decide (k = c)) as [->|Hne].
  - destruct (decide (c < length l)) as [Hlt|Hge].
    + rewrite list_lookup_insert_eq in H by assumption. discriminate.
    + rewrite list_insert_ge in H by lia.
      rewrite lookup_ge_None_2 in H by lia. discriminate.
  - rewrite list_lookup_insert_ne in H by congruence. auto.
Qed.

Lemma live_after_insert (l : list bool) (c k : nat) :
  <[c := false]> l !! k = Some true -> l !! k = Some true /\ k <> c.
Proof.
  intros H. destruct (decide (k = c)) as [->|Hne].
  - destruct (decide (c < length l)) as [Hlt|Hge].
    + rewrite list_lookup_insert_eq in H by assumption. discriminate.
    + rewrite list_insert_ge in H by lia.
      rewrite lookup_ge_None_2 in H by lia. discriminate.
  - rewrite list_lookup_insert_ne in H by congruence. auto.
Qed.

(** An audio context that runs after [stopSession] ran before and was held
    by neither ref. *)
Lemma stopSession_contexts (env : Env) (s : App) (c : nat) :
  contexts (world (state_of (stopSession env s))) !! c = Some running ->
  contexts (world s) !! c = Some running /\
  inputAudioContextRef (refs s) <> Some c /\
  outputAudioContextRef (refs s) <> Some c.
Proof.
  rewrite stopSession_state.
  set (s2 := setStatus env idle (setIsRecording env false s)).
  destruct (stop_release_view s2) as [Hv _]. cbv zeta in Hv.
  apply audio_view_fields in Hv as (Hi & Ho & _ & _ & Hc & _).
  assert (Hr : refs s2 = refs s)
    by (unfold s2, setStatus, setIsRecording; rewrite !dispatch_refs; reflexivity).
  assert (Hw : world s2 = world s)
    by (unfold s2, setStatus, setIsRecording; rewrite !dispatch_world; reflexivity).
  rewrite Hr in Hi, Ho. rewrite Hw in Hc.
  revert Hi Ho Hc.
  generalize (stop_disconnectSource
                (stop_disconnectProcessor (stop_releaseTracks (stop_closeSession s2)))).
  intros s6 Hi Ho Hc. clearbody s2.
  unfold stop_clearTranscripts, setCurrentAiTranscript, setCurrentUserTranscript.
  proj. rewrite !dispatch_world.
  rewrite <- Hi, <- Ho, <- Hc. clear Hi Ho Hc Hr Hw s2 s.
  destruct (stop_closeInput_cases s6)
    as [[Hn E]|[(ci & Hci & Hcl & E)|(ci & Hci & Hrun & E)]]; rewrite E; clear E.
  - (* no input context *)
    destruct (stop_closeOutput_cases s6)
      as [[Hn' E]|[(co & Hco & Hcl' & E)|(co & Hco & Hrun' & E)]]; rewrite E; clear E;
      proj; intros H.
    + repeat split; congruence.
    + repeat split; try congruence.
      intros Heq. rewrite Hco in Heq. injection Heq as ->.
      unfold context_state in Hcl'. rewrite H in Hcl'. discriminate.
    + apply running_after_insert in H as [H Hne].
      repeat split; congruence.
  - (* the input context is closed already *)
    assert (Hk : contexts (world s6) !! c = Some running -> Some ci <> Some c).
    { intros H [= ->]. unfold context_state in Hcl. rewrite H in Hcl. discriminate. }
    destruct (stop_closeOutput_cases s6)
      as [[Hn' E]|[(co & Hco & Hcl' & E)|(co & Hco & Hrun' & E)]]; rewrite E; clear E;
      proj; intros H.
    + repeat split; try congruence. rewrite Hci. apply Hk, H.
    + repeat split; try congruence; [rewrite Hci; apply Hk, H|].
      intros Heq. rewrite Hco in Heq. injection Heq as ->.
      unfold context_state in Hcl'. rewrite H in Hcl'. discriminate.
    + apply running_after_insert in H as [H Hne].
      repeat split; try congruence. rewrite Hci. apply Hk, H.
  - (* the input context is closed by the call *)
    set (s7 := assign_inputAudioContextRef None _).
    assert (Ho7 : outputAudioContextRef (refs s7) = outputAudioContextRef (refs s6))
      by reflexivity.
    assert (Hc7 : contexts (world s7) = <[ci := closed]> (contexts (world s6)))
      by reflexivity.
    clearbody s7.
    destruct (stop_closeOutput_cases s7)
      as [[Hn' E]|[(co & Hco & Hcl' & E)|(co & Hco & Hrun' & E)]]; rewrite E; clear E;
      proj; intros H.
    + rewrite Hc7 in H. apply running_after_insert in H as [H Hne].
      repeat split; congruence.
    + pose proof H as H'. rewrite Hc7 in H.
      apply running_after_insert in H as [H Hne].
      repeat split; try congruence.
      intros Heq. rewrite <- Ho7, Hco in Heq. injection Heq as ->.
      unfold context_state in Hcl'. rewrite H' in Hcl'. discriminate.
    + apply running_after_insert in H as [H Hne'].
      rewrite Hc7 in H. apply running_after_insert in H as [H Hne].
      repeat split; congruence.
Qed.

(** Whatever is live after [stopSession] was live before and was held by
    no ref. *)
Lemma stopSession_live (env : Env) (s : App) :
  (forall m, streams (world (state_of (stopSession env s))) !! m = Some true ->
             streams (world s) !! m = Some true /\
             mediaStreamRef (refs s) <> Some m) /\
  (forall n, nodes (world (state_of (stopSession env s))) !! n = Some true ->
             nodes (world s) !! n = Some true /\
             scriptProcessorRef (refs s) <> Some n /\
             mediaStreamSourceRef (refs s) <> Some n) /\
  (forall c, contexts (world (state_of (stopSession env s))) !! c = Some running ->
             contexts (world s) !! c = Some running /\
             inputAudioContextRef (refs s) <> Some c /\
             outputAudioContextRef (refs s) <> Some c) /\
  (forall i x, sessions (world (state_of (stopSession env s))) !! i = Some x ->
               sessPromise x = fulfilled -> sessClosed x = false ->
               sessions (world s) !! i = Some x /\
               sessionPromiseRef (refs s) <> Some i).
Proof.
  destruct (stopSession_capture env s) as (Hse & Hst & Hno & Hmi & Hco).
  split; [|split; [|split]].
  - intros m H. rewrite Hst in H.
    destruct (mediaStreamRef (refs s)) as [m'|]; [|split; [exact H | discriminate]].
    apply live_after_insert in H as [H Hne]. split; [exact H | congruence].
  - intros n H. rewrite Hno in H.
    destruct (mediaStreamSourceRef (refs s)) as [a|],
             (scriptProcessorRef (refs s)) as [b|];
      repeat match type of H with
             | <[_ := false]> _ !! _ = Some true =>
                 apply live_after_insert in H as [H ?]
             end;
      repeat split; congruence.
  - intros c. apply stopSession_contexts.
  - intros i x H Hf Hc. rewrite Hse in H.
    destruct (sessionPromiseRef (refs s)) as [p|]; [|split; [exact H | discriminate]].
    destruct (sessions (world s) !! p) as [y|] eqn:Ey;
      [|split; [exact H | congruence]].
    destruct (sessPromise y) eqn:Epy.
    + destruct (decide (i = p)) as [->|Hne].
      * rewrite list_lookup_insert_eq in H
          by (apply lookup_lt_is_Some_1; eexists; exact Ey).
        injection H as <-. discriminate.
      * rewrite list_lookup_insert_ne in H by congruence. split; [exact H | congruence].
    + split; [exact H|]. intros [= ->]. congruence.
Qed.

(** X10.  [stopSession] releases what the refs hold, in every state:
    whatever is live once it has returned was live before and was held by
    no ref.  So the microphone stream the ref held has its tracks stopped,
    the nodes of the capture graph are disconnected, the two audio contexts
    are closed, and the session is closed if it was ever connected; if its
    promise was rejected instead, the rejection is caught and logged, and
    the rest is released all the same.  The call makes no request for the
    microphone, and it leaves the four refs of the session, the stream and
    the capture graph empty. *)
Theorem stop_releases_what_is_held (env : Env) (s : App) :
  (forall m, streams (world (state_of (stopSession env s))) !! m = Some true ->
             streams (world s) !! m = Some true /\
             mediaStreamRef (refs s) <> Some m) /\
  (forall n, nodes (world (state_of (stopSession env s))) !! n = Some true ->
             nodes (world s) !! n = Some true /\
             scriptProcessorRef (refs s) <> Some n /\
             mediaStreamSourceRef (refs s) <> Some n) /\
  (forall c, contexts (world (state_of (stopSession env s))) !! c = Some running ->
             contexts (world s) !! c = Some running /\
             inputAudioContextRef (refs s) <> Some c /\
             outputAudioContextRef (refs s) <> Some c) /\
  (forall i x, sessions (world (state_of (stopSession env s))) !! i = Some x ->
               sessPromise x = fulfilled -> sessClosed x = false ->
               sessions (world s) !! i = Some x /\
               sessionPromiseRef (refs s) <> Some i) /\
  (forall p x, sessionPromiseRef (refs s) = Some p ->
               sessions (world s) !! p = Some x ->
               sessPromise x = rejected ->
               console (world (state_of (stopSession env s)))
               = console (world s) ++ ["Error closing session:"]) /\
  micRequests (world (state_of (stopSession env s))) = micRequests (world s) /\
  sessionPromiseRef (refs (state_of (stopSession env s))) = None /\
  mediaStreamRef (refs (state_of (stopSession env s))) = None /\
  scriptProcessorRef (refs (state_of (stopSession env s))) = None /\
  mediaStreamSourceRef (refs (state_of (stopSession env s))) = None.
Proof.
  destruct (stopSession_live env s) as (L1 & L2 & L3 & L4).
  destruct (stopSession_capture env s) as (_ & _ & _ & Hmi & Hco).
  destruct (stopSession_torn_down env s) as (R1 & R2 & R3 & R4 & _).
  split; [exact L1|]. split; [exact L2|]. split; [exact L3|]. split; [exact L4|].
  split.
  - intros p x Hp Hx Hr. rewrite Hco, Hp, Hx, Hr. reflexivity.
  - repeat split; assumption.
Qed.

End StopReleases.

(* ===================================================================== *)
(** * Nothing is left behind *)
(* ===================================================================== *)

Section NoLeak.

Lemma resources_fields (s s' : App) :
  resources_view s' = resources_view s ->
  sessionPromiseRef (refs s') = sessionPromiseRef (refs s) /\
  mediaStreamRef (refs s') = mediaStreamRef (refs s) /\
  scriptProcessorRef (refs s') = scriptProcessorRef (refs s) /\
  mediaStreamSourceRef (refs s') = mediaStreamSourceRef (refs s) /\
  inputAudioContextRef (refs s') = inputAudioContextRef (refs s) /\
  outputAudioContextRef (refs s') = outputAudioContextRef (refs s) /\
  sessions (world s') = sessions (world s) /\
  streams (world s') = streams (world s) /\
  nodes (world s') = nodes (world s) /\
  contexts (world s') = contexts (world s) /\
  micRequests (world s') = micRequests (world s).
Proof. unfold resources_view. intros H. repeat split; congruence. Qed.

Lemma leak_free_resources (s s' : App) :
  resources_view s' = resources_view s -> leak_free s -> leak_free s'.
Proof.
  intros H [L1 L2 L3 L4].
  apply resources_fields in H
    as (R1 & R2 & R3 & R4 & R5 & R6 & W1 & W2 & W3 & W4 & _).
  constructor; rewrite ?R1, ?R2, ?R3, ?R4, ?R5, ?R6, ?W1, ?W2, ?W3, ?W4; assumption.
Qed.

Lemma released_resources (s s' : App) :
  resources_view s' = resources_view s -> released (refs s) -> released (refs s').
Proof.
  intros H R. unfold released in *.
  apply resources_fields in H as (R1 & R2 & R3 & R4 & R5 & R6 & _).
  rewrite R1, R2, R3, R4, R5, R6. exact R.
Qed.

Lemma nothing_live_leak_free (s : App) : nothing_live (world s) -> leak_free s.
Proof.
  intros (N1 & N2 & N3 & N4). constructor.
  - intros m H. destruct (N1 m H).
  - intros n H. destruct (N2 n H).
  - intros c H. destruct (N3 c H).
  - intros i x H Hf Hc. rewrite (N4 i x H Hf) in Hc. discriminate.
Qed.

(** From a state in which everything live is held, [stopSession] leaves
    nothing live. *)
Lemma stopSession_nothing_live (env : Env) (s : App) :
  leak_free s -> nothing_live (world (state_of (stopSession env s))).
Proof.
  intros [L1 L2 L3 L4].
  destruct (stopSession_live env s) as (S1 & S2 & S3 & S4).
  repeat split.
  - intros m H. destruct (S1 m H) as [Hl Hr]. apply Hr, L1, Hl.
  - intros n H. destruct (S2 n H) as (Hl & Hp & Hs).
    destruct (L2 n Hl); contradiction.
  - intros c H. destruct (S3 c H) as (Hl & Hi & Ho).
    destruct (L3 c Hl); contradiction.
  - intros i x H Hf. destruct (sessClosed x) eqn:E; [reflexivity|].
    destruct (S4 i x H Hf E) as [Hl Hr]. destruct (Hr (L4 i x Hl Hf E)).
Qed.

Lemma stopSession_released (env : Env) (s : App) :
  consistent s -> released (refs (state_of (stopSession env s))).
Proof.
  intros C.
  destruct (stopSession_torn_down env s) as (R1 & R2 & R3 & R4 & _).
  destruct (stopSession_playback env s C) as (R5 & R6 & _).
  repeat split; assumption.
Qed.

Lemma isRecording_any_refs r r' s :
  isRecording (next_ui r s) = isRecording (next_ui r' s).
Proof. apply (beside_fields _ _ (beside_any_refs r r' s)). Qed.

Lemma orderly_stopSession (env : Env) (s : App) :
  leak_free s -> consistent s -> orderly (state_of (stopSession env s)).
Proof.
  intros L C.
  pose proof (stopSession_released env s C) as R.
  constructor.
  - apply nothing_live_leak_free, stopSession_nothing_live, L.
  - apply consistent_stopSession, C.
  - intros _. exact R.
  - intros _. apply R.
Qed.

(** The recording flag of the next render after a message or the end of a
    source: the one it had. *)
Lemma isRecording_onmessage r md env m s :
  isRecording (next_ui r (state_of (onmessage md env m s)))
  = isRecording (next_ui r s).
Proof.
  unfold onmessage. cbv zeta.
  assert (H1 : isRecording (next_ui r (message_input env m s))
               = isRecording (next_ui r s)).
  { unfold message_input. destruct (inputTranscription m); [|reflexivity].
    cbv zeta. fields. reflexivity. }
  rewrite <- H1. generalize (message_input env m s). intros s1.
  assert (H2 : isRecording (next_ui r (message_output md env m s1))
               = isRecording (next_ui r s1)).
  { unfold message_output. destruct (outputTranscription m); [|reflexivity].
    cbv zeta. destruct md; fields; reflexivity. }
  rewrite <- H2. generalize (message_output md env m s1). intros s2.
  assert (H3 : isRecording (next_ui r (state_of (message_audio md env m s2)))
               = isRecording (next_ui r s2)).
  { pose proof (message_audio_quiet md env m s2) as D.
    inversion D as [? ? Hu Hp|]; [|destruct us; discriminate].
    unfold next_ui. rewrite Hu, Hp. reflexivity. }
  rewrite <- H3.
  destruct (message_audio md env m s2) as [s3|s3]; cbn [and_then state_of];
    [|reflexivity].
  unfold message_turnComplete. destruct (turnComplete m); [|reflexivity].
  cbv zeta.
  destruct (JS.truthy (JS.trim (currentInputTranscriptionRef (refs s3))));
    match goal with |- context [if ?b && ?c then _ else _] => destruct (b && c) end;
    fields; reflexivity.
Qed.

Lemma isRecording_onended r env i s :
  isRecording (next_ui r (onended env i s)) = isRecording (next_ui r s).
Proof.
  unfold onended. cbv zeta.
  match goal with |- context [if ?b then _ else _] => destruct b end;
    fields; reflexivity.
Qed.

Lemma isRecording_onopen r env s :
  isRecording (next_ui r (state_of (onopen env s))) = isRecording (next_ui r s).
Proof.
  unfold onopen. cbv zeta.
  destruct (inputAudioContextRef (refs (setStatus env listening s)));
    [destruct (mediaStreamRef (refs (setStatus env listening s)))|];
    cbn [state_of]; fields; reflexivity.
Qed.

(** An event that touches no resource and not the recording flag. *)
Lemma orderly_same (s s' : App) :
  resources_view s' = resources_view s ->
  consistent s' ->
  isRecording (next_ui (refs s') s') = isRecording (next_ui (refs s) s) ->
  orderly s -> orderly s'.
Proof.
  intros H C' Hr [L C I G]. constructor.
  - eapply leak_free_resources; eassumption.
  - exact C'.
  - rewrite ui_render, Hr. intros Hf.
    eapply released_resources; [exact H|]. apply I. rewrite ui_render. exact Hf.
  - apply resources_fields in H as (_ & _ & -> & -> & _). exact G.
Qed.

Lemma startSession_without_key (env : Env) (s : App) :
  key_missing env = true ->
  state_of (startSession env s)
  = setStatus env error (console_error "API_KEY environment variable not set." s).
Proof. intros Hk. unfold startSession. rewrite Hk. reflexivity. Qed.

Lemma orderly_startSession (env : Env) (s : App) :
  pending s = [] -> isRecording (ui s) = false ->
  orderly s -> orderly (state_of (startSession env s)).
Proof.
  intros Hp Hrec O.
  pose proof (consistent_startSession env s (orderly_consistent s O)) as C'.
  assert (R : released (refs s)).
  { apply (orderly_idle s O). rewrite ui_render. unfold next_ui. rewrite Hp.
    exact Hrec. }
  destruct (key_missing env) eqn:Hk; [|destruct (micGranted env) eqn:Hm].
  - (* no credential *)
    apply (orderly_same s); [| exact C' | | exact O];
      rewrite startSession_without_key by exact Hk.
    + unfold setStatus. rewrite resources_dispatch. reflexivity.
    + fields. apply isRecording_any_refs.
  - (* a session is opened *)
    destruct (startSession_granted env s Hk Hm)
      as (_ & B & _ & Hst & Hms & Hcx & Hic & Hoc & Hse & Hsp & _ & Hno & Hpr & Hso & _).
    destruct R as (R1 & R2 & R3 & R4 & R5 & R6).
    destruct O as [[L1 L2 L3 L4] _ _ G].
    constructor; [constructor| exact C' | |].
    + intros m H. rewrite Hst in H. rewrite Hms.
      destruct (decide (m < length (streams (world s)))) as [Hlt|Hge].
      * rewrite lookup_app_l in H by exact Hlt. rewrite (L1 m H) in R2. discriminate.
      * apply lookup_lt_Some in H as Hb. rewrite length_app in Hb. cbn in Hb.
        f_equal. lia.
    + intros n H. rewrite Hno in H. destruct (L2 n H); congruence.
    + intros c H. rewrite Hcx in H. rewrite Hic, Hoc.
      destruct (decide (c < length (contexts (world s)))) as [Hlt|Hge].
      * rewrite lookup_app_l in H by exact Hlt. destruct (L3 c H); congruence.
      * apply lookup_lt_Some in H as Hb. rewrite length_app in Hb. cbn in Hb.
        destruct (decide (c = length (contexts (world s)))) as [->|Hne];
          [left; reflexivity | right; f_equal; lia].
    + intros i x H Hf Hc. rewrite Hse in H. rewrite Hsp.
      destruct (decide (i < length (sessions (world s)))) as [Hlt|Hge].
      * rewrite lookup_app_l in H by exact Hlt.
        rewrite (L4 i x H Hf Hc) in R1. discriminate.
      * apply lookup_lt_Some in H as Hb. rewrite length_app in Hb. cbn in Hb.
        f_equal. lia.
    + rewrite ui_render.
      pose proof (f_equal (fun t => snd (fst (fst (fst t))))
                    (B (refs (state_of (startSession env s))))) as Hr.
      cbn [fst snd beside_history] in Hr. rewrite Hr. discriminate.
    + rewrite Hpr, Hso. exact G.
  - (* the microphone is refused *)
    destruct (startSession_refused env s Hk Hm)
      as (_ & B & Hr & _ & _ & Hst & Hno & Hcx & Hse).
    destruct O as [[L1 L2 L3 L4] _ _ G].
    constructor; [constructor| exact C' | |]; rewrite ?Hr, ?Hst, ?Hno, ?Hcx, ?Hse;
      try assumption.
    intros _. exact R.
Qed.

Lemma orderly_onopen (env : Env) (i : nat) (s : App) :
  sessionPromiseRef (refs s) = Some i ->
  scriptProcessorRef (refs s) = None ->
  orderly s -> orderly (state_of (onopen env s)).
Proof.
  intros Hi Hp O.
  pose proof (consistent_onopen env s (orderly_consistent s O)) as C'.
  assert (Rec : isRecording (ui (render (state_of (onopen env s)))) = false -> False).
  { rewrite ui_render, isRecording_onopen.
    rewrite (isRecording_any_refs _ (refs s)). rewrite <- ui_render.
    intros H. destruct (orderly_idle s O H) as [R1 _]. congruence. }
  destruct (inputAudioContextRef (refs s)) as [c|] eqn:Ec;
    [destruct (mediaStreamRef (refs s)) as [m|] eqn:Em|].
  - destruct (onopen_wires env s c m Ec Em)
      as (_ & Hn & Hs & Hpr & Hsp & Hms & Hic & Hoc & Hse & Hst & Hcx & _).
    pose proof (orderly_graph s O Hp) as Hs0.
    destruct O as [[L1 L2 L3 L4] _ _ _].
    constructor; [constructor| exact C' | |].
    + rewrite Hst, Hms. exact L1.
    + intros n H. rewrite Hn in H. rewrite Hpr, Hs.
      destruct (decide (n < length (nodes (world s)))) as [Hlt|Hge].
      * rewrite lookup_app_l in H by exact Hlt. destruct (L2 n H); congruence.
      * apply lookup_lt_Some in H as Hb. rewrite length_app in Hb. cbn in Hb.
        destruct (decide (n = length (nodes (world s)))) as [->|Hne];
          [right; reflexivity | left; f_equal; lia].
    + rewrite Hcx, Hic, Hoc. exact L3.
    + rewrite Hse, Hsp. exact L4.
    + intros H. destruct (Rec H).
    + rewrite Hpr. discriminate.
  - apply (orderly_same s); [| exact C' | | exact O];
      rewrite (onopen_throws env s) by (right; exact Em); cbn [state_of].
    + unfold setStatus. apply resources_dispatch.
    + fields. apply isRecording_any_refs.
  - apply (orderly_same s); [| exact C' | | exact O];
      rewrite (onopen_throws env s) by (left; exact Ec); cbn [state_of].
    + unfold setStatus. apply resources_dispatch.
    + fields. apply isRecording_any_refs.
Qed.

Lemma orderly_step (env : Env) (e : Event) (s : App) :
  admissible e s = true -> orderly s -> orderly (step env e s).
Proof.
  intros A O.
  pose proof (consistent_step env e s (orderly_consistent s O)) as C'.
  destruct e as [| |m|i|i msg|i|i|i|]; cbn [step] in *.
  - apply (orderly_same s (render s)); [reflexivity | exact C' | reflexivity | exact O].
  - unfold admissible in A. unfold handleToggleConversation.
    destruct (pending s) eqn:Hp; [|discriminate].
    destruct (isRecording (ui s)) eqn:Hr.
    + apply orderly_stopSession; apply O.
    + apply orderly_startSession; assumption.
  - unfold onClickMode in *. destruct (negb (isRecording (ui s))); [|exact O].
    apply (orderly_same s); [| exact C' | | exact O].
    + unfold setMode. apply resources_dispatch.
    + unfold setMode. fields. apply isRecording_any_refs.
  - destruct (sessions (world s) !! i); [|exact O].
    unfold admissible in A. apply andb_prop in A as [A1 A2].
    apply bool_decide_eq_true in A1. apply bool_decide_eq_true in A2.
    eapply orderly_onopen; eassumption.
  - destruct (sessions (world s) !! i) as [x|]; [|exact O].
    apply (orderly_same s); [| exact C' | | exact O].
    + apply resources_onmessage.
    + rewrite isRecording_onmessage. apply isRecording_any_refs.
  - destruct (sessions (world s) !! i); [|exact O].
    unfold onerror. cbv zeta. apply orderly_stopSession.
    + eapply leak_free_resources; [|apply O].
      unfold setStatus. rewrite resources_dispatch. reflexivity.
    + apply consistent_dispatch. eapply consistent_playback; [|apply O]. reflexivity.
  - destruct (sessions (world s) !! i); [|exact O].
    unfold onclose. apply orderly_stopSession; apply O.
  - destruct (sources (world s) !! i); [|exact O].
    destruct (existsb (Nat.eqb i) (ended (world s))); [exact O|].
    apply (orderly_same s); [| exact C' | | exact O].
    + rewrite resources_onended. reflexivity.
    + rewrite isRecording_onended. unfold world_ended.
      rewrite next_ui_with_world. apply isRecording_any_refs.
  - apply orderly_stopSession; apply O.
Qed.

Lemma orderly_initial : orderly initial.
Proof.
  constructor.
  - constructor; cbn; intros; discriminate.
  - apply consistent_initial.
  - intros _. repeat split.
  - intros _. reflexivity.
Qed.

Lemma orderly_exec (tr : list (Env * Event)) (s : App) :
  admissible_run tr s = true -> orderly s -> orderly (exec tr s).
Proof.
  revert s. induction tr as [|[env e] tr IH]; intros s A O; [exact O|].
  cbn [admissible_run exec] in *. apply andb_prop in A as [A1 A2].
  apply IH; [exact A2 | apply orderly_step; assumption].
Qed.

(** X11.  Nothing is left behind.  Take any run in which the clicks on
    the start button reach a component that has rendered its updates and in
    which each session opens once, as the platform has it.  Then, in the
    state reached, whatever is live is held by its ref, so there is at most
    one live microphone stream, one capture graph, one pair of running audio
    contexts and one open session; and if the next render shows the component
    not recording, nothing is live at all: every stream has its tracks
    stopped, every node is disconnected, every audio context is closed, every
    session that was connected is closed, and the six refs are empty. *)
Theorem nothing_is_left_behind (tr : list (Env * Event)) :
  admissible_run tr initial = true ->
  leak_free (exec tr initial) /\
  (isRecording (ui (render (exec tr initial))) = false ->
   nothing_live (world (exec tr initial)) /\ released (refs (exec tr initial))).
Proof.
  intros A.
  destruct (orderly_exec tr initial A orderly_initial) as [[L1 L2 L3 L4] _ I _].
  split; [constructor; assumption|].
  intros H. destruct (I H) as (R1 & R2 & R3 & R4 & R5 & R6).
  split; [|repeat split; assumption].
  repeat split.
  - intros m Hm. rewrite (L1 m Hm) in R2. discriminate.
  - intros n Hn. destruct (L2 n Hn); congruence.
  - intros c Hc. destruct (L3 c Hc); congruence.
  - intros i x Hx Hf. destruct (sessClosed x) eqn:E; [reflexivity|].
    rewrite (L4 i x Hx Hf E) in R1. discriminate.
Qed.

Lemma nothing_is_left_behind_witness :
  admissible_run (events true stopped_while_playing) initial = true /\
  leak_free (exec (events true stopped_while_playing) initial) /\
  (isRecording (ui (render (exec (events true stopped_while_playing) initial))) = false ->
   nothing_live (world (exec (events true stopped_while_playing) initial)) /\
   released (refs (exec (events true stopped_while_playing) initial))).
Proof.
  split; [vm_compute; reflexivity|].
  apply (nothing_is_left_behind (events true stopped_while_playing)).
  vm_compute. reflexivity.
Defined.

End NoLeak.

(* ===================================================================== *)
(** * Only the start button begins a recording *)
(* ===================================================================== *)

Section OnlyStart.

Lemma acquired_resources (s s' : App) :
  resources_view s' = resources_view s -> acquired s' = acquired s.
Proof.
  intros H. apply resources_fields in H
    as (_ & _ & _ & _ & _ & _ & W1 & W2 & _ & W4 & W5).
  unfold acquired. rewrite W1, W2, W4, W5. reflexivity.
Qed.

Lemma acquired_stopSession (env : Env) (s : App) :
  consistent s -> acquired (state_of (stopSession env s)) = acquired s.
Proof.
  intros C. unfold acquired.
  destruct (stopSession_capture env s) as (Hse & Hst & _ & Hmi & _).
  destruct (stopSession_playback env s C) as (_ & _ & _ & _ & _ & Hlen & _).
  rewrite Hmi, Hlen, Hse, Hst.
  assert (E1 : length match mediaStreamRef (refs s) with
                      | Some m => <[m := false]> (streams (world s))
                      | None => streams (world s)
                      end = length (streams (world s)))
    by (destruct (mediaStreamRef (refs s)); rewrite ?length_insert; reflexivity).
  assert (E2 : length match sessionPromiseRef (refs s) with
                      | Some p =>
                          match sessions (world s) !! p with
                          | Some x =>
                              match sessPromise x with
                              | fulfilled => <[p := close_session x]> (sessions (world s))
                              | rejected => sessions (world s)
                              end
                          | None => sessions (world s)
                          end
                      | None => sessions (world s)
                      end = length (sessions (world s))).
  { destruct (sessionPromiseRef (refs s)) as [p|]; [|reflexivity].
    destruct (sessions (world s) !! p) as [x|]; [|reflexivity].
    destruct (sessPromise x); rewrite ?length_insert; reflexivity. }
  rewrite E1, E2. reflexivity.
Qed.

Lemma isRecording_stopSession (env : Env) (s : App) :
  isRecording (ui (render (state_of (stopSession env s)))) = false.
Proof. rewrite ui_render, stopSession_next_ui. reflexivity. Qed.

(** X12.  Only a click on the start button begins a recording.  In a
    state the component has reached, every other event (a click on the stop
    or on a mode button, a callback of a session, a message, the end of a
    source, a render, the clean-up of the effect) makes no request for the
    microphone and creates no stream, no audio context and no session; and
    if the next render records after it, it did before. *)
Theorem only_the_start_button_acquires (tr : list (Env * Event)) (env : Env)
    (e : Event) :
  e <> ClickToggle \/ isRecording (ui (exec tr initial)) = true ->
  micRequests (world (step env e (exec tr initial)))
  = micRequests (world (exec tr initial)) /\
  length (streams (world (step env e (exec tr initial))))
  = length (streams (world (exec tr initial))) /\
  length (contexts (world (step env e (exec tr initial))))
  = length (contexts (world (exec tr initial))) /\
  length (sessions (world (step env e (exec tr initial))))
  = length (sessions (world (exec tr initial))) /\
  (isRecording (ui (render (step env e (exec tr initial)))) = true ->
   isRecording (ui (render (exec tr initial))) = true).
Proof.
  intros He.
  pose proof (consistent_exec tr initial consistent_initial) as C.
  revert He C. generalize (exec tr initial). intros s He C.
  enough (H : acquired (step env e s) = acquired s /\
              (isRecording (ui (render (step env e s))) = true ->
               isRecording (ui (render s)) = true)).
  { destruct H as [H1 H2]. unfold acquired in H1.
    injection H1 as -> -> -> ->. repeat split; try reflexivity. exact H2. }
  assert (Stop : forall t, consistent t -> acquired t = acquired s ->
            acquired (state_of (stopSession env t)) = acquired s /\
            (isRecording (ui (render (state_of (stopSession env t)))) = true ->
             isRecording (ui (render s)) = true)).
  { intros t Ct Ht. split; [rewrite acquired_stopSession by exact Ct; exact Ht|].
    rewrite isRecording_stopSession. discriminate. }
  assert (Same : forall t, resources_view t = resources_view s ->
            isRecording (next_ui (refs t) t) = isRecording (next_ui (refs s) s) ->
            acquired t = acquired s /\
            (isRecording (ui (render t)) = true -> isRecording (ui (render s)) = true)).
  { intros t Hv Hr. split; [apply acquired_resources, Hv|].
    rewrite !ui_render, Hr. auto. }
  destruct e as [| |m|i|i msg|i|i|i|]; cbn [step].
  - apply Same; reflexivity.
  - destruct He as [He|He]; [contradiction|].
    unfold handleToggleConversation. rewrite He. apply Stop; [exact C | reflexivity].
  - unfold onClickMode. destruct (negb (isRecording (ui s))); [|apply Same; reflexivity].
    apply Same; unfold setMode; [apply resources_dispatch|].
    fields. apply isRecording_any_refs.
  - destruct (sessions (world s) !! i); [|apply Same; reflexivity].
    split.
    + unfold acquired.
      destruct (inputAudioContextRef (refs s)) as [c|] eqn:Ec;
        [destruct (mediaStreamRef (refs s)) as [m|] eqn:Em|].
      * destruct (onopen_wires env s c m Ec Em)
          as (_ & _ & _ & _ & _ & _ & _ & _ & -> & -> & -> & ->). reflexivity.
      * rewrite (onopen_throws env s) by (right; exact Em). cbn [state_of].
        unfold setStatus. rewrite dispatch_world. reflexivity.
      * rewrite (onopen_throws env s) by (left; exact Ec). cbn [state_of].
        unfold setStatus. rewrite dispatch_world. reflexivity.
    + rewrite !ui_render, isRecording_onopen,
        (isRecording_any_refs _ (refs s)). auto.
  - destruct (sessions (world s) !! i) as [x|]; [|apply Same; reflexivity].
    apply Same; [apply resources_onmessage|].
    rewrite isRecording_onmessage. apply isRecording_any_refs.
  - destruct (sessions (world s) !! i); [|apply Same; reflexivity].
    unfold onerror. cbv zeta. apply Stop.
    + apply consistent_dispatch. eapply consistent_playback; [|exact C]. reflexivity.
    + unfold acquired, setStatus. rewrite dispatch_world. reflexivity.
  - destruct (sessions (world s) !! i); [|apply Same; reflexivity].
    unfold onclose. apply Stop; [exact C | reflexivity].
  - destruct (sources (world s) !! i); [|apply Same; reflexivity].
    destruct (existsb (Nat.eqb i) (ended (world s))); [apply Same; reflexivity|].
    apply Same; [rewrite resources_onended; reflexivity|].
    rewrite isRecording_onended. unfold world_ended.
    rewrite next_ui_with_world. apply isRecording_any_refs.
  - apply Stop; [exact C | reflexivity].
Qed.

Lemma only_the_start_button_acquires_witness :
  (SessionMessage 0 (audio "AAAAAA==") <> ClickToggle \/
   isRecording (ui (exec (events true session_opened) initial)) = true) /\
  micRequests (world (step (browser true) (SessionMessage 0 (audio "AAAAAA=="))
                        (exec (events true session_opened) initial))) = 1 /\
  length (streams (world (step (browser true) (SessionMessage 0 (audio "AAAAAA=="))
                            (exec (events true session_opened) initial)))) = 1 /\
  length (contexts (world (step (browser true) (SessionMessage 0 (audio "AAAAAA=="))
                             (exec (events true session_opened) initial)))) = 2 /\
  length (sessions (world (step (browser true) (SessionMessage 0 (audio "AAAAAA=="))
                             (exec (events true session_opened) initial)))) = 1 /\
  (isRecording (ui (render (step (browser true) (SessionMessage 0 (audio "AAAAAA=="))
                              (exec (events true session_opened) initial)))) = true ->
   isRecording (ui (render (exec (events true session_opened) initial))) = true).
Proof.
  assert (H : SessionMessage 0 (audio "AAAAAA==") <> ClickToggle \/
              isRecording (ui (exec (events true session_opened) initial)) = true)
    by (left; discriminate).
  split; [exact H|].
  exact (only_the_start_button_acquires (events true session_opened) (browser true)
           (SessionMessage 0 (audio "AAAAAA==")) H).
Defined.

End OnlyStart.

(* ===================================================================== *)
(** * The active set of sources *)
(* ===================================================================== *)

Section ActiveSet.

Lemma schedule_fields (s s' : App) :
  schedule_view s' = schedule_view s ->
  audioSourcesRef (refs s') = audioSourcesRef (refs s) /\
  sources (world s') = sources (world s) /\
  ended (world s') = ended (world s).
Proof. unfold schedule_view. intros H. repeat split; congruence. Qed.

Lemma set_in_order_same (s s' : App) :
  schedule_view s' = schedule_view s -> set_in_order s -> set_in_order s'.
Proof.
  intros H [K1 K2 K3 K4]. apply schedule_fields in H as (E1 & E2 & E3).
  constructor; rewrite ?E1, ?E2, ?E3; assumption.
Qed.

Lemma schedule_dispatch env u s : schedule_view (dispatch env u s) = schedule_view s.
Proof. unfold schedule_view. rewrite dispatch_refs, dispatch_world. reflexivity. Qed.

Lemma schedule_message_input env m s :
  schedule_view (message_input env m s) = schedule_view s.
Proof.
  unfold message_input, schedule_view.
  destruct (inputTranscription m); [|reflexivity]. cbv zeta. backstage. reflexivity.
Qed.

Lemma schedule_message_output md env m s :
  schedule_view (message_output md env m s) = schedule_view s.
Proof.
  unfold message_output, schedule_view.
  destruct (outputTranscription m); [|reflexivity]. cbv zeta.
  destruct md; backstage; reflexivity.
Qed.

Lemma schedule_message_turnComplete md env m s :
  schedule_view (message_turnComplete md env m s) = schedule_view s.
Proof.
  unfold message_turnComplete, schedule_view.
  destruct (turnComplete m); [|reflexivity]. cbv zeta.
  destruct (JS.truthy (JS.trim (currentInputTranscriptionRef (refs s))));
    match goal with |- context [if ?b && ?c then _ else _] => destruct (b && c) end;
    backstage; reflexivity.
Qed.

Lemma schedule_onopen env s :
  schedule_view (state_of (onopen env s)) = schedule_view s.
Proof.
  unfold onopen, schedule_view. cbv zeta.
  destruct (inputAudioContextRef (refs (setStatus env listening s)));
    [destruct (mediaStreamRef (refs (setStatus env listening s)))|];
    cbn [state_of]; backstage; reflexivity.
Qed.

Lemma schedule_startSession env s :
  schedule_view (state_of (startSession env s)) = schedule_view s.
Proof.
  unfold startSession, start_open, schedule_view.
  destruct (key_missing env); [|destruct (micGranted env)]; cbn [state_of];
    backstage; reflexivity.
Qed.

(** [stopSession] empties the set or leaves it; it starts no source and
    delivers no event. *)
Lemma schedule_stopSession env s :
  (audioSourcesRef (refs (state_of (stopSession env s))) = [] \/
   audioSourcesRef (refs (state_of (stopSession env s))) = audioSourcesRef (refs s)) /\
  sources (world (state_of (stopSession env s))) = sources (world s) /\
  ended (world (state_of (stopSession env s))) = ended (world s).
Proof.
  rewrite stopSession_state.
  set (s2 := setStatus env idle (setIsRecording env false s)).
  assert (V2 : schedule_view s2 = schedule_view s)
    by (unfold s2, setStatus, setIsRecording; rewrite !schedule_dispatch; reflexivity).
  destruct (stop_release_view s2) as [Hv _]. cbv zeta in Hv.
  assert (V6 : schedule_view (stop_disconnectSource
                 (stop_disconnectProcessor
                    (stop_releaseTracks (stop_closeSession s2)))) = schedule_view s).
  { rewrite <- V2. unfold audio_view in Hv. unfold schedule_view. congruence. }
  clear Hv V2. revert V6.
  generalize (stop_disconnectSource
                (stop_disconnectProcessor (stop_releaseTracks (stop_closeSession s2)))).
  intros s6 V6. clearbody s2.
  assert (V7 : schedule_view (state_of (stop_closeInput s6)) = schedule_view s).
  { rewrite <- V6.
    destruct (stop_closeInput_cases s6)
      as [[_ ->]|[(c & _ & _ & ->)|(c & _ & _ & ->)]]; reflexivity. }
  revert V7. generalize (state_of (stop_closeInput s6)). intros s7 V7.
  apply schedule_fields in V7 as (E1 & E2 & E3).
  unfold stop_clearTranscripts. backstage. rewrite <- E1, <- E2, <- E3.
  destruct (stop_closeOutput_cases s7)
    as [[_ ->]|[(c & _ & _ & ->)|(c & _ & _ & ->)]]; proj; auto.
Qed.

Lemma set_in_order_stopSession env s :
  set_in_order s -> set_in_order (state_of (stopSession env s)).
Proof.
  intros [K1 K2 K3 K4].
  destruct (schedule_stopSession env s) as ([E1|E1] & E2 & E3);
    constructor; rewrite ?E1, ?E2, ?E3; try assumption; constructor.
Qed.

Lemma set_add_fresh (x : nat) (l : list nat) :
  ~ In x l -> set_add x l = l ++ [x].
Proof.
  intros H. unfold set_add.
  destruct (existsb (Nat.eqb x) l) eqn:E; [|reflexivity].
  apply existsb_exists in E as (y & Hy & Hxy). apply Nat.eqb_eq in Hxy. subst y.
  contradiction.
Qed.

Lemma set_in_order_message_audio md env m s :
  set_in_order s -> set_in_order (state_of (message_audio md env m s)).
Proof.
  intros K. unfold message_audio.
  destruct (modelTurnPart m) as [| |data]; cbn [state_of]; try exact K.
  destruct (JS.truthy data); [|exact K].
  destruct (outputAudioContextRef (refs s)) as [c|]; [|exact K].
  destruct md; [|exact K].
  unfold schedule. cbv zeta.
  destruct (Codec.decodeInbound data 24000 1) as [buf|]; cbn [state_of];
    [|eapply set_in_order_same; [|exact K]; reflexivity].
  destruct K as [K1 K2 K3 K4].
  assert (Hfresh : ~ In (length (sources (world s))) (audioSourcesRef (refs s))).
  { intros Hin. rewrite Forall_forall in K2.
    apply list_elem_of_In, K2 in Hin. lia. }
  constructor; proj; rewrite ?set_add_fresh by exact Hfresh.
  - apply NoDup_app. split; [exact K1|]. split; [|apply NoDup_singleton].
    intros x Hx Hx'. apply list_elem_of_singleton in Hx'. subst x.
    apply Hfresh, list_elem_of_In, Hx.
  - rewrite length_app. cbn [length]. apply Forall_app. split.
    + eapply Forall_impl; [exact K2|]. cbn. intros; lia.
    + constructor; [lia | constructor].
  - apply Forall_app. split; [exact K3|]. constructor; [|constructor].
    intros Hin. rewrite Forall_forall in K4.
    apply list_elem_of_In, K4 in Hin. lia.
  - rewrite length_app. cbn [length].
    eapply Forall_impl; [exact K4|]. cbn. intros; lia.
Qed.

Lemma set_in_order_onmessage md env m s :
  set_in_order s -> set_in_order (state_of (onmessage md env m s)).
Proof.
  intros K. unfold onmessage. cbv zeta.
  assert (K2 : set_in_order (message_output md env m (message_input env m s))).
  { eapply set_in_order_same; [|exact K].
    rewrite schedule_message_output. apply schedule_message_input. }
  apply (set_in_order_message_audio md env m) in K2.
  destruct (message_audio md env m _) as [s3|s3]; cbn [and_then state_of] in *;
    [|exact K2].
  eapply set_in_order_same; [|exact K2]. apply schedule_message_turnComplete.
Qed.

(** The [ended] event of a source of the set, delivered: the source leaves
    the set, and the status is set to [listening] if the set is empty
    then. *)
Lemma set_in_order_ended env i s :
  set_in_order s -> In i (audioSourcesRef (refs s)) ->
  set_in_order (step env (SourceEnded i) s) /\
  audioSourcesRef (refs (step env (SourceEnded i) s))
  = set_delete i (audioSourcesRef (refs s)) /\
  (audioSourcesRef (refs (step env (SourceEnded i) s)) = [] ->
   forall r, status (next_ui r (step env (SourceEnded i) s)) = listening).
Proof.
  intros [K1 K2 K3 K4] Hin. cbn [step].
  pose proof Hin as Hlt. rewrite Forall_forall in K2.
  apply list_elem_of_In, K2 in Hlt.
  destruct (lookup_lt_is_Some_2 (sources (world s)) i Hlt) as [src ->].
  assert (Hne : existsb (Nat.eqb i) (ended (world s)) = false).
  { destruct (existsb (Nat.eqb i) (ended (world s))) eqn:E; [|reflexivity].
    apply existsb_exists in E as (y & Hy & Hiy). apply Nat.eqb_eq in Hiy. subst y.
    rewrite Forall_forall in K3. destruct (K3 i (proj2 (list_elem_of_In _ _) Hin) Hy). }
  rewrite Hne. unfold onended. cbv zeta. proj.
  assert (Hset : forall b : bool,
            audioSourcesRef
              (refs (if b
                     then setStatus env listening
                            (assign_audioSourcesRef
                               (set_delete i (audioSourcesRef (refs s)))
                               (world_ended (ended (world s) ++ [i]) s))
                     else assign_audioSourcesRef
                            (set_delete i (audioSourcesRef (refs s)))
                            (world_ended (ended (world s) ++ [i]) s)))
            = set_delete i (audioSourcesRef (refs s)))
    by (intros [|]; backstage; reflexivity).
  assert (Hw : forall b : bool,
            world (if b
                   then setStatus env listening
                          (assign_audioSourcesRef
                             (set_delete i (audioSourcesRef (refs s)))
                             (world_ended (ended (world s) ++ [i]) s))
                   else assign_audioSourcesRef
                          (set_delete i (audioSourcesRef (refs s)))
                          (world_ended (ended (world s) ++ [i]) s))
            = world (world_ended (ended (world s) ++ [i]) s))
    by (intros [|]; backstage; reflexivity).
  split; [|split].
  - constructor; rewrite ?Hset, ?Hw; proj.
    + unfold set_delete. apply NoDup_ListNoDup, List.NoDup_filter, NoDup_ListNoDup, K1.
    + rewrite Forall_forall. intros j Hj. apply K2.
      apply list_elem_of_In in Hj. unfold set_delete in Hj.
      apply List.filter_In in Hj as [Hj _]. apply list_elem_of_In, Hj.
    + rewrite Forall_forall. intros j Hj Hend.
      apply list_elem_of_In in Hj. unfold set_delete in Hj.
      apply List.filter_In in Hj as [Hj Hji].
      apply negb_true_iff, Nat.eqb_neq in Hji.
      apply in_app_or in Hend as [Hend|[Hend|[]]]; [|congruence].
      rewrite Forall_forall in K3.
      apply (K3 j (proj2 (list_elem_of_In _ _) Hj) Hend).
    + apply Forall_app. split; [exact K4|]. constructor; [exact Hlt | constructor].
  - apply Hset.
  - rewrite Hset. intros He r. rewrite He. cbn [length Nat.eqb]. fields. reflexivity.
Qed.

Lemma set_in_order_step env e s : set_in_order s -> set_in_order (step env e s).
Proof.
  intros K. destruct e as [| |m|i|i msg|i|i|i|]; cbn [step].
  - eapply set_in_order_same; [|exact K]. reflexivity.
  - unfold handleToggleConversation. destruct (isRecording (ui s)).
    + apply set_in_order_stopSession, K.
    + eapply set_in_order_same; [|exact K]. apply schedule_startSession.
  - unfold onClickMode. destruct (negb (isRecording (ui s))); [|exact K].
    eapply set_in_order_same; [|exact K]. apply schedule_dispatch.
  - destruct (sessions (world s) !! i); [|exact K].
    eapply set_in_order_same; [|exact K]. apply schedule_onopen.
  - destruct (sessions (world s) !! i); [|exact K].
    apply set_in_order_onmessage, K.
  - destruct (sessions (world s) !! i); [|exact K].
    unfold onerror. cbv zeta. apply set_in_order_stopSession.
    eapply set_in_order_same; [|exact K].
    unfold setStatus. rewrite schedule_dispatch. reflexivity.
  - destruct (sessions (world s) !! i); [|exact K].
    apply set_in_order_stopSession, K.
  - destruct (sources (world s) !! i) as [src|] eqn:Es; [|exact K].
    destruct (existsb (Nat.eqb i) (ended (world s))) eqn:Ee; [exact K|].
    destruct K as [K1 K2 K3 K4]. unfold onended. cbv zeta.
    match goal with |- context [if ?b then _ else _] => destruct b end;
      constructor; backstage.
    all: try (unfold set_delete;
              apply NoDup_ListNoDup, List.NoDup_filter, NoDup_ListNoDup, K1).
    all: try (apply Forall_app; split; [exact K4|];
              constructor; [apply lookup_lt_is_Some_1; eexists; exact Es | constructor]).
    all: try (rewrite Forall_forall; intros j Hj; rewrite Forall_forall in K2;
              apply K2; apply list_elem_of_In in Hj; unfold set_delete in Hj;
              apply List.filter_In in Hj as [Hj _]; apply list_elem_of_In, Hj).
    all: rewrite Forall_forall; intros j Hj Hend;
      apply list_elem_of_In in Hj; unfold set_delete in Hj;
      apply List.filter_In in Hj as [Hj Hji];
      apply negb_true_iff, Nat.eqb_neq in Hji;
      apply in_app_or in Hend as [Hend|[Hend|[]]]; [|congruence];
      rewrite Forall_forall in K3;
      apply (K3 j (proj2 (list_elem_of_In _ _) Hj) Hend).
  - apply set_in_order_stopSession, K.
Qed.

Lemma set_in_order_exec tr s : set_in_order s -> set_in_order (exec tr s).
Proof.
  revert s. induction tr as [|[env e] tr IH]; intros s K; [exact K|].
  cbn [exec]. apply IH, set_in_order_step, K.
Qed.

Lemma set_in_order_initial : set_in_order initial.
Proof. constructor; cbn; constructor. Qed.

Lemma in_set_delete (i j : nat) (l : list nat) :
  In j (set_delete i l) <-> In j l /\ j <> i.
Proof.
  unfold set_delete. rewrite List.filter_In, negb_true_iff, Nat.eqb_neq.
  split; intros [H1 H2]; split; auto.
Qed.

Lemma drain (l : list (Env * nat)) :
  forall s : App,
    set_in_order s ->
    List.NoDup (map snd l) ->
    (forall i, In i (map snd l) -> In i (audioSourcesRef (refs s))) ->
    l <> [] ->
    (forall j, In j (audioSourcesRef (refs (exec (ended_events l) s))) ->
               In j (audioSourcesRef (refs s)) /\ ~ In j (map snd l)) /\
    (audioSourcesRef (refs (exec (ended_events l) s)) = [] ->
     forall r, status (next_ui r (exec (ended_events l) s)) = listening).
Proof.
  induction l as [|[env i] l IH]; intros s K Hnd Hin Hne; [contradiction|].
  cbn [ended_events map fst snd exec] in *.
  fold (ended_events l).
  inversion Hnd as [|? ? Hnotin Hnd']; subst.
  destruct (set_in_order_ended env i s K (Hin i (or_introl eq_refl)))
    as (K1 & Hset & Hst).
  destruct l as [|[env' i'] l'].
  - cbn [ended_events map exec]. split; [|exact Hst].
    intros j Hj. rewrite Hset in Hj. apply in_set_delete in Hj as [Hj Hji].
    split; [exact Hj|]. intros [Heq|[]]. congruence.
  - destruct (IH (step env (SourceEnded i) s) K1 Hnd') as [IH1 IH2];
      [|discriminate|].
    + intros k Hk. rewrite Hset. apply in_set_delete. split.
      * apply Hin. right. exact Hk.
      * intros ->. contradiction.
    + split; [|exact IH2].
      intros j Hj. destruct (IH1 j Hj) as [Hj1 Hj2].
      rewrite Hset in Hj1. apply in_set_delete in Hj1 as [Hj1 Hji].
      split; [exact Hj1|]. intros [Heq|Hin']; [congruence | contradiction].
Qed.

(** X13.  Playback drains to [listening].  In a state the component has
    reached with sources in the active set, once the [ended] event of every
    source of the set has been delivered, in whatever order and with nothing
    else in between, the set is empty and the next render shows
    [listening]. *)
Theorem playback_drains (tr : list (Env * Event)) (l : list (Env * nat)) :
  audioSourcesRef (refs (exec tr initial)) <> [] ->
  Permutation (map snd l) (audioSourcesRef (refs (exec tr initial))) ->
  audioSourcesRef (refs (exec (ended_events l) (exec tr initial))) = [] /\
  status (ui (render (exec (ended_events l) (exec tr initial)))) = listening.
Proof.
  intros Hne Hp.
  pose proof (set_in_order_exec tr initial set_in_order_initial) as K.
  assert (Hl : l <> []).
  { intros ->. cbn in Hp. apply Permutation_nil in Hp. congruence. }
  destruct (drain l (exec tr initial) K) as [D1 D2]; [| |exact Hl|].
  - apply NoDup_ListNoDup. rewrite Hp. apply (set_nodup _ K).
  - intros i Hi. apply list_elem_of_In. rewrite <- Hp. apply list_elem_of_In, Hi.
  - assert (E : audioSourcesRef (refs (exec (ended_events l) (exec tr initial))) = []).
    { destruct (audioSourcesRef (refs (exec (ended_events l) (exec tr initial))))
        as [|j rest] eqn:E; [reflexivity|].
      destruct (D1 j (or_introl eq_refl)) as [Hj1 Hj2].
      exfalso. apply Hj2. apply list_elem_of_In. rewrite Hp.
      apply list_elem_of_In, Hj1. }
    split; [exact E|]. rewrite ui_render. apply D2, E.
Qed.

Lemma playback_drains_witness :
  audioSourcesRef (refs (exec (events true two_sources) initial)) <> [] /\
  Permutation (map snd [(browser true, 1); (browser false, 0)])
    (audioSourcesRef (refs (exec (events true two_sources) initial))) /\
  audioSourcesRef
    (refs (exec (ended_events [(browser true, 1); (browser false, 0)])
             (exec (events true two_sources) initial))) = [] /\
  status
    (ui (render (exec (ended_events [(browser true, 1); (browser false, 0)])
                   (exec (events true two_sources) initial)))) = listening.
Proof.
  assert (H1 : audioSourcesRef (refs (exec (events true two_sources) initial)) <> [])
    by (vm_compute; discriminate).
  assert (H2 : Permutation (map snd [(browser true, 1); (browser false, 0)])
                 (audioSourcesRef (refs (exec (events true two_sources) initial))))
    by (vm_compute; apply perm_swap).
  split; [exact H1|]. split; [exact H2|].
  exact (playback_drains (events true two_sources)
           [(browser true, 1); (browser false, 0)] H1 H2).
Defined.

End ActiveSet.

(* ===================================================================== *)
(** * Splitting and joining strings *)
(* ===================================================================== *)

Section Strings.
Import JSString.

Lemma split_nonempty (sep : ascii) (s : string) : split sep s <> [].
Proof.
  destruct s as [|c s]; cbn; [discriminate|].
  destruct (Ascii.eqb c sep); [discriminate|].
  destruct (split sep s); discriminate.
Qed.

(** A string without the separator is one piece. *)
Lemma split_without (sep : ascii) (s : string) :
  occurs sep s = false -> split sep s = [s].
Proof.
  induction s as [|c s IH]; cbn; [reflexivity|].
  intros H. apply orb_false_iff in H as [Hc Hs].
  rewrite Hc, (IH Hs). reflexivity.
Qed.

(** The pieces of [a ++ sep ++ b], for [a] without the separator. *)
Lemma split_append (sep : ascii) (a b : string) :
  occurs sep a = false ->
  split sep (a ++ String sep b) = a :: split sep b.
Proof.
  induction a as [|c a IH]; cbn.
  - intros _. rewrite Ascii.eqb_refl. reflexivity.
  - intros H. apply orb_false_iff in H as [Hc Ha].
    rewrite Hc, (IH Ha). reflexivity.
Qed.

(** [split] undoes [join]. *)
Lemma split_join (sep : ascii) (l : list string) :
  l <> [] ->
  Forall (fun x => occurs sep x = false) l ->
  split sep (join (String sep EmptyString) l) = l.
Proof.
  induction l as [|x l IH]; [contradiction|].
  intros _ HF. inversion HF as [|? ? Hx HF']; subst.
  destruct l as [|y l].
  - cbn. apply split_without, Hx.
  - change (join (String sep EmptyString) (x :: y :: l))
      with (x ++ String sep (join (String sep EmptyString) (y :: l)))%string.
    rewrite split_append by exact Hx. rewrite IH; [reflexivity | discriminate | exact HF'].
Qed.

Lemma or_else_truthy (text : option string) (fallback : string) :
  JS.truthy fallback = true -> JS.truthy (or_else text fallback) = true.
Proof.
  intros H. unfold or_else. destruct text as [t|]; [|exact H].
  destruct (JS.truthy t) eqn:E; [exact E | exact H].
Qed.

End Strings.

(* ===================================================================== *)
(** * The status line *)
(* ===================================================================== *)

Section StatusLine.

(** X14.  The status line tells the state: it is never empty, two
    rendered states with the same line have the same status, and while idle
    or listening, where the line depends on the mode, the same mode too. *)
Theorem status_line_tells_the_status (st st' : UiState) :
  JS.truthy (getStatusText st) = true /\
  (getStatusText st = getStatusText st' ->
   status st = status st' /\
   (status st = idle \/ status st = listening -> mode st = mode st')).
Proof.
  unfold getStatusText. split.
  - destruct (status st), (mode st); reflexivity.
  - destruct (status st), (status st'), (mode st), (mode st'); intros H;
      try discriminate H; split; try reflexivity;
      intros [E|E]; try discriminate E; reflexivity.
Qed.

End StatusLine.

(* ===================================================================== *)
(** * The hooks beside the controller *)
(* ===================================================================== *)

Ltac page :=
  cbn [core panel panelPending reads requests clipboard sent
       on_core with_reads with_requests with_clipboard with_sent panel_dispatch
       setFileTranscription setIsProcessingFile setIsSummarizing
       page_of] in *.

Section PanelFacts.

Lemma next_panel_dispatch (u : PanelUpdate) (p : Page) :
  next_panel (panel_dispatch u p) = panel_apply (next_panel p) u.
Proof. unfold next_panel. cbn. apply fold_left_app. Qed.

Lemma next_panel_on_core (f : App -> App) (p : Page) :
  next_panel (on_core f p) = next_panel p.
Proof. reflexivity. Qed.

Lemma next_panel_with_reads v p : next_panel (with_reads v p) = next_panel p.
Proof. reflexivity. Qed.

Lemma next_panel_with_requests v p : next_panel (with_requests v p) = next_panel p.
Proof. reflexivity. Qed.

Lemma next_panel_with_clipboard v p : next_panel (with_clipboard v p) = next_panel p.
Proof. reflexivity. Qed.

Lemma next_panel_with_sent v p : next_panel (with_sent v p) = next_panel p.
Proof. reflexivity. Qed.

Lemma next_panel_render (p : Page) : next_panel (page_render p) = next_panel p.
Proof. reflexivity. Qed.

End PanelFacts.

(** Reading the next panel off the setter calls of a handler. *)
Ltac panels :=
  unfold setFileTranscription, setIsProcessingFile, setIsSummarizing;
  repeat
    (rewrite ?next_panel_dispatch, ?next_panel_on_core, ?next_panel_with_reads,
       ?next_panel_with_requests, ?next_panel_with_clipboard, ?next_panel_with_sent;
     cbn [panel_apply fileTranscription isProcessingFile isSummarizing]).

Section FileFlag.

Lemma flag_handleFileUpload env file readable p :
  panel (handleFileUpload env file readable p) = panel p /\
  isProcessingFile (next_panel (handleFileUpload env file readable p))
  = match file with
    | Some _ => false
    | None => isProcessingFile (next_panel p)
    end.
Proof.
  unfold handleFileUpload. destruct file as [f|]; [|split; reflexivity].
  cbv zeta. split; [destruct readable; reflexivity|].
  panels. reflexivity.
Qed.

Lemma flag_summary_failed env p :
  panel (summary_failed env p) = panel p /\
  isProcessingFile (next_panel (summary_failed env p))
  = isProcessingFile (next_panel p).
Proof. unfold summary_failed. cbv zeta. split; [reflexivity|]. panels. reflexivity. Qed.

Lemma flag_step env e p :
  isProcessingFile (panel p) = false ->
  isProcessingFile (next_panel p) = false ->
  isProcessingFile (panel (page_step env e p)) = false /\
  isProcessingFile (next_panel (page_step env e p)) = false.
Proof.
  intros H1 H2.
  destruct e as [e|file readable|k result constructs|k o|constructs| | |data];
    cbn [page_step].
  - unfold session_step.
    destruct e; try (split; assumption).
    destruct (toggleDisabled _ _); split; assumption.
  - destruct (flag_handleFileUpload env file readable p) as [-> ->].
    split; [exact H1|]. destruct file; [reflexivity | exact H2].
  - destruct (reads p !! k) as [[f [|]]|]; try (split; assumption).
    unfold reader_onload. cbv zeta. destruct constructs; split; assumption.
  - unfold request_step. destruct (requests p !! k) as [r|]; [|split; assumption].
    destruct (reqSettled r); [split; assumption|]. cbv zeta.
    destruct (reqContents r).
    + unfold transcription_settled. destruct o as [t|]; page.
      * split; [exact H1|]. panels. exact H2.
      * split; assumption.
    + unfold summary_settled. destruct o as [t|].
      * cbv zeta. split; [exact H1|]. panels. exact H2.
      * match goal with |- context [summary_failed env ?q] =>
          destruct (flag_summary_failed env q) as [-> ->] end.
        split; assumption.
  - destruct (summarizeShown _ && _); [|split; assumption].
    unfold generateSummary. destruct (Nat.eqb _ 0); [split; assumption|].
    cbv zeta. destruct constructs.
    + split; [exact H1|]. panels. exact H2.
    + match goal with |- context [summary_failed env ?q] =>
        destruct (flag_summary_failed env q) as [-> ->] end.
      split; [exact H1|]. panels. exact H2.
  - destruct (summaryShown _); split; assumption.
  - destruct (fileTranscriptionShown _ _); [|split; assumption].
    destruct (fileTranscription (panel p)); split; assumption.
  - unfold onaudioprocess. cbv zeta.
    destruct (sessionPromiseRef (refs (core p))) as [i|]; [|split; assumption].
    destruct (sessions (world (core p)) !! i) as [x|]; [|split; assumption].
    destruct (sessPromise x); split; assumption.
Qed.

Lemma flag_exec tr p :
  isProcessingFile (panel p) = false ->
  isProcessingFile (next_panel p) = false ->
  isProcessingFile (panel (page_exec tr p)) = false /\
  isProcessingFile (next_panel (page_exec tr p)) = false.
Proof.
  revert p. induction tr as [|[env e] tr IH]; intros p H1 H2; [split; assumption|].
  cbn [page_exec]. destruct (flag_step env e p H1 H2) as [A B]. apply IH; assumption.
Qed.

(** X15.  The flag [isProcessingFile] is never seen set.
    [handleFileUpload] sets it and, in its [finally], clears it again
    before it returns and before any render, while the file is read and
    transcribed only later.  So in every state the whole component reaches,
    the flag is false as rendered and false for the next render: the upload
    button is never disabled, and the start/stop button is disabled exactly
    while the status is [connecting]. *)
Theorem file_flag_is_never_seen (tr : list (Env * PageEvent)) :
  isProcessingFile (panel (page_exec tr initialPage)) = false /\
  isProcessingFile (panel (page_render (page_exec tr initialPage))) = false /\
  uploadDisabled (panel (page_exec tr initialPage)) = false /\
  toggleDisabled (ui (core (page_exec tr initialPage)))
                 (panel (page_exec tr initialPage))
  = bool_decide (status (ui (core (page_exec tr initialPage))) = connecting).
Proof.
  destruct (flag_exec tr initialPage eq_refl eq_refl) as [A B].
  split; [exact A|]. split; [exact B|]. split; [exact A|].
  unfold toggleDisabled. rewrite A. apply orb_false_r.
Qed.

End FileFlag.

(* ===================================================================== *)
(** * Transcribing a file *)
(* ===================================================================== *)

Section FileTranscription.
Import JSString.

(** The payload of a data URL, as line 233 cuts it out. *)
Lemma data_url_payload (header payload : string) :
  occurs comma header = false ->
  occurs comma payload = false ->
  split comma (header ++ String comma payload) !! 1 = Some payload.
Proof.
  intros Hh Hp. rewrite split_append by exact Hh.
  rewrite (split_without comma payload Hp). reflexivity.
Qed.

Lemma lookup_snoc {A} (l : list A) (x : A) : (l ++ [x]) !! length l = Some x.
Proof.
  rewrite lookup_app_r by lia. rewrite Nat.sub_diag. reflexivity.
Qed.

Lemma insert_snoc {A} (l : list A) (x y : A) :
  <[length l := y]> (l ++ [x]) = l ++ [y].
Proof.
  induction l as [|a l IH]; [reflexivity|]. simpl. f_equal. exact IH.
Qed.

(** A file is chosen and the read starts. *)
Lemma handleFileUpload_reads (env : Env) (f : File) (p : Page) :
  core (handleFileUpload env (Some f) true p) = setStatus env processing (core p) /\
  next_panel (handleFileUpload env (Some f) true p)
  = mkPanel None false (isSummarizing (next_panel p)) /\
  reads (handleFileUpload env (Some f) true p) = reads p ++ [(f, false)] /\
  requests (handleFileUpload env (Some f) true p) = requests p /\
  sent (handleFileUpload env (Some f) true p) = sent p /\
  clipboard (handleFileUpload env (Some f) true p) = clipboard p.
Proof.
  unfold handleFileUpload. cbv zeta.
  repeat split; try reflexivity. panels. reflexivity.
Qed.

(** The read is done and the request is made. *)
Lemma reader_loads (env : Env) (k : nat) (f : File) (result : string) (p : Page) :
  reads p !! k = Some (f, false) ->
  core (page_step env (ReaderLoad k result true) p) = core p /\
  next_panel (page_step env (ReaderLoad k result true) p) = next_panel p /\
  reads (page_step env (ReaderLoad k result true) p) = <[k := (f, true)]> (reads p) /\
  requests (page_step env (ReaderLoad k result true) p)
  = requests p
    ++ [ {| reqModel := "gemini-3-flash-preview";
            reqContents :=
              AudioAndText (fileType f) (split comma result !! 1) transcribePrompt;
            reqSettled := false |} ].
Proof.
  intros H. cbn [page_step]. rewrite H. unfold reader_onload. cbv zeta.
  repeat split; reflexivity.
Qed.

(** The request of a file transcription settles. *)
Lemma transcription_request_settles (env : Env) (j : nat) (r : Request) (o : Outcome)
    (mimeType : string) (data : option string) (prompt : string) (p : Page) :
  requests p !! j = Some r ->
  reqSettled r = false ->
  reqContents r = AudioAndText mimeType data prompt ->
  core (page_step env (RequestSettles j o) p)
  = match o with
    | Resolved _ => setStatus env idle (core p)
    | Rejected => core p
    end /\
  next_panel (page_step env (RequestSettles j o) p)
  = match o with
    | Resolved text =>
        mkPanel (Some (or_else text "No transcription available."))
          (isProcessingFile (next_panel p)) (isSummarizing (next_panel p))
    | Rejected => next_panel p
    end /\
  panel (page_step env (RequestSettles j o) p) = panel p /\
  reads (page_step env (RequestSettles j o) p) = reads p.
Proof.
  intros Hr Hs Hc. cbn [page_step]. unfold request_step.
  rewrite Hr, Hs, Hc. cbv zeta. unfold transcription_settled.
  destruct o as [text|]; page; repeat split; try reflexivity.
  panels. reflexivity.
Qed.

(** X16.  A file is transcribed.  The user picks a file; its read
    completes with a data URL, a header and a payload with a comma between
    them and none inside; the request that is then made resolves.  Then
    after the choice the next render shows [processing] and no file
    transcription; the request carries the type of the file, the payload
    of the data URL and the transcription prompt; and once it has resolved
    the next render shows [idle] and a text that is not empty: the text of
    the response, or "No transcription available." if the response has
    none.  None of this touches a ref or a platform object of the
    session. *)
Theorem file_is_transcribed (env1 env2 env3 : Env) (f : File)
    (header payload : string) (text : option string) (p : Page) :
  occurs comma header = false ->
  occurs comma payload = false ->
  status (ui (core (page_render
    (page_step env1 (ChooseFile (Some f) true) p)))) = processing /\
  fileTranscription (panel (page_render
    (page_step env1 (ChooseFile (Some f) true) p))) = None /\
  requests
    (page_step env2 (ReaderLoad (length (reads p)) (header ++ String comma payload) true)
       (page_step env1 (ChooseFile (Some f) true) p))
  = requests p
    ++ [ {| reqModel := "gemini-3-flash-preview";
            reqContents := AudioAndText (fileType f) (Some payload) transcribePrompt;
            reqSettled := false |} ] /\
  fileTranscription (panel (page_render
    (page_step env3 (RequestSettles (length (requests p)) (Resolved text))
       (page_step env2
          (ReaderLoad (length (reads p)) (header ++ String comma payload) true)
          (page_step env1 (ChooseFile (Some f) true) p)))))
  = Some (or_else text "No transcription available.") /\
  JS.truthy (or_else text "No transcription available.") = true /\
  status (ui (core (page_render
    (page_step env3 (RequestSettles (length (requests p)) (Resolved text))
       (page_step env2
          (ReaderLoad (length (reads p)) (header ++ String comma payload) true)
          (page_step env1 (ChooseFile (Some f) true) p)))))) = idle /\
  refs (core
    (page_step env3 (RequestSettles (length (requests p)) (Resolved text))
       (page_step env2
          (ReaderLoad (length (reads p)) (header ++ String comma payload) true)
          (page_step env1 (ChooseFile (Some f) true) p)))) = refs (core p) /\
  world (core
    (page_step env3 (RequestSettles (length (requests p)) (Resolved text))
       (page_step env2
          (ReaderLoad (length (reads p)) (header ++ String comma payload) true)
          (page_step env1 (ChooseFile (Some f) true) p)))) = world (core p).
Proof.
  intros Hh Hp.
  change (page_step env1 (ChooseFile (Some f) true) p)
    with (handleFileUpload env1 (Some f) true p).
  destruct (handleFileUpload_reads env1 f p) as (C1 & N1 & R1 & Q1 & _).
  revert C1 N1 R1 Q1. generalize (handleFileUpload env1 (Some f) true p).
  intros p1 C1 N1 R1 Q1.
  assert (Hk : reads p1 !! length (reads p) = Some (f, false))
    by (rewrite R1; apply lookup_snoc).
  destruct (reader_loads env2 (length (reads p)) f (header ++ String comma payload)
              p1 Hk) as (C2 & N2 & _ & Q2).
  rewrite (data_url_payload header payload Hh Hp) in Q2.
  revert C2 N2 Q2.
  generalize (page_step env2
                (ReaderLoad (length (reads p)) (header ++ String comma payload) true) p1).
  intros p2 C2 N2 Q2.
  assert (Hj : requests p2 !! length (requests p)
               = Some {| reqModel := "gemini-3-flash-preview";
                         reqContents :=
                           AudioAndText (fileType f) (Some payload) transcribePrompt;
                         reqSettled := false |})
    by (rewrite Q2, Q1; apply lookup_snoc).
  destruct (transcription_request_settles env3 (length (requests p)) _ (Resolved text)
              _ _ _ p2 Hj eq_refl eq_refl) as (C3 & N3 & _).
  revert C3 N3.
  generalize (page_step env3 (RequestSettles (length (requests p)) (Resolved text)) p2).
  intros p3 C3 N3.
  cbn [page_render core panel]. rewrite !ui_render.
  rewrite N1, N3, C3, C2, C1, Q2, Q1.
  repeat split; try reflexivity.
  - fields. reflexivity.
  - apply or_else_truthy. reflexivity.
  - fields. reflexivity.
  - backstage. reflexivity.
  - backstage. reflexivity.
Qed.

Lemma file_is_transcribed_witness :
  occurs comma "data:audio/wav;base64" = false /\
  occurs comma "UklGRg==" = false /\
  requests
    (page_step (browser true)
       (ReaderLoad 0 ("data:audio/wav;base64" ++ String comma "UklGRg==") true)
       (page_step (browser true) (ChooseFile (Some (mkFile "audio/wav")) true)
          initialPage))
  = [ {| reqModel := "gemini-3-flash-preview";
         reqContents := AudioAndText "audio/wav" (Some "UklGRg==") transcribePrompt;
         reqSettled := false |} ] /\
  fileTranscription (panel (page_render
    (page_step (browser true) (RequestSettles 0 (Resolved (Some "salam")))
       (page_step (browser true)
          (ReaderLoad 0 ("data:audio/wav;base64" ++ String comma "UklGRg==") true)
          (page_step (browser true) (ChooseFile (Some (mkFile "audio/wav")) true)
             initialPage)))))
  = Some "salam".
Proof.
  split; [reflexivity|]. split; [reflexivity|].
  pose proof (file_is_transcribed (browser true) (browser true) (browser true)
                (mkFile "audio/wav") "data:audio/wav;base64" "UklGRg=="
                (Some "salam") initialPage eq_refl eq_refl)
    as (_ & _ & H3 & H4 & _).
  split; [exact H3 | exact H4].
Defined.

(** The read is done and the client cannot be built. *)
Lemma reader_load_throws (env : Env) (k : nat) (f : File) (result : string) (p : Page) :
  reads p !! k = Some (f, false) ->
  core (page_step env (ReaderLoad k result false) p) = core p /\
  next_panel (page_step env (ReaderLoad k result false) p) = next_panel p /\
  requests (page_step env (ReaderLoad k result false) p) = requests p.
Proof.
  intros H. cbn [page_step]. rewrite H. unfold reader_onload. cbv zeta.
  repeat split; reflexivity.
Qed.

(** X17.  A file transcription that fails is not reported.  The
    callback of the reader runs outside the [try] of [handleFileUpload],
    which has returned long before; so when the request is rejected, or
    when the client cannot even be built, nobody handles it: nothing is
    logged, no state is set, and the next render still shows [processing]
    (never [error]) and no file transcription. *)
Theorem failed_transcription_is_silent (env1 env2 env3 : Env) (f : File)
    (result : string) (p : Page) :
  (status (ui (core (page_render
     (page_step env3 (RequestSettles (length (requests p)) Rejected)
        (page_step env2 (ReaderLoad (length (reads p)) result true)
           (page_step env1 (ChooseFile (Some f) true) p)))))) = processing /\
   fileTranscription (panel (page_render
     (page_step env3 (RequestSettles (length (requests p)) Rejected)
        (page_step env2 (ReaderLoad (length (reads p)) result true)
           (page_step env1 (ChooseFile (Some f) true) p))))) = None /\
   console (world (core
     (page_step env3 (RequestSettles (length (requests p)) Rejected)
        (page_step env2 (ReaderLoad (length (reads p)) result true)
           (page_step env1 (ChooseFile (Some f) true) p)))))
   = console (world (core p))) /\
  (status (ui (core (page_render
     (page_step env2 (ReaderLoad (length (reads p)) result false)
        (page_step env1 (ChooseFile (Some f) true) p))))) = processing /\
   fileTranscription (panel (page_render
     (page_step env2 (ReaderLoad (length (reads p)) result false)
        (page_step env1 (ChooseFile (Some f) true) p)))) = None /\
   requests
     (page_step env2 (ReaderLoad (length (reads p)) result false)
        (page_step env1 (ChooseFile (Some f) true) p))
   = requests p /\
   console (world (core
     (page_step env2 (ReaderLoad (length (reads p)) result false)
        (page_step env1 (ChooseFile (Some f) true) p))))
   = console (world (core p))).
Proof.
  change (page_step env1 (ChooseFile (Some f) true) p)
    with (handleFileUpload env1 (Some f) true p).
  destruct (handleFileUpload_reads env1 f p) as (C1 & N1 & R1 & Q1 & _).
  revert C1 N1 R1 Q1. generalize (handleFileUpload env1 (Some f) true p).
  intros p1 C1 N1 R1 Q1.
  assert (Hk : reads p1 !! length (reads p) = Some (f, false))
    by (rewrite R1; apply lookup_snoc).
  split.
  - destruct (reader_loads env2 (length (reads p)) f result p1 Hk)
      as (C2 & N2 & _ & Q2).
    revert C2 N2 Q2.
    generalize (page_step env2 (ReaderLoad (length (reads p)) result true) p1).
    intros p2 C2 N2 Q2.
    assert (Hj : requests p2 !! length (requests p)
                 = Some {| reqModel := "gemini-3-flash-preview";
                           reqContents :=
                             AudioAndText (fileType f) (split comma result !! 1)
                               transcribePrompt;
                           reqSettled := false |})
      by (rewrite Q2, Q1; apply lookup_snoc).
    destruct (transcription_request_settles env3 (length (requests p)) _ Rejected
                _ _ _ p2 Hj eq_refl eq_refl) as (C3 & N3 & _).
    revert C3 N3.
    generalize (page_step env3 (RequestSettles (length (requests p)) Rejected) p2).
    intros p3 C3 N3.
    cbn [page_render core panel]. rewrite !ui_render.
    rewrite N3, N2, N1, C3, C2, C1.
    repeat split; try reflexivity.
    + fields. reflexivity.
    + backstage. reflexivity.
  - destruct (reader_load_throws env2 (length (reads p)) f result p1 Hk)
      as (C2 & N2 & Q2).
    revert C2 N2 Q2.
    generalize (page_step env2 (ReaderLoad (length (reads p)) result false) p1).
    intros p2 C2 N2 Q2.
    cbn [page_render core panel]. rewrite !ui_render.
    rewrite N2, N1, C2, C1, Q2, Q1.
    repeat split; try reflexivity.
    + fields. reflexivity.
    + backstage. reflexivity.
Qed.

End FileTranscription.

(* ===================================================================== *)
(** * Summarizing the conversation *)
(* ===================================================================== *)

Section Summary.
Import JSString.

Lemma occurs_append (c : ascii) (a b : string) :
  occurs c (a ++ b) = occurs c a || occurs c b.
Proof.
  induction a as [|x a IH]; cbn; [reflexivity|].
  rewrite IH. apply orb_assoc.
Qed.

Lemma transcriptLine_one_line (t : TranscriptEntry) :
  occurs LF (text t) = false -> occurs LF (transcriptLine t) = false.
Proof.
  intros H. unfold transcriptLine. rewrite !occurs_append, H.
  destruct (speaker t); reflexivity.
Qed.

Lemma transcriptLine_injective (t t' : TranscriptEntry) :
  transcriptLine t = transcriptLine t' -> t = t'.
Proof.
  destruct t as [[|] x], t' as [[|] y]; unfold transcriptLine; cbn;
    intros H; try discriminate H; injection H as ->; reflexivity.
Qed.

(** X18.  The transcript that goes into the summary prompt keeps the
    conversation: for a history that is not empty and whose texts hold no
    line feed, cutting the transcript at its line feeds gives back one line
    per entry, in the order of the history, and a line determines its entry
    (the speaker by its label, the text after it).  So two such histories
    with the same transcript are the same. *)
Theorem transcript_keeps_the_entries (history history' : list TranscriptEntry) :
  history <> [] ->
  Forall (fun t => occurs LF (text t) = false) history ->
  split LF (fullTranscript history) = map transcriptLine history /\
  (history' <> [] ->
   Forall (fun t => occurs LF (text t) = false) history' ->
   fullTranscript history = fullTranscript history' -> history = history').
Proof.
  assert (S : forall h, h <> [] ->
            Forall (fun t => occurs LF (text t) = false) h ->
            split LF (fullTranscript h) = map transcriptLine h).
  { intros h Hne HF. unfold fullTranscript. apply split_join.
    - destruct h; [contradiction | discriminate].
    - apply Forall_map. eapply Forall_impl; [exact HF|].
      intros t. apply transcriptLine_one_line. }
  intros Hne HF. split; [apply S; assumption|].
  intros Hne' HF' E.
  pose proof (S history Hne HF) as S1. pose proof (S history' Hne' HF') as S2.
  rewrite E, S2 in S1. clear - S1.
  revert history S1. induction history' as [|t' h' IH]; intros [|t h] S1;
    try discriminate S1; [reflexivity|].
  cbn [map] in S1. injection S1 as Ht Hh.
  f_equal; [symmetry; apply transcriptLine_injective, Ht | apply IH, Hh].
Qed.

Lemma transcript_keeps_the_entries_witness :
  [mkEntry user "salam"; mkEntry ai "walaikum"] <> [] /\
  Forall (fun t => occurs LF (text t) = false)
    [mkEntry user "salam"; mkEntry ai "walaikum"] /\
  split LF (fullTranscript [mkEntry user "salam"; mkEntry ai "walaikum"])
  = ["User: salam"; "AI: walaikum"].
Proof.
  assert (H1 : [mkEntry user "salam"; mkEntry ai "walaikum"] <> []) by discriminate.
  assert (H2 : Forall (fun t => occurs LF (text t) = false)
                 [mkEntry user "salam"; mkEntry ai "walaikum"])
    by (repeat constructor).
  split; [exact H1|]. split; [exact H2|].
  exact (proj1 (transcript_keeps_the_entries
                  [mkEntry user "salam"; mkEntry ai "walaikum"] [] H1 H2)).
Defined.

(** [generateSummary] up to its [await], with a history to summarize and
    a client. *)
Lemma generateSummary_requests (env : Env) (p : Page) :
  transcriptHistory (ui (core p)) <> [] ->
  core (generateSummary env true p) = core p /\
  next_panel (generateSummary env true p)
  = mkPanel (fileTranscription (next_panel p)) (isProcessingFile (next_panel p)) true /\
  requests (generateSummary env true p)
  = requests p
    ++ [ {| reqModel := "gemini-3-flash-preview";
            reqContents :=
              Text (summaryPrompt (fullTranscript (transcriptHistory (ui (core p)))));
            reqSettled := false |} ].
Proof.
  intros H. unfold generateSummary.
  destruct (transcriptHistory (ui (core p))) as [|t h] eqn:E; [contradiction|].
  cbn [length Nat.eqb]. cbv zeta. repeat split; try reflexivity.
  panels. reflexivity.
Qed.

Lemma summary_request_settles (env : Env) (j : nat) (r : Request) (o : Outcome)
    (prompt : string) (p : Page) :
  requests p !! j = Some r ->
  reqSettled r = false ->
  reqContents r = Text prompt ->
  core (page_step env (RequestSettles j o) p)
  = match o with
    | Resolved text =>
        setSummary env (Some (or_else text "Summary unavailable.")) (core p)
    | Rejected =>
        setSummary env (Some "Error generating summary.")
          (console_error "Failed to generate summary:" (core p))
    end /\
  next_panel (page_step env (RequestSettles j o) p)
  = mkPanel (fileTranscription (next_panel p)) (isProcessingFile (next_panel p)) false.
Proof.
  intros Hr Hs Hc. cbn [page_step]. unfold request_step.
  rewrite Hr, Hs, Hc. cbv zeta. unfold summary_settled, summary_failed.
  destruct o as [text|]; cbv zeta; (split; [reflexivity | panels; reflexivity]).
Qed.

(** X19.  A summary request always comes to an end that is shown.  With
    a rendered history that is not empty, [generateSummary] makes one
    request, whose prompt is the instruction followed by the transcript of
    that history, and the next render shows the spinner; when the request
    settles, whichever way, the next render shows no spinner and a summary
    that is not empty: the text of the response, "Summary unavailable." if
    the response has none, and "Error generating summary." (with a line
    logged) if the request was rejected.  If the client cannot be built,
    the same error text is set by the call itself and the spinner is never
    shown.  And with an empty rendered history the call does nothing. *)
Theorem summary_request_ends (env1 env2 : Env) (o : Outcome) (p : Page) :
  transcriptHistory (ui (core p)) <> [] ->
  requests (generateSummary env1 true p)
  = requests p
    ++ [ {| reqModel := "gemini-3-flash-preview";
            reqContents :=
              Text (summaryPrompt (fullTranscript (transcriptHistory (ui (core p)))));
            reqSettled := false |} ] /\
  isSummarizing (panel (page_render (generateSummary env1 true p))) = true /\
  isSummarizing (panel (page_render
    (page_step env2 (RequestSettles (length (requests p)) o)
       (generateSummary env1 true p)))) = false /\
  summary (ui (core (page_render
    (page_step env2 (RequestSettles (length (requests p)) o)
       (generateSummary env1 true p)))))
  = Some match o with
         | Resolved text => or_else text "Summary unavailable."
         | Rejected => "Error generating summary."
         end /\
  summaryShown (ui (core (page_render
    (page_step env2 (RequestSettles (length (requests p)) o)
       (generateSummary env1 true p))))) = true /\
  isSummarizing (panel (page_render (generateSummary env1 false p))) = false /\
  summary (ui (core (page_render (generateSummary env1 false p))))
  = Some "Error generating summary." /\
  requests (generateSummary env1 false p) = requests p /\
  (forall (constructs : bool) (q : Page),
      transcriptHistory (ui (core q)) = [] ->
      generateSummary env1 constructs q = q).
Proof.
  intros Hne.
  destruct (generateSummary_requests env1 p Hne) as (C1 & N1 & Q1).
  assert (F : core (generateSummary env1 false p)
              = setSummary env1 (Some "Error generating summary.")
                  (console_error "Failed to generate summary:" (core p)) /\
              next_panel (generateSummary env1 false p)
              = mkPanel (fileTranscription (next_panel p))
                  (isProcessingFile (next_panel p)) false /\
              requests (generateSummary env1 false p) = requests p).
  { unfold generateSummary, summary_failed.
    destruct (transcriptHistory (ui (core p))) as [|t h]; [contradiction|].
    cbn [length Nat.eqb]. cbv zeta. repeat split; try reflexivity.
    panels. reflexivity. }
  destruct F as (C0 & N0 & Q0).
  revert C0 N0 Q0. generalize (generateSummary env1 false p). intros p0 C0 N0 Q0.
  revert C1 N1 Q1. generalize (generateSummary env1 true p). intros p1 C1 N1 Q1.
  assert (Hj : requests p1 !! length (requests p)
               = Some {| reqModel := "gemini-3-flash-preview";
                         reqContents :=
                           Text (summaryPrompt
                                   (fullTranscript (transcriptHistory (ui (core p)))));
                         reqSettled := false |})
    by (rewrite Q1; apply lookup_snoc).
  destruct (summary_request_settles env2 (length (requests p)) _ o _ p1 Hj
              eq_refl eq_refl) as (C2 & N2).
  revert C2 N2.
  generalize (page_step env2 (RequestSettles (length (requests p)) o) p1).
  intros p2 C2 N2.
  assert (S2 : summary (ui (core (page_render p2)))
               = Some match o with
                      | Resolved text => or_else text "Summary unavailable."
                      | Rejected => "Error generating summary."
                      end).
  { cbn [page_render core]. rewrite ui_render, C2.
    destruct o as [text|]; fields; reflexivity. }
  assert (S0 : summary (ui (core (page_render p0)))
               = Some "Error generating summary.").
  { cbn [page_render core]. rewrite ui_render, C0. fields. reflexivity. }
  split; [exact Q1|].
  split; [cbn [page_render panel]; rewrite N1; reflexivity|].
  split; [cbn [page_render panel]; rewrite N2; reflexivity|].
  split; [exact S2|]. split.
  { unfold summaryShown. rewrite S2. cbn [shows].
    destruct o as [text|]; [apply or_else_truthy|]; reflexivity. }
  split; [cbn [page_render panel]; rewrite N0; reflexivity|].
  split; [exact S0|].
  split; [exact Q0|].
  intros constructs q Hq. unfold generateSummary. rewrite Hq. reflexivity.
Qed.

Lemma summary_request_ends_witness :
  transcriptHistory (ui (core talked)) <> [] /\
  isSummarizing (panel (page_render (generateSummary (browser true) true talked)))
  = true /\
  summary (ui (core (page_render
    (page_step (browser true) (RequestSettles 0 (Resolved (Some "kath")))
       (generateSummary (browser true) true talked)))))
  = Some "kath".
Proof.
  assert (H : transcriptHistory (ui (core talked)) <> [])
    by (vm_compute; discriminate).
  split; [exact H|].
  pose proof (summary_request_ends (browser true) (browser true)
                (Resolved (Some "kath")) talked H) as (_ & H2 & _ & H4 & _).
  split; [exact H2 | exact H4].
Defined.

End Summary.

(* ===================================================================== *)
(** * Captured audio *)
(* ===================================================================== *)

Section Capture.

(** No event but a click on the start button puts a session in the ref. *)
Lemma step_without_session (env : Env) (e : Event) (s : App) :
  e <> ClickToggle ->
  sessionPromiseRef (refs s) = None ->
  sessionPromiseRef (refs (step env e s)) = None.
Proof.
  intros He Hs.
  assert (Stop : forall t, sessionPromiseRef (refs (state_of (stopSession env t))) = None)
    by (intros t; apply (stopSession_torn_down env t)).
  destruct e as [| |m|i|i msg|i|i|i|]; cbn [step].
  - exact Hs.
  - contradiction.
  - unfold onClickMode. destruct (negb (isRecording (ui s))); [|exact Hs].
    unfold setMode. rewrite dispatch_refs. exact Hs.
  - destruct (sessions (world s) !! i); [|exact Hs].
    destruct (inputAudioContextRef (refs s)) as [c|] eqn:Ec;
      [destruct (mediaStreamRef (refs s)) as [m|] eqn:Em|].
    + destruct (onopen_wires env s c m Ec Em) as (_ & _ & _ & _ & -> & _). exact Hs.
    + rewrite (onopen_throws env s) by (right; exact Em). cbn [state_of].
      unfold setStatus. rewrite dispatch_refs. exact Hs.
    + rewrite (onopen_throws env s) by (left; exact Ec). cbn [state_of].
      unfold setStatus. rewrite dispatch_refs. exact Hs.
  - destruct (sessions (world s) !! i) as [x|]; [|exact Hs].
    destruct (resources_fields _ _ (resources_onmessage (sessMode x) env msg s))
      as (-> & _). exact Hs.
  - destruct (sessions (world s) !! i); [|exact Hs]. unfold onerror. apply Stop.
  - destruct (sessions (world s) !! i); [|exact Hs]. apply Stop.
  - destruct (sources (world s) !! i); [|exact Hs].
    destruct (existsb (Nat.eqb i) (ended (world s))); [exact Hs|].
    destruct (resources_fields _ _
                (resources_onended env i (world_ended (ended (world s) ++ [i]) s)))
      as (-> & _). exact Hs.
  - apply Stop.
Qed.

Lemma page_step_without_session (env : Env) (e : PageEvent) (p : Page) :
  e <> Session ClickToggle ->
  sessionPromiseRef (refs (core p)) = None ->
  sessionPromiseRef (refs (core (page_step env e p))) = None /\
  sent (page_step env e p) = sent p.
Proof.
  intros He Hs.
  destruct e as [e|file readable|k result constructs|k o|constructs| | |data];
    cbn [page_step].
  - unfold session_step.
    assert (G : sessionPromiseRef (refs (core (on_core (step env e) p))) = None /\
                sent (on_core (step env e) p) = sent p).
    { split; [|reflexivity]. cbn [on_core core].
      apply step_without_session; [congruence | exact Hs]. }
    destruct e; try exact G.
    exfalso. apply He. reflexivity.
  - unfold handleFileUpload. destruct file as [f|]; [|split; [exact Hs | reflexivity]].
    cbv zeta. destruct readable; page; backstage; split; (exact Hs || reflexivity).
  - destruct (reads p !! k) as [[f [|]]|]; try (split; [exact Hs | reflexivity]).
    unfold reader_onload. cbv zeta.
    destruct constructs; split; (exact Hs || reflexivity).
  - unfold request_step.
    destruct (requests p !! k) as [r|]; [|split; [exact Hs | reflexivity]].
    destruct (reqSettled r); [split; [exact Hs | reflexivity]|]. cbv zeta.
    destruct (reqContents r).
    + unfold transcription_settled. destruct o as [t|]; page; backstage;
        split; (exact Hs || reflexivity).
    + unfold summary_settled, summary_failed. destruct o as [t|]; cbv zeta; page;
        backstage; split; (exact Hs || reflexivity).
  - destruct (summarizeShown _ && _); [|split; [exact Hs | reflexivity]].
    unfold generateSummary, summary_failed.
    destruct (Nat.eqb _ 0); [split; [exact Hs | reflexivity]|].
    cbv zeta. destruct constructs; page; backstage; split; (exact Hs || reflexivity).
  - destruct (summaryShown _); [|split; [exact Hs | reflexivity]].
    page. backstage. split; [exact Hs | reflexivity].
  - destruct (fileTranscriptionShown _ _); [|split; [exact Hs | reflexivity]].
    destruct (fileTranscription (panel p)); split; (exact Hs || reflexivity).
  - unfold onaudioprocess. rewrite Hs. split; [exact Hs | reflexivity].
Qed.

Lemma page_exec_without_session (tr : list (Env * PageEvent)) (p : Page) :
  Forall (fun ee : Env * PageEvent => snd ee <> Session ClickToggle) tr ->
  sessionPromiseRef (refs (core p)) = None ->
  sent (page_exec tr p) = sent p.
Proof.
  revert p. induction tr as [|[env e] tr IH]; intros p HF Hs; [reflexivity|].
  inversion HF as [|? ? He HF']; subst. cbn [snd] in He. cbn [page_exec].
  destruct (page_step_without_session env e p He Hs) as [Hs1 Hsent].
  rewrite IH by assumption. exact Hsent.
Qed.

(** X20.  No captured audio leaves after a stop.  Once [stopSession] has
    run, from whatever state of the whole component, no frame is sent to
    any session until the start button is clicked again, whatever happens in
    between: the capture node may still fire, messages and callbacks may
    still come, files may be chosen and summaries asked for. *)
Theorem no_frame_after_stop (env : Env) (p : Page) (tr : list (Env * PageEvent)) :
  Forall (fun ee : Env * PageEvent => snd ee <> Session ClickToggle) tr ->
  sent (page_exec tr (on_core (fun s => state_of (stopSession env s)) p)) = sent p.
Proof.
  intros HF. rewrite page_exec_without_session; [reflexivity | exact HF|].
  cbn [on_core core]. apply (stopSession_torn_down env (core p)).
Qed.

Lemma no_frame_after_stop_witness :
  Forall (fun ee : Env * PageEvent => snd ee <> Session ClickToggle)
    (page_events true [AudioProcess [1%Q]; Session (SessionOpen 0);
                       AudioProcess [0%Q]]) /\
  length (sent (page_exec (page_events true capturing) initialPage)) = 2 /\
  sent (page_exec
          (page_events true [AudioProcess [1%Q]; Session (SessionOpen 0);
                             AudioProcess [0%Q]])
          (on_core (fun s => state_of (stopSession (browser true) s))
             (page_exec (page_events true capturing) initialPage)))
  = sent (page_exec (page_events true capturing) initialPage).
Proof.
  assert (H : Forall (fun ee : Env * PageEvent => snd ee <> Session ClickToggle)
                (page_events true [AudioProcess [1%Q]; Session (SessionOpen 0);
                                   AudioProcess [0%Q]]))
    by (repeat constructor; discriminate).
  split; [exact H|]. split; [reflexivity|].
  exact (no_frame_after_stop (browser true)
           (page_exec (page_events true capturing) initialPage) _ H).
Defined.

End Capture.

(* ===================================================================== *)
(** * Beside the session *)
(* ===================================================================== *)

Section Beside.

Lemma same_session_refl (s : App) : same_session s s.
Proof. repeat split; reflexivity. Qed.

Lemma same_session_trans (s1 s2 s3 : App) :
  same_session s1 s2 -> same_session s2 s3 -> same_session s1 s3.
Proof.
  intros (A1 & A2 & A3 & A4 & A5 & A6 & A7 & A8) (B1 & B2 & B3 & B4 & B5 & B6 & B7 & B8).
  repeat split; congruence.
Qed.

Lemma same_session_console (line : string) (s : App) :
  same_session s (console_error line s).
Proof. repeat split; reflexivity. Qed.

Lemma same_session_dispatch (env : Env) (u : Update) (s : App) :
  (exists v, u = SetStatus v) \/ (exists o, u = SetSummary o) ->
  same_session s (dispatch env u s).
Proof.
  intros Hu.
  assert (Hh : history_update u = false)
    by (destruct Hu as [[v ->]|[o ->]]; reflexivity).
  assert (N : next_ui (refs s) (dispatch env u s)
              = apply_update (refs s) (next_ui (refs s) s) u)
    by (apply next_ui_dispatch, Hh).
  unfold same_session, shown, playback_view, resources_view, schedule_view.
  rewrite !ui_render, dispatch_refs, dispatch_world, N.
  destruct Hu as [[v ->]|[o ->]]; repeat split; reflexivity.
Qed.

Lemma same_session_setStatus env v s : same_session s (setStatus env v s).
Proof. apply same_session_dispatch. left. eexists. reflexivity. Qed.

Lemma same_session_setSummary env o s : same_session s (setSummary env o s).
Proof. apply same_session_dispatch. right. eexists. reflexivity. Qed.

Lemma same_session_failed env s :
  same_session s
    (setSummary env (Some "Error generating summary.")
       (console_error "Failed to generate summary:" s)).
Proof.
  eapply same_session_trans;
    [apply same_session_console | apply same_session_setSummary].
Qed.

(** X21.  What happens beside the session leaves the session alone.  An
    event of the whole component that is not one of the session controller
    (a file chosen, its read done, a request settled, a click on Summarize,
    on the cross of the summary or on the copy button, a buffer captured)
    assigns no ref, touches no platform object of the session (it may log a
    line), and changes neither the mode nor the recording flag nor the
    history nor the live transcripts of the next render: it can set the
    status and the summary, no more. *)
Theorem beside_the_session (env : Env) (e : PageEvent) (p : Page) :
  (forall e', e <> Session e') ->
  refs (core (page_step env e p)) = refs (core p) /\
  playback_view (core (page_step env e p)) = playback_view (core p) /\
  resources_view (core (page_step env e p)) = resources_view (core p) /\
  schedule_view (core (page_step env e p)) = schedule_view (core p) /\
  mode (ui (render (core (page_step env e p)))) = mode (ui (render (core p))) /\
  isRecording (ui (render (core (page_step env e p))))
  = isRecording (ui (render (core p))) /\
  shown (core (page_step env e p)) = shown (core p) /\
  live (ui (render (core (page_step env e p)))) = live (ui (render (core p))).
Proof.
  intros He. change (same_session (core p) (core (page_step env e p))).
  destruct e as [e|file readable|k result constructs|k o|constructs| | |data];
    cbn [page_step] in *.
  - destruct (He e eq_refl).
  - unfold handleFileUpload. destruct file as [f|]; [|apply same_session_refl].
    cbv zeta. destruct readable; page.
    + apply same_session_setStatus.
    + eapply same_session_trans; [apply same_session_setStatus|].
      eapply same_session_trans;
        [apply same_session_console | apply same_session_setStatus].
  - destruct (reads p !! k) as [[f [|]]|]; try apply same_session_refl.
    unfold reader_onload. cbv zeta. destruct constructs; apply same_session_refl.
  - unfold request_step.
    destruct (requests p !! k) as [r|]; [|apply same_session_refl].
    destruct (reqSettled r); [apply same_session_refl|]. cbv zeta.
    destruct (reqContents r).
    + unfold transcription_settled. destruct o as [t|]; page.
      * apply same_session_setStatus.
      * apply same_session_refl.
    + unfold summary_settled, summary_failed. destruct o as [t|]; cbv zeta; page.
      * apply same_session_setSummary.
      * apply same_session_failed.
  - destruct (summarizeShown _ && _); [|apply same_session_refl].
    unfold generateSummary, summary_failed.
    destruct (Nat.eqb _ 0); [apply same_session_refl|].
    cbv zeta. destruct constructs; page.
    + apply same_session_refl.
    + apply same_session_failed.
  - destruct (summaryShown _); [|apply same_session_refl].
    page. apply same_session_setSummary.
  - destruct (fileTranscriptionShown _ _); [|apply same_session_refl].
    destruct (fileTranscription (panel p)); apply same_session_refl.
  - unfold onaudioprocess. cbv zeta.
    destruct (sessionPromiseRef (refs (core p))) as [i|]; [|apply same_session_refl].
    destruct (sessions (world (core p)) !! i) as [x|]; [|apply same_session_refl].
    destruct (sessPromise x); apply same_session_refl.
Qed.

Lemma beside_the_session_witness :
  (forall e', ChooseFile (Some (mkFile "audio/wav")) true <> Session e') /\
  refs (core (page_step (browser true) (ChooseFile (Some (mkFile "audio/wav")) true)
                talked)) = refs (core talked) /\
  isRecording (ui (render (core
    (page_step (browser true) (ChooseFile (Some (mkFile "audio/wav")) true) talked))))
  = isRecording (ui (render (core talked))) /\
  shown (core (page_step (browser true) (ChooseFile (Some (mkFile "audio/wav")) true)
                 talked)) = shown (core talked).
Proof.
  assert (H : forall e', ChooseFile (Some (mkFile "audio/wav")) true <> Session e')
    by (intros e'; discriminate).
  split; [exact H|].
  pose proof (beside_the_session (browser true)
                (ChooseFile (Some (mkFile "audio/wav")) true) talked H)
    as (H1 & _ & _ & _ & _ & H6 & H7 & _).
  split; [exact H1|]. split; [exact H6 | exact H7].
Defined.

End Beside.

(* ===================================================================== *)
(** * The status, event by event *)
(* ===================================================================== *)

Section StatusMachine.

Lemma status_any_refs r r' s : status (next_ui r s) = status (next_ui r' s).
Proof. apply (beside_fields _ _ (beside_any_refs r r' s)). Qed.

Lemma status_stopSession r env s :
  status (next_ui r (state_of (stopSession env s))) = idle.
Proof. rewrite stopSession_next_ui. reflexivity. Qed.

Lemma status_startSession r env s :
  status (next_ui r (state_of (startSession env s)))
  = if key_missing env then error
    else if micGranted env then connecting else error.
Proof.
  unfold startSession, start_open.
  destruct (key_missing env); [|destruct (micGranted env)]; cbn [state_of];
    fields; reflexivity.
Qed.

Lemma status_onopen r env s :
  status (next_ui r (state_of (onopen env s))) = listening.
Proof.
  unfold onopen. cbv zeta.
  destruct (inputAudioContextRef (refs (setStatus env listening s)));
    [destruct (mediaStreamRef (refs (setStatus env listening s)))|];
    cbn [state_of]; fields; reflexivity.
Qed.

Lemma status_onmessage r md env m s :
  status (next_ui r (state_of (onmessage md env m s)))
  = match outputTranscription m, md with
    | Some _, conversation => speaking
    | _, _ => status (next_ui r s)
    end.
Proof.
  unfold onmessage. cbv zeta.
  assert (H1 : status (next_ui r (message_input env m s)) = status (next_ui r s)).
  { unfold message_input. destruct (inputTranscription m); [|reflexivity].
    cbv zeta. fields. reflexivity. }
  rewrite <- H1. generalize (message_input env m s). intros s1.
  assert (H2 : status (next_ui r (message_output md env m s1))
               = match outputTranscription m, md with
                 | Some _, conversation => speaking
                 | _, _ => status (next_ui r s1)
                 end).
  { unfold message_output. destruct (outputTranscription m); [|reflexivity].
    cbv zeta. destruct md; fields; reflexivity. }
  rewrite <- H2. generalize (message_output md env m s1). intros s2.
  assert (H3 : status (next_ui r (state_of (message_audio md env m s2)))
               = status (next_ui r s2)).
  { pose proof (message_audio_quiet md env m s2) as D.
    inversion D as [? ? Hu Hp|]; [|destruct us; discriminate].
    unfold next_ui. rewrite Hu, Hp. reflexivity. }
  rewrite <- H3.
  destruct (message_audio md env m s2) as [s3|s3]; cbn [and_then state_of];
    [|reflexivity].
  unfold message_turnComplete. destruct (turnComplete m); [|reflexivity].
  cbv zeta.
  destruct (JS.truthy (JS.trim (currentInputTranscriptionRef (refs s3))));
    match goal with |- context [if ?b && ?c then _ else _] => destruct (b && c) end;
    fields; reflexivity.
Qed.

Lemma status_onended r env i s :
  status (next_ui r (onended env i s))
  = if Nat.eqb (length (set_delete i (audioSourcesRef (refs s)))) 0
    then listening else status (next_ui r s).
Proof.
  unfold onended. cbv zeta. proj.
  destruct (Nat.eqb (length (set_delete i (audioSourcesRef (refs s)))) 0);
    fields; reflexivity.
Qed.

(** X22.  The status machine of the session controller, read off the
    handlers and React's batching: the status that the next render shows
    after an event, whatever the state.  A click on the start/stop button
    leads to [idle] when the component was recording, and else to [error]
    (no credential, or the microphone refused) or to [connecting];
    [onopen] leads to [listening]; a message leads to [speaking] if it
    carries a fragment of the assistant and the session was started in
    conversation mode (audio alone does not), and else changes nothing;
    [onerror], [onclose] and the clean-up lead to [idle]; the end of a
    source leads to [listening] if it leaves the active set empty; a render
    and a click on a mode button change nothing. *)
Theorem status_after_event (env : Env) (e : Event) (s : App) :
  status (ui (render (step env e s)))
  = match e with
    | Render | ClickMode _ => status (ui (render s))
    | ClickToggle =>
        if isRecording (ui s) then idle
        else if key_missing env then error
        else if micGranted env then connecting else error
    | SessionOpen i =>
        match sessions (world s) !! i with
        | Some _ => listening
        | None => status (ui (render s))
        end
    | SessionMessage i m =>
        match sessions (world s) !! i with
        | Some x =>
            match outputTranscription m, sessMode x with
            | Some _, conversation => speaking
            | _, _ => status (ui (render s))
            end
        | None => status (ui (render s))
        end
    | SessionError i | SessionClose i =>
        match sessions (world s) !! i with
        | Some _ => idle
        | None => status (ui (render s))
        end
    | SourceEnded i =>
        match sources (world s) !! i with
        | Some _ =>
            if existsb (Nat.eqb i) (ended (world s)) then status (ui (render s))
            else if Nat.eqb (length (set_delete i (audioSourcesRef (refs s)))) 0
                 then listening else status (ui (render s))
        | None => status (ui (render s))
        end
    | Unmount => idle
    end.
Proof.
  rewrite !ui_render.
  destruct e as [| |m|i|i msg|i|i|i|]; cbn [step].
  - reflexivity.
  - unfold handleToggleConversation. destruct (isRecording (ui s)).
    + apply status_stopSession.
    + apply status_startSession.
  - unfold onClickMode. destruct (negb (isRecording (ui s))); [|reflexivity].
    unfold setMode. fields. apply status_any_refs.
  - destruct (sessions (world s) !! i); [apply status_onopen | reflexivity].
  - destruct (sessions (world s) !! i) as [x|]; [|reflexivity].
    rewrite status_onmessage.
    destruct (outputTranscription msg), (sessMode x);
      reflexivity || apply status_any_refs.
  - destruct (sessions (world s) !! i); [|reflexivity].
    unfold onerror. apply status_stopSession.
  - destruct (sessions (world s) !! i); [|reflexivity].
    apply status_stopSession.
  - destruct (sources (world s) !! i); [|reflexivity].
    destruct (existsb (Nat.eqb i) (ended (world s))); [reflexivity|].
    rewrite status_onended. proj.
    destruct (Nat.eqb _ 0); [reflexivity|].
    unfold world_ended. rewrite next_ui_with_world. apply status_any_refs.
  - apply status_stopSession.
Qed.

(** X23.  The session controller shows [error] only for a start that
    failed.  If the render after an event shows [error] and the render
    before it would not have, the event is a click on the start button, on
    a component that was not recording, with the credential missing or the
    microphone refused.  No callback of a session leads there: after
    [onerror] the next render shows [idle]. *)
Theorem error_only_from_a_failed_start (env : Env) (e : Event) (s : App) :
  status (ui (render (step env e s))) = error ->
  status (ui (render s)) = error \/
  (e = ClickToggle /\ isRecording (ui s) = false /\
   (key_missing env = true \/ micGranted env = false)).
Proof.
  rewrite !ui_render.
  destruct e as [| |m|i|i msg|i|i|i|]; cbn [step].
  - auto.
  - unfold handleToggleConversation. destruct (isRecording (ui s)).
    + rewrite status_stopSession. discriminate.
    + rewrite status_startSession. intros H.
      right. split; [reflexivity|]. split; [reflexivity|].
      destruct (key_missing env); [left; reflexivity|].
      destruct (micGranted env); [discriminate H | right; reflexivity].
  - unfold onClickMode. destruct (negb (isRecording (ui s))); [|auto].
    unfold setMode. fields. rewrite (status_any_refs _ (refs s)). auto.
  - destruct (sessions (world s) !! i); [|auto].
    rewrite status_onopen. discriminate.
  - destruct (sessions (world s) !! i) as [x|]; [|auto].
    rewrite status_onmessage, (status_any_refs _ (refs s)).
    destruct (outputTranscription msg), (sessMode x); auto; discriminate.
  - destruct (sessions (world s) !! i); [|auto].
    unfold onerror. rewrite status_stopSession. discriminate.
  - destruct (sessions (world s) !! i); [|auto].
    unfold onclose. rewrite status_stopSession. discriminate.
  - destruct (sources (world s) !! i); [|auto].
    destruct (existsb (Nat.eqb i) (ended (world s))); [auto|].
    rewrite status_onended. proj.
    destruct (Nat.eqb _ 0); [discriminate|].
    unfold world_ended. rewrite next_ui_with_world, (status_any_refs _ (refs s)). auto.
  - rewrite status_stopSession. discriminate.
Qed.

Lemma error_only_from_a_failed_start_witness :
  status (ui (render (step (browser_without_key true) ClickToggle initial))) = error /\
  (status (ui (render initial)) = error \/
   (ClickToggle = ClickToggle /\ isRecording (ui initial) = false /\
    (key_missing (browser_without_key true) = true \/
     micGranted (browser_without_key true) = false))).
Proof.
  split; [reflexivity|].
  exact (error_only_from_a_failed_start (browser_without_key true) ClickToggle
           initial eq_refl).
Defined.

(** X24.  While it connects, the start/stop button is dead.  After a
    click that started a session (the credential set, the microphone
    granted) and the render that follows it, the status shown is
    [connecting] and the button is disabled: a further click changes
    nothing at all, so the start can be neither repeated nor cancelled
    until some other event has changed the status. *)
Theorem no_click_while_connecting (env1 env2 env3 : Env) (p : Page) :
  toggleDisabled (ui (core p)) (panel p) = false ->
  isRecording (ui (core p)) = false ->
  key_missing env1 = false ->
  micGranted env1 = true ->
  status (ui (core (page_exec [(env1, Session ClickToggle); (env2, Session Render)] p)))
  = connecting /\
  page_step env3 (Session ClickToggle)
    (page_exec [(env1, Session ClickToggle); (env2, Session Render)] p)
  = page_exec [(env1, Session ClickToggle); (env2, Session Render)] p.
Proof.
  intros Hd Hr Hk Hm.
  assert (St : status (ui (core (page_exec [(env1, Session ClickToggle);
                                            (env2, Session Render)] p)))
               = connecting).
  { cbn [page_exec page_step session_step]. rewrite Hd.
    cbn [page_render on_core core step]. unfold handleToggleConversation.
    rewrite Hr, ui_render, status_startSession, Hk, Hm. reflexivity. }
  split; [exact St|].
  revert St.
  generalize (page_exec [(env1, Session ClickToggle); (env2, Session Render)] p).
  intros p1 St. cbn [page_step session_step]. unfold toggleDisabled.
  rewrite St. reflexivity.
Qed.

Lemma no_click_while_connecting_witness :
  toggleDisabled (ui (core initialPage)) (panel initialPage) = false /\
  isRecording (ui (core initialPage)) = false /\
  key_missing (browser true) = false /\
  micGranted (browser true) = true /\
  status (ui (core (page_exec [(browser true, Session ClickToggle);
                               (browser true, Session Render)] initialPage)))
  = connecting /\
  page_step (browser true) (Session ClickToggle)
    (page_exec [(browser true, Session ClickToggle);
                (browser true, Session Render)] initialPage)
  = page_exec [(browser true, Session ClickToggle);
               (browser true, Session Render)] initialPage.
Proof.
  split; [reflexivity|]. split; [reflexivity|]. split; [reflexivity|].
  split; [reflexivity|].
  apply (no_click_while_connecting (browser true) (browser true) (browser true)
           initialPage); reflexivity.
Defined.

End StatusMachine.
